(** * DevCommit: grouping of staged files and filtering of commit messages

    A shallow embedding of the pure parts of [devcommit/utils/git.py]
    ([group_files_by_directory], [generate_relation_grouping_prompt],
    [parse_relation_groups], [_fallback_intelligent_grouping]) and of
    [devcommit/main.py] ([sanitize_commit_messages]), with the properties
    the design document states about them.

    Conventions of the embedding.
    - A Python [str] is a [string]; paths and messages are taken to be
      ASCII text, so [str.lower], [str.strip], [\w] and [re.IGNORECASE]
      act on the ASCII letters, digits and blanks only.
    - [os.sep] is ["/"] and [os.path] is [posixpath].
    - A Python [dict] is an association list in insertion order
      ([dict_set] overwrites in place, otherwise appends at the end).
    - A raised exception is a value of [outcome]. *)

From Stdlib Require Import String Ascii List Bool Arith PeanoNat Lia ZArith.
From Stdlib Require Import Permutation.
From Stdlib Require DecimalString DecimalNat DecimalFacts.
Import ListNotations.

Local Open Scope string_scope.
Local Open Scope list_scope.

(* ================================================================== *)
(** * Python strings *)
(* ================================================================== *)

Module PyStr.

(** [str.isspace] on an ASCII character: TAB, LF, VT, FF, CR, the four
    separators FS GS RS US, and the space. *)
Definition isspace (c : ascii) : bool :=
  let n := nat_of_ascii c in
  (((9 <=? n) && (n <=? 13)) || ((28 <=? n) && (n <=? 32)))%nat.

Definition isupper (c : ascii) : bool :=
  let n := nat_of_ascii c in ((65 <=? n) && (n <=? 90))%nat.

Definition islower (c : ascii) : bool :=
  let n := nat_of_ascii c in ((97 <=? n) && (n <=? 122))%nat.

Definition isdigit (c : ascii) : bool :=
  let n := nat_of_ascii c in ((48 <=? n) && (n <=? 57))%nat.

(** The regular-expression class [\w]. *)
Definition isword (c : ascii) : bool :=
  isupper c || islower c || isdigit c || (c =? "_")%char.

Definition lower_char (c : ascii) : ascii :=
  if isupper c then ascii_of_nat (nat_of_ascii c + 32) else c.

(** [s.lower()] *)
Fixpoint lower (s : string) : string :=
  match s with
  | EmptyString => EmptyString
  | String c t => String (lower_char c) (lower t)
  end.

(** [s.lstrip()] *)
Fixpoint lstrip (s : string) : string :=
  match s with
  | EmptyString => EmptyString
  | String c t => if isspace c then lstrip t else s
  end.

(** [s.rstrip()] *)
Fixpoint rstrip (s : string) : string :=
  match s with
  | EmptyString => EmptyString
  | String c t =>
      match rstrip t with
      | EmptyString => if isspace c then EmptyString else String c EmptyString
      | r => String c r
      end
  end.

(** [s.strip()] *)
Definition strip (s : string) : string := rstrip (lstrip s).

(** [s.split(sep)] for a one-character separator: always at least one
    piece. *)
Fixpoint split (sep : ascii) (s : string) : list string :=
  match s with
  | EmptyString => [EmptyString]
  | String c t =>
      if (c =? sep)%char then EmptyString :: split sep t
      else match split sep t with
           | [] => [String c EmptyString]
           | piece :: rest => String c piece :: rest
           end
  end.

(** [s.startswith(p)] *)
Definition startswith (s p : string) : bool := prefix p s.

(** [s.endswith(p)] *)
Fixpoint endswith (s p : string) : bool :=
  (s =? p) ||
  match s with
  | EmptyString => false
  | String _ t => endswith t p
  end.

(** [s[:n]] and [s[n:]] for [0 <= n]. *)
Fixpoint take (n : nat) (s : string) : string :=
  match n, s with
  | S n', String c t => String c (take n' t)
  | _, _ => EmptyString
  end.

Fixpoint drop (n : nat) (s : string) : string :=
  match n, s with
  | S n', String _ t => drop n' t
  | _, _ => s
  end.

(** [s.find(c)] and [s.rfind(c)] for a character, [None] for [-1]. *)
Fixpoint find (c : ascii) (s : string) : option nat :=
  match s with
  | EmptyString => None
  | String a t =>
      if (a =? c)%char then Some 0
      else match find c t with Some i => Some (S i) | None => None end
  end.

Fixpoint rfind (c : ascii) (s : string) : option nat :=
  match s with
  | EmptyString => None
  | String a t =>
      match rfind c t with
      | Some i => Some (S i)
      | None => if (a =? c)%char then Some 0 else None
      end
  end.

(** [sep.join(parts)] *)
Definition join (sep : string) (parts : list string) : string :=
  String.concat sep parts.

Fixpoint all_space (s : string) : bool :=
  match s with
  | EmptyString => true
  | String c t => isspace c && all_space t
  end.

End PyStr.

Import PyStr.

(* ================================================================== *)
(** * [sanitize_commit_messages] (devcommit/main.py) *)
(* ================================================================== *)

(** The argument is a string or a list of strings
    ([isinstance(messages, str)]). *)
Inductive messages : Type :=
| MsgStr (s : string)
| MsgList (l : list string).

Definition error_prefix : string := "Error generating commit message:".

(** One turn of the [for msg in messages] loop. *)
Definition sanitize_step (valid_messages : list string) (msg : string)
  : list string :=
  if msg =? "" then valid_messages                      (* if not msg: continue *)
  else
    let msg := strip msg in
    if startswith msg error_prefix then valid_messages  (* continue *)
    else if negb (msg =? "") && negb (strip msg =? "")
         then valid_messages ++ [msg]
         else valid_messages.

Definition sanitize_commit_messages (m : messages) : list string :=
  let msgs :=
    match m with
    | MsgStr s =>
        if (s =? "") || (strip s =? "") then None
        else Some (split "|" s)
    | MsgList l => Some l
    end in
  match msgs with
  | None => []
  | Some msgs => fold_left sanitize_step msgs []
  end.

(** The filter as the design document words it: the candidates of a
    string are its pieces between ["|"]; every candidate is trimmed, empty
    ones and those that begin with the error prefix are dropped. *)
Definition candidates_of (m : messages) : list string :=
  match m with
  | MsgStr s => split "|" s
  | MsgList l => l
  end.

Definition keep_candidate (c : string) : bool :=
  negb (c =? "") && negb (startswith c error_prefix).

Definition candidate_filter (cands : list string) : list string :=
  filter keep_candidate (map strip cands).

(* ================================================================== *)
(** * Python dictionaries *)
(* ================================================================== *)

(** Keys are compared with [==]; for strings that is [String.eqb]. *)
Class KeyEq (K : Type) : Type := { key_eqb : K -> K -> bool }.

#[export] Instance string_KeyEq : KeyEq string := { key_eqb := String.eqb }.

(** A dictionary keeps its items in insertion order. *)
Definition dict (K V : Type) : Type := list (K * V).

Section Dict.
Context {K V : Type} `{KeyEq K}.

(** [d.get(k)] *)
Fixpoint dict_get (k : K) (d : dict K V) : option V :=
  match d with
  | [] => None
  | (k', v) :: rest => if key_eqb k' k then Some v else dict_get k rest
  end.

(** [k in d] *)
Definition dict_mem (k : K) (d : dict K V) : bool :=
  match dict_get k d with Some _ => true | None => false end.

(** [d[k] = v]: an existing item keeps its key and its place. *)
Fixpoint dict_set (k : K) (v : V) (d : dict K V) : dict K V :=
  match d with
  | [] => [(k, v)]
  | (k', v') :: rest =>
      if key_eqb k' k then (k', v) :: rest else (k', v') :: dict_set k v rest
  end.

Definition dict_keys (d : dict K V) : list K := map fst d.
Definition dict_values (d : dict K V) : list V := map snd d.

End Dict.

(** [d[k].append(x)] where a missing [d[k]] is first set to the empty
    list: what [defaultdict(list)] does, and what
    [if k not in d: d[k] = []] followed by [d[k].append(x)] does. *)
Definition dict_append {K A : Type} `{KeyEq K}
  (k : K) (x : A) (d : dict K (list A)) : dict K (list A) :=
  let d := if dict_mem k d then d else dict_set k [] d in
  match dict_get k d with
  | Some l => dict_set k (l ++ [x]) d
  | None => d
  end.

(** A Python [set] of strings, of which only membership is observed. *)
Definition str_in (x : string) (l : list string) : bool :=
  existsb (String.eqb x) l.

(** Key types whose [==] is plain equality. *)
Class KeyEqLaws (K : Type) `{KeyEq K} : Prop :=
  { key_eqb_eq : forall a b : K, key_eqb a b = true <-> a = b }.

#[export] Instance string_KeyEqLaws : KeyEqLaws string :=
  { key_eqb_eq := String.eqb_eq }.

(** Vocabulary for the statements about grouping loops. *)
Definition nonempty_opt {A : Type} (l : list A) : option (list A) :=
  match l with [] => None | _ => Some l end.

Definition merge_opt {A : Type} (o : option (list A)) (l : list A)
  : option (list A) :=
  match o with
  | Some l0 => Some (l0 ++ l)
  | None => nonempty_opt l
  end.

(** The loop [for x in xs: d[key(x)].append(x)], skipping the items
    without a key. *)
Definition group_by {K A : Type} `{KeyEq K}
  (keyf : A -> option K) (xs : list A) (d0 : dict K (list A))
  : dict K (list A) :=
  fold_left
    (fun d x => match keyf x with Some k => dict_append k x d | None => d end)
    xs d0.

Definition has_key {K A : Type} `{KeyEq K}
  (keyf : A -> option K) (k : K) (x : A) : bool :=
  match keyf x with Some k' => key_eqb k' k | None => false end.

Definition is_some {A : Type} (o : option A) : bool :=
  match o with Some _ => true | None => false end.

(* ================================================================== *)
(** * Paths ([os.sep], [posixpath]) and [group_files_by_directory] *)
(* ================================================================== *)

Definition os_sep : ascii := "/".

Definition is_nil {A : Type} (l : list A) : bool :=
  match l with [] => true | _ => false end.

(** [os.path.basename(p)]: [p[p.rfind('/') + 1:]]. *)
Definition basename (p : string) : string :=
  match rfind os_sep p with
  | Some i => drop (S i) p
  | None => p
  end.

Fixpoint all_dots (s : string) : bool :=
  match s with
  | EmptyString => true
  | String c t => (c =? ".")%char && all_dots t
  end.

(** [os.path.splitext(p)[0]]: the extension starts at the last dot of the
    last component, unless only dots precede it there. *)
Definition splitext_root (p : string) : string :=
  let name_start := match rfind os_sep p with Some i => S i | None => 0 end in
  match rfind "." p with
  | Some dotIndex =>
      if (name_start <=? dotIndex)%nat then
        if all_dots (take (dotIndex - name_start) (drop name_start p))
        then p else take dotIndex p
      else p
  | None => p
  end.

(** [os.path.normpath(path)] of [posixpath]. *)
Definition normpath (path : string) : string :=
  if path =? "" then "." else
  let initial_slashes :=
    if startswith path "/" then
      if startswith path "//" && negb (startswith path "///") then 2 else 1
    else 0 in
  let comps := split os_sep path in
  let new_comps :=
    fold_left (fun new_comps comp =>
      if (comp =? "") || (comp =? ".") then new_comps
      else if negb (comp =? "..")
              || ((initial_slashes =? 0)%nat && is_nil new_comps)
              || (negb (is_nil new_comps) && (last new_comps "" =? ".."))
           then new_comps ++ [comp]
           else removelast new_comps)
      comps [] in
  let path := join "/" new_comps in
  let path := (String.concat "" (repeat "/" initial_slashes) ++ path)%string in
  if path =? "" then "." else path.

(** The key of a file in [group_files_by_directory]: the first piece of
    [file_path.split(os.sep)] when there are several pieces, else
    ['root']. *)
Definition root_dir_of (file_path : string) : string :=
  let parts := split os_sep file_path in
  if (1 <? List.length parts)%nat then hd "" parts else "root".

Definition group_files_by_directory (files : list string)
  : dict string (list string) :=
  fold_left
    (fun grouped file_path => dict_append (root_dir_of file_path) file_path grouped)
    files [].

(* ================================================================== *)
(** * Decoded JSON and the grouping result *)
(* ================================================================== *)

(** What [json.loads] returns: [None], [bool], [int], [str], [list] and
    [dict] with string keys.  The members of an object are the items of the
    Python dictionary, in insertion order, with distinct keys.  Numbers with
    a fraction or an exponent (Python [float]) are outside the embedding. *)
#[warnings="-register-all"]
Inductive json : Type :=
| JNull
| JBool (b : bool)
| JInt (z : Z)
| JStr (s : string)
| JArr (items : list json)
| JObj (members : dict string json).

(** The pictograms of the source, by name. *)
Inductive emoji : Type :=
| Sparkles | Bug | Recycle | Gear | Memo | TestTube | Wrench | Package | Folder.

(** The value stored under a group name:
    [{"files", "description", "type", "emoji", "commit_messages"}]. *)
Record group : Type := mk_group {
  g_files : list string;
  g_description : json;
  g_type : json;
  g_emoji : emoji;
  g_commit_messages : json
}.

(* ================================================================== *)
(** * [_fallback_intelligent_grouping] *)
(* ================================================================== *)

Definition LF : ascii := "010".

(** [re.sub(r'^(a1|a2|...)', '', s, flags=re.IGNORECASE)] for lower-case
    alternatives. *)
Definition re_sub_prefix_ignorecase (alts : list string) (s : string) : string :=
  match List.find (fun a => startswith (lower s) a) alts with
  | Some a => drop (String.length a) s
  | None => s
  end.

(** [re.sub(r'(a1|a2|...)$', '', s)], with [re.IGNORECASE] when
    [ignorecase] is set (the alternatives are then lower-case).  [$] matches
    at the end of the string and also just before a line feed that ends it.
    No alternative is a proper suffix of another, so at most one of them
    matches and the order of the alternatives does not matter. *)
Definition re_sub_suffix (ignorecase : bool) (alts : list string) (s : string)
  : string :=
  let '(body, tail) :=
    if endswith s (String LF "")
    then (take (String.length s - 1) s, String LF "")
    else (s, "") in
  let subject := if ignorecase then lower body else body in
  match List.find (fun a => endswith subject a) alts with
  | Some a => (take (String.length body - String.length a) body ++ tail)%string
  | None => s
  end.

Definition role_prefixes : list string := ["test_"; "spec_"].

Definition role_suffixes : list string :=
  ["_test"; "_spec"; "_controller"; "_service"; "_model"; "_schema";
   "_migration"; "_api"; "_route"; "_handler"].

Definition role_suffixes_capitalized : list string :=
  ["Controller"; "Service"; "Model"; "Schema"; "Migration"; "Api"; "Route";
   "Handler"; "Test"; "Spec"].

(** [cleaned_name] of the source, for one file. *)
Definition entity_key (file_path : string) : string :=
  let base_name := splitext_root (basename file_path) in
  let cleaned_name := re_sub_prefix_ignorecase role_prefixes base_name in
  let cleaned_name := re_sub_suffix true role_suffixes cleaned_name in
  let cleaned_name := re_sub_suffix false role_suffixes_capitalized cleaned_name in
  lower cleaned_name.

(** [cleaned_name and len(cleaned_name) > 1] *)
Definition key_ok (cleaned_name : string) : bool :=
  negb (cleaned_name =? "") && (1 <? String.length cleaned_name)%nat.

Definition entity_patterns_of (files : list string) : dict string (list string) :=
  fold_left
    (fun entity_patterns file_path =>
       let cleaned_name := entity_key file_path in
       if key_ok cleaned_name
       then dict_append cleaned_name file_path entity_patterns
       else entity_patterns)
    files [].

Definition related_group (entity : string) (entity_files : list string) : group :=
  {| g_files := entity_files;
     g_description := JStr ("Changes related to " ++ entity);
     g_type := JStr "feature";
     g_emoji := Package;
     g_commit_messages := JArr [] |}.

Definition directory_group (dir_name : string) (dir_files : list string) : group :=
  {| g_files := dir_files;
     g_description := JStr ("Changes in " ++ dir_name ++ " directory");
     g_type := JStr "chore";
     g_emoji := Folder;
     g_commit_messages := JArr [] |}.

Definition all_changes_group (files : list string) : group :=
  {| g_files := files;
     g_description := JStr "All staged changes";
     g_type := JStr "chore";
     g_emoji := Package;
     g_commit_messages := JArr [] |}.

(** One turn of [for entity, entity_files in entity_patterns.items()]. *)
Definition related_step (acc : dict string group * list string)
  (item : string * list string) : dict string group * list string :=
  let '(groups, grouped_files) := acc in
  let '(entity, entity_files) := item in
  if (1 <? List.length entity_files)%nat then
    let group_name := (entity ++ "-related")%string in
    (dict_set group_name (related_group entity entity_files) groups,
     grouped_files ++ entity_files)
  else acc.

(** One turn of [for dir_name, dir_files in dir_groups.items()]. *)
Definition directory_step (groups : dict string group)
  (item : string * list string) : dict string group :=
  let '(dir_name, dir_files) := item in
  dict_set (dir_name ++ "-changes")%string (directory_group dir_name dir_files) groups.

Definition _fallback_intelligent_grouping (files : list string)
  : dict string group :=
  let entity_patterns := entity_patterns_of files in
  let '(groups, grouped_files) :=
    fold_left related_step entity_patterns ([], []) in
  let ungrouped := filter (fun f => negb (str_in f grouped_files)) files in
  let groups :=
    if is_nil ungrouped then groups
    else fold_left directory_step (group_files_by_directory ungrouped) groups in
  if is_nil groups then [("all-changes", all_changes_group files)] else groups.

(** Vocabulary for the statements: whether the entity key of [f] makes it
    part of a [-related] group of [files], and the name of the group that
    [f] belongs to. *)
Definition shares_entity (key : string -> string) (files : list string)
  (f : string) : bool :=
  key_ok (key f)
  && (1 <? List.length (filter (fun g => (key g =? key f)%string) files))%nat.

Definition group_name_of (files : list string) (f : string) : string :=
  if shares_entity entity_key files f
  then (entity_key f ++ "-related")%string
  else (root_dir_of f ++ "-changes")%string.

(** The loops of the source, read as list operations (shown equal to the
    source's loops below). *)
Definition entity_key_opt (f : string) : option string :=
  if key_ok (entity_key f) then Some (entity_key f) else None.

Definition big_item (item : string * list string) : bool :=
  (1 <? List.length (snd item))%nat.

Definition related_entry (item : string * list string) : string * group :=
  ((fst item ++ "-related")%string, related_group (fst item) (snd item)).

Definition directory_entry (item : string * list string) : string * group :=
  ((fst item ++ "-changes")%string, directory_group (fst item) (snd item)).

Definition related_groups_of (files : list string) : dict string group :=
  map related_entry (filter big_item (entity_patterns_of files)).

Definition claimed_of (files : list string) : list string :=
  concat (map snd (filter big_item (entity_patterns_of files))).

Definition ungrouped_of (files : list string) : list string :=
  filter (fun f => negb (str_in f (claimed_of files))) files.

Definition directory_groups_of (files : list string) : dict string group :=
  map directory_entry (group_files_by_directory (ungrouped_of files)).

(** The grouping rule of the design document, for a given entity key:
    an [-related] group for every key longer than one character that more
    than one file has, holding the files with that key; a [-changes] group
    for every first path segment of the remaining files, holding those of
    them with that segment; no other group when there are files; the single
    [all-changes] group when there are none. *)
Definition grouping_rule (key : string -> string) (files : list string)
  (result : dict string group) : Prop :=
  let rest := filter (fun f => negb (shares_entity key files f)) files in
  (forall k,
      1 < String.length k ->
      1 < List.length (filter (fun f => key f =? k) files) ->
      dict_get (k ++ "-related")%string result
      = Some (related_group k (filter (fun f => key f =? k) files))) /\
  (forall d,
      filter (fun f => root_dir_of f =? d) rest <> [] ->
      dict_get (d ++ "-changes")%string result
      = Some (directory_group d (filter (fun f => root_dir_of f =? d) rest))) /\
  (files <> [] ->
   forall n g, In (n, g) result ->
     (exists k, n = (k ++ "-related")%string /\ 1 < String.length k /\
                1 < List.length (filter (fun f => key f =? k) files)) \/
     (exists d, n = (d ++ "-changes")%string /\
                filter (fun f => root_dir_of f =? d) rest <> [])) /\
  (files = [] -> result = [("all-changes", all_changes_group files)]).

(** The entity key when only the prefixes [test_], [spec_] and the
    suffixes [_test] ... [_handler] are stripped, without the third
    substitution of the source. *)
Definition entity_key_without_capitalized (file_path : string) : string :=
  let base_name := splitext_root (basename file_path) in
  let cleaned_name := re_sub_prefix_ignorecase role_prefixes base_name in
  let cleaned_name := re_sub_suffix true role_suffixes cleaned_name in
  lower cleaned_name.

(** Two lookups that agree up to the order of the files. *)
Definition same_group (o o' : option group) : Prop :=
  match o, o' with
  | Some g, Some g' =>
      Permutation (g_files g) (g_files g') /\
      g_description g = g_description g' /\
      g_type g = g_type g' /\
      g_emoji g = g_emoji g' /\
      g_commit_messages g = g_commit_messages g'
  | None, None => True
  | _, _ => False
  end.

(* ================================================================== *)
(** * Exceptions *)
(* ================================================================== *)

Inductive exn : Type :=
| JSONDecodeError
| KeyError
| TypeError
| AttributeError.

(** A call returns, raises, or (only for the [while] loop, whose embedding
    counts its turns) is cut off. *)
Inductive outcome (A : Type) : Type :=
| Returned (a : A)
| Raised (e : exn)
| OutOfFuel.

Arguments Returned {A} a.
Arguments Raised {A} e.
Arguments OutOfFuel {A}.

Definition bind {A B : Type} (m : outcome A) (k : A -> outcome B) : outcome B :=
  match m with
  | Returned a => k a
  | Raised e => Raised e
  | OutOfFuel => OutOfFuel
  end.

Notation "x <- m ;; k" := (bind m (fun x => k))
  (at level 61, m at next level, right associativity).
Notation "' p <- m ;; k" := (bind m (fun x => match x with p => k end))
  (at level 61, p pattern, m at next level, right associativity).

(* ================================================================== *)
(** * Python values as the source uses them *)
(* ================================================================== *)

(** Hashable values: what can be a dictionary key. *)
Inductive pykey : Type :=
| KNone
| KBool (b : bool)
| KInt (z : Z)
| KStr (s : string).

(** [==] on keys: [True == 1] and [False == 0]. *)
Definition pykey_eqb (a b : pykey) : bool :=
  let num k :=
    match k with
    | KBool true => Some 1%Z
    | KBool false => Some 0%Z
    | KInt z => Some z
    | _ => None
    end in
  match a, b with
  | KNone, KNone => true
  | KStr s, KStr t => s =? t
  | _, _ =>
      match num a, num b with
      | Some x, Some y => (x =? y)%Z
      | _, _ => false
      end
  end.

#[export] Instance pykey_KeyEq : KeyEq pykey := { key_eqb := pykey_eqb }.

(** [hash(v)]: lists and dictionaries are unhashable. *)
Definition to_key (v : json) : outcome pykey :=
  match v with
  | JNull => Returned KNone
  | JBool b => Returned (KBool b)
  | JInt z => Returned (KInt z)
  | JStr s => Returned (KStr s)
  | JArr _ | JObj _ => Raised TypeError
  end.

Definition str_of_nat (n : nat) : string :=
  DecimalString.NilEmpty.string_of_uint (Nat.to_uint n).

Definition str_of_Z (z : Z) : string :=
  DecimalString.NilZero.string_of_int (Z.to_int z).

(** [str(k)], as an f-string formats it. *)
Definition py_str (k : pykey) : string :=
  match k with
  | KNone => "None"
  | KBool true => "True"
  | KBool false => "False"
  | KInt z => str_of_Z z
  | KStr s => s
  end.

(** [bool(v)] *)
Definition truthy (v : json) : bool :=
  match v with
  | JNull => false
  | JBool b => b
  | JInt z => negb (z =? 0)%Z
  | JStr s => negb (s =? "")
  | JArr items => negb (is_nil items)
  | JObj members => negb (is_nil members)
  end.

(** [v.get(key, default)]: only a dictionary has [get]. *)
Definition py_get (v : json) (key : string) (default : json) : outcome json :=
  match v with
  | JObj members =>
      Returned (match dict_get key members with Some x => x | None => default end)
  | _ => Raised AttributeError
  end.

(** [for x in v]: a list gives its items, a string its characters, a
    dictionary its keys; nothing else is iterable. *)
Definition py_iter (v : json) : outcome (list json) :=
  match v with
  | JArr items => Returned items
  | JStr s => Returned (map (fun c => JStr (String c "")) (list_ascii_of_string s))
  | JObj members => Returned (map (fun kv => JStr (fst kv)) members)
  | JNull | JBool _ | JInt _ => Raised TypeError
  end.

(* ================================================================== *)
(** * [parse_relation_groups] *)
(* ================================================================== *)

Fixpoint drop_while (p : ascii -> bool) (s : string) : string :=
  match s with
  | EmptyString => EmptyString
  | String c t => if p c then drop_while p t else s
  end.

(** [re.sub(r'^```[\w]*\n?', '', s)] *)
Definition re_sub_fence_open (s : string) : string :=
  if startswith s "```" then
    match drop_while isword (drop 3 s) with
    | String c t => if (c =? LF)%char then t else String c t
    | EmptyString => EmptyString
    end
  else s.

(** [re.sub(r'\n?```$', '', s)]; [$] as in [re_sub_suffix]. *)
Definition re_sub_fence_close (s : string) : string :=
  let '(body, tail) :=
    if endswith s (String LF "")
    then (take (String.length s - 1) s, String LF "")
    else (s, "") in
  if endswith body "```" then
    let b := take (String.length body - 3) body in
    let b := if endswith b (String LF "") then take (String.length b - 1) b else b in
    (b ++ tail)%string
  else s.

(** [re.search(r'\[[\s\S]*\]', s)]: from the first ["["] to the last
    ["]"] after it. *)
Definition re_search_array (s : string) : option string :=
  match find "[" s with
  | Some i =>
      let after := drop (S i) s in
      match rfind "]" after with
      | Some j => Some (String "[" (take (S j) after))
      | None => None
      end
  | None => None
  end.

Definition clean_response (ai_response : string) : string :=
  let cleaned := strip ai_response in
  let cleaned := re_sub_fence_open cleaned in
  let cleaned := re_sub_fence_close cleaned in
  let cleaned := strip cleaned in
  match re_search_array cleaned with
  | Some json_match => json_match
  | None => cleaned
  end.

(** [type_emoji.get(change_type, <package>)] *)
Definition type_emoji (change_type : pykey) : emoji :=
  match change_type with
  | KStr s =>
      if s =? "feature" then Sparkles
      else if s =? "bugfix" then Bug
      else if s =? "refactor" then Recycle
      else if s =? "config" then Gear
      else if s =? "docs" then Memo
      else if s =? "test" then TestTube
      else if s =? "chore" then Wrench
      else Package
  | _ => Package
  end.

(** What one [f] of [for f in files] adds to [valid_files].
    [os.path.normpath] of a value that is not a string raises
    [TypeError]. *)
Definition match_file (all_files : list string) (f : json) : outcome (list string) :=
  match f with
  | JStr f =>
      if str_in f all_files then Returned [f]
      else
        let normalized := normpath f in
        match List.find
                (fun actual_file =>
                   (normpath actual_file =? normalized)
                   || endswith actual_file f || endswith f actual_file)
                all_files with
        | Some actual_file => Returned [actual_file]
        | None => Returned []
        end
  | _ => Raised TypeError
  end.

Fixpoint validate_files (all_files : list string) (files : list json)
  (valid_files : list string) : outcome (list string) :=
  match files with
  | [] => Returned valid_files
  | f :: rest =>
      more <- match_file all_files f ;;
      validate_files all_files rest (valid_files ++ more)
  end.

(** [list(dict.fromkeys(valid_files))] *)
Definition dict_fromkeys (l : list string) : list string :=
  dict_keys (fold_left (fun d k => dict_set k tt d) l []).

(** [while group_name in result: group_name = f"{base_name}-{counter}";
    counter += 1], for at most [fuel] turns. *)
Fixpoint unique_group_name (fuel : nat) (result : dict pykey group)
  (base_name group_name : pykey) (counter : nat) : outcome pykey :=
  if dict_mem group_name result then
    match fuel with
    | O => OutOfFuel
    | S fuel' =>
        unique_group_name fuel' result base_name
          (KStr (py_str base_name ++ "-" ++ str_of_nat counter)) (S counter)
    end
  else Returned group_name.

(** The fields that one turn of [for group_data in groups_list] reads:
    [group_name], [files], [description], [change_type] and
    [commit_messages], the last one taken from the older key
    [commit_message] when it is missing or empty. *)
Record group_fields : Type := mk_fields {
  f_group_name : json;
  f_files : json;
  f_description : json;
  f_change_type : json;
  f_commit_messages : json
}.

Definition read_group (group_data : json) : outcome group_fields :=
  group_name <- py_get group_data "group" (JStr "unknown") ;;
  files <- py_get group_data "files" (JArr []) ;;
  description <- py_get group_data "description" (JStr "") ;;
  change_type <- py_get group_data "type" (JStr "chore") ;;
  commit_messages <- py_get group_data "commit_messages" (JArr []) ;;
  commit_messages <-
    (if negb (truthy commit_messages) then
       single_message <- py_get group_data "commit_message" (JStr "") ;;
       Returned (if truthy single_message then JArr [single_message]
                 else commit_messages)
     else Returned commit_messages) ;;
  Returned (mk_fields group_name files description change_type commit_messages).

(** One turn of [for group_data in groups_list]. *)
Definition parse_group (all_files : list string)
  (acc : dict pykey group * list string) (group_data : json)
  : outcome (dict pykey group * list string) :=
  let '(result, grouped_files) := acc in
  fields <- read_group group_data ;;
  files <- py_iter (f_files fields) ;;
  valid_files <- validate_files all_files files [] ;;
  let valid_files := dict_fromkeys valid_files in
  if is_nil valid_files then Returned acc
  else
    base_name <- to_key (f_group_name fields) ;;
    group_name <-
      unique_group_name (S (List.length result)) result base_name base_name 1 ;;
    change_key <- to_key (f_change_type fields) ;;
    Returned
      (dict_set group_name
         {| g_files := valid_files;
            g_description := f_description fields;
            g_type := f_change_type fields;
            g_emoji := type_emoji change_key;
            g_commit_messages := f_commit_messages fields |}
         result,
       grouped_files ++ valid_files).

Fixpoint parse_groups (all_files : list string) (groups_list : list json)
  (acc : dict pykey group * list string)
  : outcome (dict pykey group * list string) :=
  match groups_list with
  | [] => Returned acc
  | group_data :: rest =>
      acc <- parse_group all_files acc group_data ;;
      parse_groups all_files rest acc
  end.

Definition miscellaneous_name : string := "miscellaneous-changes".

Definition miscellaneous_group (ungrouped : list string) : group :=
  {| g_files := ungrouped;
     g_description := JStr "Other changes not directly related to main features";
     g_type := JStr "chore";
     g_emoji := Package;
     g_commit_messages := JArr [] |}.

(** The [try] block from [json.loads(cleaned)] on; [decoded] is what
    [json.loads] returned, or [None] when it raised [JSONDecodeError]. *)
Definition parse_decoded (decoded : option json) (all_files : list string)
  : outcome (dict pykey group) :=
  groups_list <- match decoded with
                 | Some v => Returned v
                 | None => Raised JSONDecodeError
                 end ;;
  groups_list <- py_iter groups_list ;;
  ' (result, grouped_files) <- parse_groups all_files groups_list ([], []) ;;
  let ungrouped := filter (fun f => negb (str_in f grouped_files)) all_files in
  Returned
    (if is_nil ungrouped then result
     else dict_set (KStr miscellaneous_name) (miscellaneous_group ungrouped) result).

(** The fallback's dictionary, with its string keys as Python values. *)
Definition as_pydict (d : dict string group) : dict pykey group :=
  map (fun item => (KStr (fst item), snd item)) d.

(** [json.loads] is the standard library's decoder, a parameter here.
    The [except] clause names [JSONDecodeError], [KeyError] and
    [TypeError]; any other exception leaves the function. *)
Definition parse_relation_groups (json_loads : string -> option json)
  (ai_response : string) (all_files : list string)
  : outcome (dict pykey group) :=
  match parse_decoded (json_loads (clean_response ai_response)) all_files with
  | Raised JSONDecodeError | Raised KeyError | Raised TypeError =>
      Returned (as_pydict (_fallback_intelligent_grouping all_files))
  | other => other
  end.

(** Vocabulary for the statements about the result. *)

(** The names are distinct, no group is empty, no file is in two groups,
    and the groups put end to end are a rearrangement of the input. *)
Definition exact_partition {K : Type} (files : list string)
  (result : dict K group) : Prop :=
  NoDup (dict_keys result) /\
  (forall n g, In (n, g) result -> g_files g <> []) /\
  (forall n1 g1 n2 g2 f,
      In (n1, g1) result -> In (n2, g2) result ->
      In f (g_files g1) -> In f (g_files g2) -> n1 = n2) /\
  Permutation (concat (map g_files (dict_values result))) files.

(** What [group_data.get(key, default)] returns for a dictionary. *)
Definition member_or (members : dict string json) (key : string) (default : json)
  : json :=
  match dict_get key members with Some x => x | None => default end.

Fixpoint last_char (s : string) : option ascii :=
  match s with
  | EmptyString => None
  | String c t => match last_char t with Some x => Some x | None => Some c end
  end.

(** The decoded response holds a group object named
    [miscellaneous-changes]. *)
Definition names_miscellaneous (decoded : option json) : Prop :=
  exists v items members,
    decoded = Some v /\ py_iter v = Returned items /\
    In (JObj members) items /\
    dict_get "group" members = Some (JStr miscellaneous_name).

(** The names that the [while] loop tries after [base_name] itself. *)
Definition numbered_name (base_name : pykey) (counter : nat) : pykey :=
  KStr (py_str base_name ++ "-" ++ str_of_nat counter).

(** A group object with a name and a list of files only. *)
Definition named_group (name : string) (files : list string) : json :=
  JObj [("group", JStr name); ("files", JArr (map JStr files))].

(** The names given to [k] accepted groups that all ask for the name
    [x]: [x], [x-1], [x-2], ... *)
Definition names_for (x : string) (k : nat) : list pykey :=
  match k with
  | O => []
  | S k' => KStr x :: map (numbered_name (KStr x)) (seq 1 k')
  end.

(** No two keys of the dictionary are [==]. *)
Definition keys_distinct {V : Type} (d : dict pykey V) : Prop :=
  ForallOrdPairs (fun a b => pykey_eqb a b = false) (dict_keys d).

(** The name that the [j+1]-th group asking for [x] gets. *)
Definition next_name (x : string) (j : nat) : pykey :=
  match j with
  | O => KStr x
  | S _ => numbered_name (KStr x) j
  end.

(** What the parsing loop keeps true: every group is non-empty and made
    of input files, and every file marked as grouped is in some group. *)
Definition groups_sound (all_files : list string) (result : dict pykey group)
  (grouped : list string) : Prop :=
  (forall n g, In (n, g) result -> g_files g <> [] /\ incl (g_files g) all_files) /\
  (forall f, In f grouped -> exists n g, In (n, g) result /\ In f (g_files g)).

(* ================================================================== *)
(** * [generate_relation_grouping_prompt] *)
(* ================================================================== *)

(** [c * n] for a one-character string. *)
Fixpoint replicate (n : nat) (c : ascii) : string :=
  match n with
  | O => EmptyString
  | S n' => String c (replicate n' c)
  end.

(** ["\n... [truncated]"] *)
Definition truncation_mark : string := String LF "... [truncated]".

(** [diff[:3000] + "\n... [truncated]" if len(diff) > 3000 else diff] *)
Definition truncate_diff (diff : string) : string :=
  if (3000 <? String.length diff)%nat
  then (take 3000 diff ++ truncation_mark)%string
  else diff.

(** The five lines that one turn of [for file_path, diff in diffs.items()]
    appends. *)
Definition diff_block (item : string * string) : list string :=
  let '(file_path, diff) := item in
  [("### FILE: " ++ file_path)%string; "```diff"; truncate_diff diff; "```"; ""].

(** [max(2, min(5, num_files // 3))] *)
Definition suggested_max_groups (num_files : nat) : nat :=
  Nat.max 2 (Nat.min 5 (num_files / 3)).

Section Prompt.

(** The fixed prose of the prompt: the lines before the list of files,
    which only depend on the number of files, and the output requirements,
    which depend on the number of files, on the suggested number of groups
    and on the configured commit style ([devcommit.utils.logger.config],
    read inside them). *)
Variable preamble : nat -> list string.
Variable output_requirements : nat -> nat -> list string.

Definition prompt_parts (files : list string) (diffs : dict string string)
  : list string :=
  let num_files := List.length files in
  preamble num_files
  ++ map (fun file_path => ("  - " ++ file_path)%string) files
  ++ [""; replicate 60 "="; "FILE DIFFS (analyze content for relationships):";
      replicate 60 "="; ""]
  ++ flat_map diff_block diffs
  ++ output_requirements num_files (suggested_max_groups num_files).

Definition generate_relation_grouping_prompt (files : list string)
  (diffs : dict string string) : string :=
  join (String LF "") (prompt_parts files diffs).

End Prompt.

(* ================================================================== *)
(** * Exclusions and diffs ([get_default_excludes], [get_staged_diff],
      [get_diff_for_files]) *)
(* ================================================================== *)

(** [needle in s] *)
Fixpoint contains (s needle : string) : bool :=
  prefix needle s ||
  match s with
  | EmptyString => false
  | String _ t => contains t needle
  end.

(** [c in s] for a character. *)
Fixpoint has_char (c : ascii) (s : string) : bool :=
  match s with
  | EmptyString => false
  | String a t => (a =? c)%char || has_char c t
  end.

(** [s.replace(old, '')]: the occurrences of [old] are removed from left
    to right; [skip] counts the characters of a found occurrence that are
    still to be passed over. *)
Fixpoint remove_from (skip : nat) (old s : string) : string :=
  match s with
  | EmptyString => EmptyString
  | String c t =>
      match skip with
      | S k => remove_from k old t
      | O =>
          if prefix old s then remove_from (String.length old - 1) old t
          else String c (remove_from 0 old t)
      end
  end.

Definition str_remove (s old : string) : string :=
  if old =? "" then s else remove_from 0 old s.

(** [exclude_from_diff(path)] *)
Definition exclude_from_diff (path : string) : string :=
  (":(exclude)" ++ path)%string.

(** [get_default_excludes()]; [exclude_config] is what
    [config("EXCLUDE_FILES", default="")] gave, [None] when the import or
    the lookup raised (the bare [except] swallows it). *)
Definition get_default_excludes (exclude_config : option string) : list string :=
  match exclude_config with
  | Some exclude_config =>
      if negb (exclude_config =? "") then
        map strip
            (filter (fun f => negb (strip f =? "")) (split "," exclude_config))
      else []
  | None => []
  end.

(** The test of the list comprehension in [get_diff_for_files]:
    [f.endswith(excl.replace('*', '')) or
     excl.replace(':(exclude)', '') in f]. *)
Definition is_excluded (f excl : string) : bool :=
  endswith f (str_remove excl "*") || contains f (str_remove excl ":(exclude)").

Definition filter_excluded (all_excluded files : list string) : list string :=
  filter (fun f => negb (existsb (is_excluded f) all_excluded)) files.

Section Git.

(** The module value [files_to_exclude] and the call of [git]:
    [run_git argv] is the standard output of [subprocess.run(['git'] + argv,
    check=True, ...)], [None] when it raised [CalledProcessError]. *)
Variable files_to_exclude : list string.
Variable run_git : list string -> option string.

Definition diff_cached : list string :=
  ["diff"; "--cached"; "--diff-algorithm=minimal"].

(** [get_diff_for_files(files, exclude_files)] *)
Definition get_diff_for_files (files exclude_files : list string) : string :=
  let all_excluded := files_to_exclude ++ exclude_files in
  let filtered_files := filter_excluded all_excluded files in
  if is_nil filtered_files then ""
  else
    match run_git (diff_cached ++ ["--"] ++ filtered_files) with
    | Some stdout => strip stdout
    | None => ""
    end.

(** The dictionary [{'files': ..., 'diff': ...}]. *)
Record staged : Type := mk_staged {
  staged_files : list string;
  staged_diff : string
}.

(** [get_staged_diff(exclude_files)] *)
Definition get_staged_diff (exclude_files : list string) : option staged :=
  let excluded_from_diff :=
    map exclude_from_diff (files_to_exclude ++ exclude_files) in
  match run_git (diff_cached ++ ["--name-only"] ++ excluded_from_diff) with
  | Some files_stdout =>
      let files_result :=
        if negb (strip files_stdout =? "") then split LF (strip files_stdout)
        else [] in
      if is_nil files_result then None
      else
        match run_git (diff_cached ++ excluded_from_diff) with
        | Some diff_stdout => Some (mk_staged files_result (strip diff_stdout))
        | None => None
        end
  | None => None
  end.

End Git.

(* ================================================================== *)
(** * Vocabulary for further statements about parsing *)
(* ================================================================== *)

(** The call returned or raised [TypeError] (which the [except] clause of
    [parse_relation_groups] catches). *)
Definition benign {A : Type} (o : outcome A) : Prop :=
  match o with
  | Returned _ | Raised TypeError => True
  | _ => False
  end.

(** The entry that an accepted group object [named_group x fs] makes. *)
Definition plain_entry (item : string * list string) : pykey * group :=
  (KStr (fst item),
   mk_group (snd item) (JStr "") (JStr "chore") Wrench (JArr [])).

Definition plain_group_object (item : string * list string) : json :=
  named_group (fst item) (snd item).

(** [len(v)] *)
Definition py_len (v : json) : outcome nat :=
  match v with
  | JStr s => Returned (String.length s)
  | JArr items => Returned (List.length items)
  | JObj members => Returned (List.length members)
  | JNull | JBool _ | JInt _ => Raised TypeError
  end.

(** The test of [process_per_related_commits] (devcommit/main.py) for "no
    group came with messages":
    [all(not group_data.get('commit_messages')
         or len(group_data.get('commit_messages', [])) == 0
         for group_data in related_groups.values())]. *)
Definition messages_missing (group_data : group) : outcome bool :=
  let commit_messages := g_commit_messages group_data in
  if negb (truthy commit_messages) then Returned true
  else n <- py_len commit_messages ;; Returned (n =? 0)%nat.

Fixpoint all_groups_empty (values : list group) : outcome bool :=
  match values with
  | [] => Returned true
  | group_data :: rest =>
      b <- messages_missing group_data ;;
      if b then all_groups_empty rest else Returned false
  end.

(* ================================================================== *)
(** * [analyze_changes], the commit strategy and the path groups
      (devcommit/main.py) *)
(* ================================================================== *)

(** What [generateCommitMessage(diff)] gives: the text of the messages, or
    a raised [KnownError]. *)
Inductive generated : Type :=
| Generated (commit_message : messages)
| GenerationError (e : string).


Section Analysis.

Variable files_to_exclude : list string.
Variable run_git : list string -> option string.

(** The standard output of [git diff --staged], which runs without
    [check=True]. *)
Variable staged_diff_stdout : string.
Variable generateCommitMessage : string -> generated.


(** [get_diff_for_files([file], flags["excludeFiles"])] *)
Definition own_diff (exclude_files : list string) (file : string) : string :=
  get_diff_for_files files_to_exclude run_git [file] exclude_files.

(** The loop of [process_per_related_commits] that fills [file_diffs]. *)
Definition gather_file_diffs (files exclude_files : list string)
  : dict string string :=
  fold_left
    (fun file_diffs file =>
       let diff := own_diff exclude_files file in
       if negb (diff =? "") then dict_set file diff file_diffs else file_diffs)
    files [].

End Analysis.

Section Strategy.

(** [prompt_commit_strategy(console, grouped, is_files_mode)]: the choice
    of the user. *)
Variable prompt_commit_strategy : dict string (list string) -> bool -> string.

(** The part of [main] under "Determine commit strategy".
    [directory_flag] is [flags.get("directory", False)], [commit_mode] is
    [config("COMMIT_MODE", default="auto")]. *)
Definition resolve_commit_strategy (directory_flag : bool) (commit_mode : string)
  (is_files_mode : bool) (staged_files : list string) : string :=
  let commit_strategy := if directory_flag then Some "directory" else None in
  let commit_strategy :=
    match commit_strategy with
    | Some s => Some s
    | None =>
        let commit_mode := lower commit_mode in
        if commit_mode =? "directory" then Some "directory"
        else if commit_mode =? "global" then Some "global"
        else if commit_mode =? "related" then Some "related"
        else None
    end in
  match commit_strategy with
  | Some s => s
  | None =>
      if is_files_mode then
        prompt_commit_strategy (group_files_by_directory staged_files) true
      else
        let grouped := group_files_by_directory staged_files in
        if (1 <? List.length grouped)%nat then prompt_commit_strategy grouped false
        else "global"
  end.

End Strategy.

(** [os.path.join(a, b)] of [posixpath]. *)
Definition path_join (a b : string) : string :=
  if startswith b "/" then b
  else if (a =? "") || endswith a "/" then (a ++ b)%string
  else (a ++ "/" ++ b)%string.

(** [os.path.join(repo_root, normalized_path) if not os.path.isabs(path)
    else path] *)
Definition full_path_of (repo_root path : string) : string :=
  if negb (startswith path "/") then path_join repo_root (normpath path)
  else path.

(** The function of [main] that a strategy runs. *)
Inductive processor : Type :=
| ProcessPerRelatedCommits
| ProcessPerDirectoryCommitsFromPaths
| ProcessPerFileCommits
| ProcessPerDirectoryCommits
| ProcessGlobalCommit.

Section Paths.

(** [os.path.isdir] and the result of [assert_git_repo()]. *)
Variable isdir : string -> bool.
Variable repo_root : string.

Definition has_directories (original_paths : list string) : bool :=
  existsb (fun path => isdir (full_path_of repo_root path)) original_paths.

Definition choose_processor (commit_strategy : string) (is_files_mode : bool)
  (original_paths : list string) : processor :=
  if commit_strategy =? "related" then ProcessPerRelatedCommits
  else if commit_strategy =? "directory" then
    if is_files_mode then
      if has_directories original_paths then ProcessPerDirectoryCommitsFromPaths
      else ProcessPerFileCommits
    else ProcessPerDirectoryCommits
  else ProcessGlobalCommit.

(** [f.startswith(normalized_path + os.sep) or f == normalized_path] *)
Definition under_path (normalized_path f : string) : bool :=
  startswith f (normalized_path ++ String os_sep "") || (f =? normalized_path).

(** The loop of [process_per_directory_commits_from_paths] that fills
    [path_to_files]. *)
Definition path_to_files_of (staged_files original_paths : list string)
  : dict string (list string) :=
  fold_left
    (fun path_to_files path =>
       let normalized_path := normpath path in
       let full_path := full_path_of repo_root path in
       if isdir full_path then
         let dir_files := filter (under_path normalized_path) staged_files in
         if is_nil dir_files then path_to_files
         else dict_set normalized_path dir_files path_to_files
       else if str_in normalized_path staged_files then
         dict_set normalized_path [normalized_path] path_to_files
       else path_to_files)
    original_paths [].

End Paths.

(** What the loop keeps true of every group. *)
Definition path_group (staged_files original_paths : list string)
  (item : string * list string) : Prop :=
  snd item <> [] /\
  (exists path, In path original_paths /\ fst item = normpath path) /\
  (snd item = filter (under_path (fst item)) staged_files \/
   (snd item = [fst item] /\ In (fst item) staged_files)).

Section PathsWithChanges.

Variable files_to_exclude : list string.
Variable run_git : list string -> option string.

(** The loop of [process_per_directory_commits_from_paths] that keeps the
    paths with a diff. *)
Definition paths_with_changes_of (exclude_files : list string)
  (path_to_files : dict string (list string)) : dict string (list string) :=
  fold_left
    (fun paths_with_changes item =>
       let diff :=
         get_diff_for_files files_to_exclude run_git (snd item) exclude_files in
       if negb (diff =? "") then dict_set (fst item) (snd item) paths_with_changes
       else paths_with_changes)
    path_to_files [].

End PathsWithChanges.

(* ================================================================== *)
(** * The commit loop of [process_per_directory_commits_from_paths]
      (devcommit/main.py) *)
(* ================================================================== *)

(** What a run has done so far: the [git commit] commands it has issued,
    oldest first (each the arguments after [git]), and the number of calls
    of [generateCommitMessage]. *)
Record world : Type := mk_world {
  commits : list (list string);
  generations : nat
}.

(** The user is the list of the values that the prompts return, in order:
    one for each [inquirer.fuzzy(...).execute()] and
    [inquirer.text(...).execute()], [None] being Python's [None].  A run
    with the answers it is given ends ([Done], with the answers it did not
    use), stands at a prompt with no answer left ([Waiting]), or is left
    by a [KnownError] ([Aborted]).  [Unfinished] marks the bound on the
    turns of [while True]. *)
Inductive run (A : Type) : Type :=
| Done (a : A) (w : world) (answers : list (option string))
| Waiting (w : world)
| Aborted (e : string) (w : world)
| Unfinished.

Arguments Done {A} a w answers.
Arguments Waiting {A} w.
Arguments Aborted {A} e w.
Arguments Unfinished {A}.

(** [prompt_custom_message(console)], [None] at the top when no answer is
    left. *)
Definition prompt_custom_message (answers : list (option string))
  : option (option string * list (option string)) :=
  match answers with
  | [] => None
  | custom_message :: answers =>
      Some (match custom_message with
            | Some text => if text =? "" then None else Some text
            | None => None
            end,
            answers)
  end.

(** [prompt_commit_message(console, commit_message, regenerate_callback)];
    the messages and the callback only make the choices that are shown. *)
Definition prompt_commit_message (answers : list (option string))
  : option (option string * list (option string)) :=
  match answers with
  | [] => None
  | action :: answers =>
      match action with
      | Some a =>
          if a =? "cancel" then Some (None, answers)
          else if a =? "custom" then prompt_custom_message answers
          else if a =? "regenerate" then Some (Some "regenerate", answers)
          else Some (action, answers)
      | None => Some (action, answers)
      end
  end.

Section CommitLoop.

(** [run_git issued argv]: what [git argv] prints once the commands
    [issued] have run; the [n]-th call of [generateCommitMessage];
    [flags["excludeFiles"]] and [flags["rawArgv"]]. *)
Variable files_to_exclude : list string.
Variable run_git : list (list string) -> list string -> option string.
Variable generateCommitMessage : nat -> string -> generated.
Variable exclude_files : list string.
Variable raw_argv : list string.

(** The closure [regenerate()]: the messages, or the [KnownError] of the
    generator. *)
Definition regenerate (files : list string) (w : world)
  : (list string + string) * world :=
  let diff :=
    get_diff_for_files files_to_exclude (run_git (commits w)) files exclude_files in
  if diff =? "" then (inl [], w)
  else
    let w' := mk_world (commits w) (S (generations w)) in
    match generateCommitMessage (generations w) diff with
    | Generated msg => (inl (sanitize_commit_messages msg), w')
    | GenerationError e => (inr e, w')
    end.

(** [["git", "commit", "-m", selected_commit, *flags["rawArgv"], "--"]
     + files] *)
Definition commit_command (selected_commit : string) (files : list string)
  : list string :=
  ["commit"; "-m"; selected_commit] ++ raw_argv ++ ["--"] ++ files.

(** [subprocess.run] of the command, whose exit status is not looked at. *)
Definition git_commit (selected_commit : string) (files : list string) (w : world)
  : world :=
  mk_world (commits w ++ [commit_command selected_commit files]) (generations w).

(** The [while True] loop of one path, for at most [fuel] turns; the
    result tells whether a commit was made. *)
Fixpoint select_commit (fuel : nat) (files commit_message : list string)
  (w : world) (answers : list (option string)) : run bool :=
  match fuel with
  | O => Unfinished
  | S fuel' =>
      match prompt_commit_message answers with
      | None => Waiting w
      | Some (selected_commit, answers) =>
          if match selected_commit with
             | Some s => s =? "regenerate"
             | None => false
             end
          then
            match regenerate files w with
            | (inl commit_message, w) =>
                if is_nil commit_message then Done false w answers   (* break *)
                else select_commit fuel' files commit_message w answers
            | (inr e, w) => Aborted e w
            end
          else
            match selected_commit with
            | Some s =>
                if negb (s =? "")
                then Done true (git_commit s files w) answers
                else Done false w answers
            | None => Done false w answers
            end
      end
  end.

(** One turn of [for idx, (path, files) in enumerate(...)].  Every turn
    of [while True] takes an answer, so more turns than there are answers
    cannot be. *)
Definition process_path (files : list string) (w : world)
  (answers : list (option string)) : run bool :=
  let diff :=
    get_diff_for_files files_to_exclude (run_git (commits w)) files exclude_files in
  if diff =? "" then Done false w answers                          (* continue *)
  else
    let w' := mk_world (commits w) (S (generations w)) in
    match generateCommitMessage (generations w) diff with
    | GenerationError e => Aborted e w'
    | Generated commit_message =>
        let commit_message := sanitize_commit_messages commit_message in
        if is_nil commit_message then Done false w' answers        (* continue *)
        else select_commit (S (List.length answers)) files commit_message w' answers
    end.

Fixpoint process_paths (paths_with_changes : dict string (list string))
  (commits_made : bool) (w : world) (answers : list (option string)) : run bool :=
  match paths_with_changes with
  | [] => Done commits_made w answers
  | (path, files) :: rest =>
      match process_path files w answers with
      | Done committed w answers =>
          process_paths rest (commits_made || committed) w answers
      | Waiting w => Waiting w
      | Aborted e w => Aborted e w
      | Unfinished => Unfinished
      end
  end.

(** [process_per_directory_commits_from_paths(console, staged, flags,
    original_paths)]; [repo_root] is what [assert_git_repo()] returned. *)
Definition process_per_directory_commits_from_paths (isdir : string -> bool)
  (repo_root : string) (staged_files original_paths : list string)
  (w : world) (answers : list (option string)) : run bool :=
  let path_to_files := path_to_files_of isdir repo_root staged_files original_paths in
  if is_nil path_to_files then Done false w answers
  else
    let paths_with_changes :=
      paths_with_changes_of files_to_exclude (run_git (commits w)) exclude_files
        path_to_files in
    if is_nil paths_with_changes then Done false w answers
    else process_paths paths_with_changes false w answers.

(** The commands [new] are commits of groups of [items], each with a
    message that is neither empty nor ["regenerate"], at most one for a
    group and in the order of the groups. *)
Fixpoint commits_in_order (items : dict string (list string))
  (new : list (list string)) : Prop :=
  match new with
  | [] => True
  | command :: new' =>
      exists before path files after selected_commit,
        items = before ++ (path, files) :: after /\
        command = commit_command selected_commit files /\
        selected_commit <> "" /\ selected_commit <> "regenerate" /\
        commits_in_order after new'
  end.

(** What one path adds to the commands. *)
Definition path_outcome (files : list string) (w : world)
  (answers : list (option string)) (r : run bool) : Prop :=
  match r with
  | Done committed w' rest =>
      (exists used, answers = used ++ rest) /\
      if committed then
        exists selected_commit,
          selected_commit <> "" /\ selected_commit <> "regenerate" /\
          commits w' = commits w ++ [commit_command selected_commit files]
      else commits w' = commits w
  | Waiting w' | Aborted _ w' => commits w' = commits w
  | Unfinished => False
  end.

(** What the loop over the paths adds to the commands. *)
Definition paths_outcome (items : dict string (list string)) (commits_made : bool)
  (w : world) (answers : list (option string)) (r : run bool) : Prop :=
  match r with
  | Done made w' rest =>
      exists new,
        commits w' = commits w ++ new /\
        commits_in_order items new /\
        made = commits_made || negb (is_nil new) /\
        exists used, answers = used ++ rest
  | Waiting w' | Aborted _ w' =>
      exists new,
        commits w' = commits w ++ new /\ commits_in_order items new
  | Unfinished => False
  end.

End CommitLoop.

(* ================================================================== *)
(** * [parse_relation_groups] with every exception of the decoder *)
(* ================================================================== *)

(** What [json.loads(cleaned)] does: it returns a value; or it raises an
    exception that the [except] clause of [parse_relation_groups] names
    ([JSONDecodeError], also [KeyError], [TypeError] and their
    subclasses); or it raises any other exception, given here by the name
    of its class.  The decoder of the standard library raises
    [RecursionError] on deeply nested text and [ValueError] on an integer
    of too many digits, and the clause names neither. *)
Inductive decoding : Type :=
| Decoded (v : json)
| DecodeCaught
| DecodeUncaught (name : string).

(** How a call ends: as an [outcome] tells, or with the exception of the
    decoder that the clause does not name. *)
Inductive parse_end : Type :=
| Ended (o : outcome (dict pykey group))
| DecoderRaised (name : string).

Definition parse_relation_groups_with_decoder (json_loads : string -> decoding)
  (ai_response : string) (all_files : list string) : parse_end :=
  match json_loads (clean_response ai_response) with
  | Decoded v =>
      Ended
        match parse_decoded (Some v) all_files with
        | Raised JSONDecodeError | Raised KeyError | Raised TypeError =>
            Returned (as_pydict (_fallback_intelligent_grouping all_files))
        | other => other
        end
  | DecodeCaught =>
      Ended (Returned (as_pydict (_fallback_intelligent_grouping all_files)))
  | DecodeUncaught name => DecoderRaised name
  end.

(** A decoder that raises nothing but what the clause names. *)
Definition caught_only (json_loads : string -> option json) (s : string)
  : decoding :=
  match json_loads s with
  | Some v => Decoded v
  | None => DecodeCaught
  end.

(* ================================================================== *)
(** * Facts about trimming and splitting *)
(* ================================================================== *)

Section StripFacts.

Lemma lstrip_shape (s : string) :
  lstrip s = "" \/ exists c t, lstrip s = String c t /\ isspace c = false.
Proof.
  induction s as [|c t IH]; simpl; [now left|].
  destruct (isspace c) eqn:E; [exact IH|].
  right. now exists c, t.
Qed.

Lemma rstrip_keeps_head (c : ascii) (t : string) :
  isspace c = false -> exists r, rstrip (String c t) = String c r.
Proof.
  intros E. simpl. destruct (rstrip t) as [|a r].
  - rewrite E. now exists "".
  - now exists (String a r).
Qed.

Lemma rstrip_idempotent (s : string) : rstrip (rstrip s) = rstrip s.
Proof.
  induction s as [|c t IH]; simpl; [reflexivity|].
  destruct (rstrip t) as [|a r] eqn:E.
  - destruct (isspace c) eqn:Ec; simpl; [reflexivity|]. now rewrite Ec.
  - simpl in *. now rewrite IH.
Qed.

Lemma lstrip_fixed (c : ascii) (t : string) :
  isspace c = false -> lstrip (String c t) = String c t.
Proof. intros E. simpl. now rewrite E. Qed.

Lemma strip_idempotent (s : string) : strip (strip s) = strip s.
Proof.
  unfold strip. destruct (lstrip_shape s) as [E | (c & t & E & Ec)].
  - rewrite E. reflexivity.
  - rewrite E. destruct (rstrip_keeps_head c t Ec) as [r Er].
    rewrite Er, (lstrip_fixed c r Ec), <- Er. apply rstrip_idempotent.
Qed.

Lemma lstrip_all_space (s : string) : all_space s = true -> lstrip s = "".
Proof.
  induction s as [|c t IH]; simpl; [reflexivity|].
  intros H. apply andb_prop in H as [Hc Ht]. rewrite Hc. auto.
Qed.

Lemma rstrip_empty_all_space (s : string) : rstrip s = "" -> all_space s = true.
Proof.
  induction s as [|c t IH]; simpl; [reflexivity|].
  destruct (rstrip t) eqn:E; [|discriminate].
  destruct (isspace c); [intros _; auto | discriminate].
Qed.

Lemma strip_empty_iff (s : string) : strip s = "" <-> all_space s = true.
Proof.
  split.
  - unfold strip. intros H. apply rstrip_empty_all_space in H.
    induction s as [|c t IH]; simpl in *; [reflexivity|].
    destruct (isspace c) eqn:Ec; simpl in *; [auto|].
    rewrite Ec in H. discriminate.
  - intros H. unfold strip. now rewrite (lstrip_all_space _ H).
Qed.

Lemma split_all_space (sep : ascii) (s : string) :
  all_space s = true -> Forall (fun p => all_space p = true) (split sep s).
Proof.
  induction s as [|c t IH]; simpl; intros H.
  - constructor; [reflexivity|constructor].
  - apply andb_prop in H as [Hc Ht]. specialize (IH Ht).
    destruct (c =? sep)%char.
    + constructor; [reflexivity|exact IH].
    + destruct (split sep t) as [|p rest].
      * constructor; [simpl; now rewrite Hc|constructor].
      * inversion IH; subst. constructor; [simpl; now rewrite Hc|assumption].
Qed.

End StripFacts.

(* ================================================================== *)
(** * The candidate filter *)
(* ================================================================== *)

Section Sanitize.

Lemma sanitize_step_spec (acc : list string) (msg : string) :
  sanitize_step acc msg = acc ++ candidate_filter [msg].
Proof.
  unfold sanitize_step, candidate_filter, keep_candidate. simpl.
  destruct (msg =? "") eqn:E.
  - apply String.eqb_eq in E. subst. simpl. now rewrite List.app_nil_r.
  - rewrite strip_idempotent.
    destruct (startswith (strip msg) error_prefix); simpl.
    + rewrite andb_false_r. now rewrite List.app_nil_r.
    + rewrite andb_true_r, andb_diag.
      destruct (strip msg =? ""); simpl; [now rewrite List.app_nil_r|reflexivity].
Qed.

Lemma candidate_filter_app (l1 l2 : list string) :
  candidate_filter (l1 ++ l2) = candidate_filter l1 ++ candidate_filter l2.
Proof. unfold candidate_filter. now rewrite map_app, filter_app. Qed.

Lemma sanitize_loop_spec (msgs acc : list string) :
  fold_left sanitize_step msgs acc = acc ++ candidate_filter msgs.
Proof.
  revert acc. induction msgs as [|m ms IH]; intros acc; simpl.
  - now rewrite List.app_nil_r.
  - rewrite IH, sanitize_step_spec, <- app_assoc.
    f_equal. now rewrite <- candidate_filter_app.
Qed.

Lemma candidate_filter_blank (l : list string) :
  Forall (fun p => all_space p = true) l -> candidate_filter l = [].
Proof.
  induction 1 as [|p l Hp _ IH]; [reflexivity|].
  unfold candidate_filter in *. simpl.
  apply strip_empty_iff in Hp. rewrite Hp. simpl. exact IH.
Qed.

Lemma candidate_filter_fixed (l : list string) :
  candidate_filter (candidate_filter l) = candidate_filter l.
Proof.
  induction l as [|m ms IH]; [reflexivity|].
  change (m :: ms) with ([m] ++ ms).
  rewrite !candidate_filter_app, IH. f_equal.
  unfold candidate_filter. simpl.
  destruct (keep_candidate (strip m)) eqn:K; simpl; [|reflexivity].
  now rewrite strip_idempotent, K.
Qed.

Lemma sanitize_as_filter (m : messages) :
  sanitize_commit_messages m = candidate_filter (candidates_of m).
Proof.
  destruct m as [s | l]; unfold sanitize_commit_messages; simpl.
  - destruct ((s =? "") || (strip s =? "")) eqn:E.
    + symmetry. apply candidate_filter_blank, split_all_space.
      apply strip_empty_iff. apply orb_prop in E as [E | E].
      * apply String.eqb_eq in E. now subst.
      * now apply String.eqb_eq in E.
    + apply sanitize_loop_spec.
  - apply sanitize_loop_spec.
Qed.

(** C3.  [sanitize_commit_messages] returns, for a string as for a list of
    strings, the candidates (the pieces between ["|"] for a string) trimmed,
    without the empty ones and without those that begin with
    ["Error generating commit message:"]; the design document's example
    yields [["feat: x"; "fix: y"]]. *)
Theorem sanitize_commit_messages_spec :
  (forall m : messages,
      sanitize_commit_messages m = candidate_filter (candidates_of m)) /\
  sanitize_commit_messages
    (MsgStr "feat: x|Error generating commit message: timeout|fix: y")
  = ["feat: x"; "fix: y"].
Proof.
  split; [exact sanitize_as_filter | reflexivity].
Qed.

(** C6.  Filtering the result of [sanitize_commit_messages] once more
    changes nothing, for a list of strings and for a string alike. *)
Theorem sanitize_commit_messages_idempotent :
  (forall ms : list string,
      sanitize_commit_messages (MsgList (sanitize_commit_messages (MsgList ms)))
      = sanitize_commit_messages (MsgList ms)) /\
  (forall s : string,
      sanitize_commit_messages (MsgList (sanitize_commit_messages (MsgStr s)))
      = sanitize_commit_messages (MsgStr s)).
Proof.
  split; intros; rewrite !sanitize_as_filter; simpl;
    apply candidate_filter_fixed.
Qed.

End Sanitize.

(* ================================================================== *)
(** * Facts about dictionaries *)
(* ================================================================== *)

Section DictFacts.
Context {K V : Type} `{KeyEqLaws K}.

Lemma key_eqb_refl (k : K) : key_eqb k k = true.
Proof. now apply key_eqb_eq. Qed.

Lemma key_eqb_neq (a b : K) : a <> b -> key_eqb a b = false.
Proof.
  intros N. destruct (key_eqb a b) eqn:E; [|reflexivity].
  apply key_eqb_eq in E. contradiction.
Qed.

Lemma dict_get_set_same (k : K) (v : V) (d : dict K V) :
  dict_get k (dict_set k v d) = Some v.
Proof.
  induction d as [|[k' v'] d IH]; simpl.
  - now rewrite key_eqb_refl.
  - destruct (key_eqb k' k) eqn:E; simpl; now rewrite E.
Qed.

Lemma dict_get_set_other (k k' : K) (v : V) (d : dict K V) :
  k' <> k -> dict_get k' (dict_set k v d) = dict_get k' d.
Proof.
  intros N. induction d as [|[k0 v0] d IH]; simpl.
  - rewrite key_eqb_neq; auto.
  - destruct (key_eqb k0 k) eqn:E; simpl.
    + apply key_eqb_eq in E. subst k0. rewrite key_eqb_neq; auto.
    + destruct (key_eqb k0 k'); auto.
Qed.

Lemma dict_mem_In (k : K) (d : dict K V) :
  dict_mem k d = true <-> In k (dict_keys d).
Proof.
  unfold dict_mem. induction d as [|[k0 v0] d IH]; simpl.
  - split; [discriminate|tauto].
  - destruct (key_eqb k0 k) eqn:E.
    + apply key_eqb_eq in E. subst. split; auto.
    + rewrite IH. split; [auto|]. intros [E' | ?]; [|assumption].
      subst. rewrite key_eqb_refl in E. discriminate.
Qed.

Lemma dict_mem_false (k : K) (d : dict K V) :
  dict_mem k d = false <-> ~ In k (dict_keys d).
Proof.
  rewrite <- dict_mem_In. destruct (dict_mem k d); split; easy.
Qed.

Lemma dict_set_fresh (k : K) (v : V) (d : dict K V) :
  dict_mem k d = false -> dict_set k v d = d ++ [(k, v)].
Proof.
  unfold dict_mem. induction d as [|[k0 v0] d IH]; simpl; [reflexivity|].
  destruct (key_eqb k0 k); [discriminate|]. intros M. now rewrite IH.
Qed.

Lemma dict_keys_set (k : K) (v : V) (d : dict K V) :
  dict_keys (dict_set k v d)
  = if dict_mem k d then dict_keys d else dict_keys d ++ [k].
Proof.
  unfold dict_mem. induction d as [|[k0 v0] d IH]; simpl; [reflexivity|].
  destruct (key_eqb k0 k) eqn:E; simpl; [reflexivity|].
  rewrite IH. now destruct (dict_get k d).
Qed.

Lemma NoDup_snoc {A : Type} (l : list A) (x : A) :
  NoDup l -> ~ In x l -> NoDup (l ++ [x]).
Proof.
  intros ND NI. apply NoDup_app; [assumption|repeat constructor; auto|].
  simpl. intros y Hy [E | []]. subst. auto.
Qed.

Lemma dict_set_NoDup (k : K) (v : V) (d : dict K V) :
  NoDup (dict_keys d) -> NoDup (dict_keys (dict_set k v d)).
Proof.
  intros ND. rewrite dict_keys_set. destruct (dict_mem k d) eqn:M; [assumption|].
  apply NoDup_snoc; [assumption|]. now apply dict_mem_false.
Qed.

Lemma dict_get_In (k : K) (v : V) (d : dict K V) :
  NoDup (dict_keys d) -> (In (k, v) d <-> dict_get k d = Some v).
Proof.
  induction d as [|[k0 v0] d IH]; simpl; intros ND.
  - split; [tauto|discriminate].
  - inversion ND as [|? ? NI ND']; subst.
    destruct (key_eqb k0 k) eqn:E.
    + apply key_eqb_eq in E. subst k0. split.
      * intros [E | I]; [congruence|].
        exfalso. apply NI. change k with (fst (k, v)). now apply in_map.
      * intros E. left. congruence.
    + rewrite <- (IH ND'). split; [|auto]. intros [E' | I]; [|assumption].
      inversion E'; subst. rewrite key_eqb_refl in E. discriminate.
Qed.

Lemma dict_get_Some_In (k : K) (v : V) (d : dict K V) :
  dict_get k d = Some v -> In (k, v) d.
Proof.
  induction d as [|[k0 v0] d IH]; simpl; [discriminate|].
  destruct (key_eqb k0 k) eqn:E; [|auto].
  apply key_eqb_eq in E. subst. intros E. left. congruence.
Qed.

End DictFacts.

Section DictAppend.
Context {K A : Type} `{KeyEqLaws K}.

Lemma dict_get_append_same (k : K) (x : A) (d : dict K (list A)) :
  dict_get k (dict_append k x d)
  = Some (match dict_get k d with Some l => l ++ [x] | None => [x] end).
Proof.
  unfold dict_append, dict_mem. destruct (dict_get k d) as [l|] eqn:G.
  - rewrite G. apply dict_get_set_same.
  - rewrite dict_get_set_same. apply dict_get_set_same.
Qed.

Lemma dict_get_append_other (k k' : K) (x : A) (d : dict K (list A)) :
  k' <> k -> dict_get k' (dict_append k x d) = dict_get k' d.
Proof.
  intros N. unfold dict_append, dict_mem. destruct (dict_get k d) as [l|] eqn:G.
  - rewrite G. now apply dict_get_set_other.
  - rewrite dict_get_set_same. now rewrite !dict_get_set_other.
Qed.

Lemma dict_append_NoDup (k : K) (x : A) (d : dict K (list A)) :
  NoDup (dict_keys d) -> NoDup (dict_keys (dict_append k x d)).
Proof.
  intros ND. unfold dict_append.
  destruct (dict_get k (if dict_mem k d then d else dict_set k [] d));
    destruct (dict_mem k d); auto using dict_set_NoDup.
Qed.

Lemma filter_snoc (p : A -> bool) (l : list A) (x : A) :
  filter p (l ++ [x]) = filter p l ++ (if p x then [x] else []).
Proof. rewrite filter_app. reflexivity. Qed.

Lemma group_by_get (keyf : A -> option K) (xs : list A) :
  forall (d0 : dict K (list A)) (k : K),
    dict_get k (group_by keyf xs d0)
    = merge_opt (dict_get k d0) (filter (has_key keyf k) xs).
Proof.
  unfold group_by. induction xs as [|x xs IH]; intros d0 k; simpl.
  - unfold merge_opt. destruct (dict_get k d0); simpl; [|reflexivity].
    now rewrite List.app_nil_r.
  - rewrite IH. unfold has_key at 2. destruct (keyf x) as [kx|]; [|reflexivity].
    destruct (key_eqb kx k) eqn:E.
    + apply key_eqb_eq in E. subst kx. rewrite dict_get_append_same.
      unfold merge_opt. destruct (dict_get k d0); simpl.
      * now rewrite <- app_assoc.
      * reflexivity.
    + rewrite dict_get_append_other; [reflexivity|].
      intros ->. rewrite key_eqb_refl in E. discriminate.
Qed.

Lemma group_by_NoDup (keyf : A -> option K) (xs : list A) :
  forall d0 : dict K (list A),
    NoDup (dict_keys d0) -> NoDup (dict_keys (group_by keyf xs d0)).
Proof.
  unfold group_by. induction xs as [|x xs IH]; intros d0 ND; simpl; [assumption|].
  apply IH. destruct (keyf x); auto using dict_append_NoDup.
Qed.

Lemma group_by_lookup (keyf : A -> option K) (xs : list A) (k : K) :
  dict_get k (group_by keyf xs []) = nonempty_opt (filter (has_key keyf k) xs).
Proof. now rewrite group_by_get. Qed.

Lemma group_by_keys_NoDup (keyf : A -> option K) (xs : list A) :
  NoDup (dict_keys (group_by keyf xs [])).
Proof. apply group_by_NoDup. constructor. Qed.

Lemma group_by_entry (keyf : A -> option K) (xs : list A) (k : K) (l : list A) :
  In (k, l) (group_by keyf xs []) ->
  l = filter (has_key keyf k) xs /\ l <> [].
Proof.
  intros I. apply dict_get_In in I; [|apply group_by_keys_NoDup].
  rewrite group_by_lookup in I.
  destruct (filter (has_key keyf k) xs); simpl in I; [discriminate|].
  inversion I. split; [reflexivity|discriminate].
Qed.

Lemma group_by_covers (keyf : A -> option K) (xs : list A) (x : A) (k : K) :
  In x xs -> keyf x = Some k ->
  In (k, filter (has_key keyf k) xs) (group_by keyf xs []).
Proof.
  intros I E. apply dict_get_Some_In. rewrite group_by_lookup.
  assert (In x (filter (has_key keyf k) xs)) as I'.
  { apply filter_In. split; [assumption|]. unfold has_key. rewrite E.
    apply key_eqb_refl. }
  destruct (filter (has_key keyf k) xs); [contradiction|reflexivity].
Qed.

End DictAppend.

(* ================================================================== *)
(** * Grouping loops produce partitions *)
(* ================================================================== *)

Section ClassPartition.
Context {K A : Type} `{KeyEqLaws K}.

Lemma filter_none (l : list A) : filter (fun _ => false) l = [].
Proof. induction l; auto. Qed.

Lemma filter_disjoint_perm (p q : A -> bool) (l : list A) :
  (forall x, p x = true -> q x = true -> False) ->
  Permutation (filter p l ++ filter q l) (filter (fun x => p x || q x) l).
Proof.
  intros D. induction l as [|x l IH]; simpl; [constructor|].
  destruct (p x) eqn:P, (q x) eqn:Q; simpl.
  - destruct (D x P Q).
  - now constructor.
  - apply Permutation_sym, Permutation_cons_app, Permutation_sym, IH.
  - exact IH.
Qed.

Lemma classes_perm (sel : K -> A -> bool) (xs : list A) (ks : list K) :
  (forall k1 k2 x, sel k1 x = true -> sel k2 x = true -> k1 = k2) ->
  NoDup ks ->
  Permutation (flat_map (fun k => filter (sel k) xs) ks)
              (filter (fun x => existsb (fun k => sel k x) ks) xs).
Proof.
  intros D. induction 1 as [|k ks NI ND IH]; simpl.
  - now rewrite filter_none.
  - eapply Permutation_trans; [apply Permutation_app_head, IH|].
    apply filter_disjoint_perm. intros x S1 S2.
    apply existsb_exists in S2 as (k' & I & S2).
    rewrite (D _ _ _ S1 S2) in NI. contradiction.
Qed.

Lemma dict_values_concat (sel : K -> A -> bool) (xs : list A)
  (d : dict K (list A)) :
  (forall k l, In (k, l) d -> l = filter (sel k) xs) ->
  concat (dict_values d) = flat_map (fun k => filter (sel k) xs) (dict_keys d).
Proof.
  induction d as [|[k l] d IH]; simpl; intros E; [reflexivity|].
  rewrite IH by auto. f_equal. auto.
Qed.

Lemma has_key_functional (keyf : A -> option K) (k1 k2 : K) (x : A) :
  has_key keyf k1 x = true -> has_key keyf k2 x = true -> k1 = k2.
Proof.
  unfold has_key. destruct (keyf x); [|discriminate].
  intros E1 E2. apply key_eqb_eq in E1, E2. congruence.
Qed.

Lemma group_by_partition (keyf : A -> option K) (xs : list A) :
  Permutation (concat (dict_values (group_by keyf xs [])))
              (filter (fun x => is_some (keyf x)) xs).
Proof.
  rewrite (dict_values_concat (has_key keyf) xs)
    by (intros k l I; now apply group_by_entry in I).
  eapply Permutation_trans.
  - apply classes_perm; [apply has_key_functional|apply group_by_keys_NoDup].
  - match goal with |- Permutation ?a ?b => assert (a = b) as -> end;
      [|apply Permutation_refl].
    apply filter_ext_in. intros x I.
    destruct (keyf x) as [k|] eqn:E; simpl.
    + apply existsb_exists. exists k. split.
      * change k with (fst (k, filter (has_key keyf k) xs)).
        apply in_map. eapply group_by_covers; eauto.
      * unfold has_key. rewrite E. apply key_eqb_refl.
    + destruct (existsb _ _) eqn:X; [|reflexivity].
      apply existsb_exists in X as (k & _ & S). unfold has_key in S.
      rewrite E in S. discriminate.
Qed.

End ClassPartition.

(* ================================================================== *)
(** * [group_files_by_directory] *)
(* ================================================================== *)

Section GroupByDirectory.

Lemma split_nonempty (c : ascii) (s : string) : split c s <> [].
Proof.
  destruct s as [|a t]; simpl; [discriminate|].
  destruct (a =? c)%char; [discriminate|]. now destruct (split c t).
Qed.

Lemma split_find (c : ascii) (s : string) :
  match find c s with
  | Some i => (1 < List.length (split c s))%nat /\ hd "" (split c s) = take i s
  | None => split c s = [s]
  end.
Proof.
  induction s as [|a t IH]; simpl; [reflexivity|].
  destruct (a =? c)%char.
  - split; [|reflexivity]. pose proof (split_nonempty c t).
    destruct (split c t); [contradiction|simpl; lia].
  - destruct (find c t) as [i|].
    + destruct IH as [L Hd]. destruct (split c t) as [|p r]; simpl in *; [lia|].
      split; [assumption|now subst].
    + now rewrite IH.
Qed.

Lemma root_dir_of_spec (f : string) :
  root_dir_of f
  = match find os_sep f with Some i => take i f | None => "root" end.
Proof.
  unfold root_dir_of. pose proof (split_find os_sep f) as S.
  destruct (find os_sep f) as [i|].
  - destruct S as [L Hd]. apply Nat.ltb_lt in L. now rewrite L.
  - now rewrite S.
Qed.

Lemma group_files_by_directory_lookup (files : list string) (d : string) :
  dict_get d (group_files_by_directory files)
  = nonempty_opt (filter (fun f => root_dir_of f =? d) files).
Proof.
  exact (group_by_lookup (fun f => Some (root_dir_of f)) files d).
Qed.

Lemma group_files_by_directory_NoDup (files : list string) :
  NoDup (dict_keys (group_files_by_directory files)).
Proof.
  exact (group_by_keys_NoDup (fun f => Some (root_dir_of f)) files).
Qed.

Lemma group_files_by_directory_entry (files : list string) (d : string)
  (l : list string) :
  In (d, l) (group_files_by_directory files) ->
  l = filter (fun f => root_dir_of f =? d) files /\ l <> [].
Proof.
  exact (group_by_entry (fun f => Some (root_dir_of f)) files d l).
Qed.

Lemma group_files_by_directory_covers (files : list string) (f : string) :
  In f files ->
  In (root_dir_of f, filter (fun g => root_dir_of g =? root_dir_of f) files)
     (group_files_by_directory files).
Proof.
  intros I.
  exact (group_by_covers (fun x => Some (root_dir_of x)) files f (root_dir_of f)
           I eq_refl).
Qed.

Lemma group_files_by_directory_perm (files : list string) :
  Permutation (concat (dict_values (group_files_by_directory files))) files.
Proof.
  eapply Permutation_trans.
  - exact (group_by_partition (fun f => Some (root_dir_of f)) files).
  - simpl. assert (forall l : list string, filter (fun _ => true) l = l) as E
      by (induction l; simpl; congruence).
    rewrite E. apply Permutation_refl.
Qed.

(** C9.  [group_files_by_directory] partitions its input.  The key of a
    file is the text before its first ["/"], or ['root'] when it has none;
    the keys are distinct, no group is empty, the group under a key holds
    exactly the input files with that key, every input file is found in the
    group of its key and in no group under another key, and the groups put
    end to end are a rearrangement of the input. *)
Theorem group_files_by_directory_partition (files : list string) :
  let grouped := group_files_by_directory files in
  (forall f, root_dir_of f
             = match find os_sep f with Some i => take i f | None => "root" end) /\
  NoDup (dict_keys grouped) /\
  (forall d l, In (d, l) grouped ->
               l <> [] /\ l = filter (fun f => root_dir_of f =? d) files) /\
  (forall f, In f files ->
             exists l, dict_get (root_dir_of f) grouped = Some l /\ In f l) /\
  (forall f d l, In (d, l) grouped -> In f l -> d = root_dir_of f) /\
  Permutation (concat (dict_values grouped)) files.
Proof.
  cbv zeta. repeat split.
  - apply root_dir_of_spec.
  - apply group_files_by_directory_NoDup.
  - now apply group_files_by_directory_entry in H.
  - now apply group_files_by_directory_entry in H.
  - intros f I. rewrite group_files_by_directory_lookup.
    assert (In f (filter (fun f0 => root_dir_of f0 =? root_dir_of f) files)) as I'
      by (apply filter_In; split; [assumption|apply String.eqb_refl]).
    destruct (filter _ files) as [|a l] eqn:E; [contradiction|].
    exists (a :: l). split; [reflexivity|assumption].
  - intros f d l I If. apply group_files_by_directory_entry in I as [-> _].
    apply filter_In in If as [_ E]. apply String.eqb_eq in E. now symmetry.
  - apply group_files_by_directory_perm.
Qed.

End GroupByDirectory.

(* ================================================================== *)
(** * Group names *)
(* ================================================================== *)

Section GroupNames.

Lemma length_append (a s : string) :
  String.length (a ++ s) = String.length a + String.length s.
Proof. induction a; simpl; auto. Qed.

Lemma append_same_length (a b s t : string) :
  String.length a = String.length b ->
  (a ++ s)%string = (b ++ t)%string -> a = b /\ s = t.
Proof.
  revert b. induction a as [|c a IH]; intros [|c' b]; simpl; try discriminate.
  - auto.
  - intros L E. injection L as L. injection E as -> E.
    destruct (IH b L E) as [-> ->]. auto.
Qed.

Lemma suffixed_name_inj (suffix a b : string) :
  (a ++ suffix)%string = (b ++ suffix)%string -> a = b.
Proof.
  intros E. apply (append_same_length a b suffix suffix); [|assumption].
  apply (f_equal String.length) in E. rewrite !length_append in E. lia.
Qed.

Lemma related_changes_clash (a b : string) :
  (a ++ "-related")%string <> (b ++ "-changes")%string.
Proof.
  intros E. assert (String.length a = String.length b) as L.
  { apply (f_equal String.length) in E. rewrite !length_append in E.
    simpl in E. lia. }
  destruct (append_same_length a b _ _ L E) as [_ E']. discriminate.
Qed.

Lemma NoDup_map_inj {A B : Type} (f : A -> B) (l : list A) :
  (forall x y, f x = f y -> x = y) -> NoDup l -> NoDup (map f l).
Proof.
  intros Inj. induction 1 as [|x l NI ND IH]; simpl; constructor; [|assumption].
  intros I. apply in_map_iff in I as (y & E & I). apply Inj in E. now subst.
Qed.

Lemma NoDup_keys_filter {V : Type} (p : string * V -> bool) (d : dict string V) :
  NoDup (dict_keys d) -> NoDup (dict_keys (filter p d)).
Proof.
  induction d as [|[k v] d IH]; simpl; intros ND; [constructor|].
  inversion ND as [|? ? NI ND']; subst. destruct (p (k, v)); simpl; [|auto].
  constructor; [|auto]. intros I. apply NI.
  unfold dict_keys in *. apply in_map_iff in I as (x & E & I).
  apply filter_In in I as [I _]. apply in_map_iff. eauto.
Qed.

Lemma str_in_In (x : string) (l : list string) : str_in x l = true <-> In x l.
Proof.
  unfold str_in. rewrite existsb_exists. split.
  - intros (y & I & E). apply String.eqb_eq in E. now subst.
  - intros I. exists x. split; [assumption|apply String.eqb_refl].
Qed.

Lemma Permutation_filter {A : Type} (p : A -> bool) (l l' : list A) :
  Permutation l l' -> Permutation (filter p l) (filter p l').
Proof.
  induction 1 as [|x l l' P IH|x y l|l l' l'' P1 IH1 P2 IH2]; simpl.
  - constructor.
  - destruct (p x); [now constructor|assumption].
  - destruct (p x), (p y); try apply Permutation_refl. apply perm_swap.
  - eapply Permutation_trans; eassumption.
Qed.

Lemma fold_left_ext {A B : Type} (f g : A -> B -> A) (l : list B) :
  (forall a b, f a b = g a b) -> forall a, fold_left f l a = fold_left g l a.
Proof.
  intros E. induction l as [|b l IH]; intros a; simpl; [reflexivity|].
  now rewrite E, IH.
Qed.

End GroupNames.

(* ================================================================== *)
(** * The loops of [_fallback_intelligent_grouping] *)
(* ================================================================== *)

Section FallbackLoops.

Lemma entity_patterns_group_by (files : list string) :
  entity_patterns_of files = group_by entity_key_opt files [].
Proof.
  unfold entity_patterns_of, group_by. apply fold_left_ext.
  intros d f. unfold entity_key_opt. now destruct (key_ok (entity_key f)).
Qed.

Lemma related_loop (items : dict string (list string)) :
  forall (groups : dict string group) (grouped : list string),
    NoDup (dict_keys groups ++ dict_keys (map related_entry (filter big_item items))) ->
    fold_left related_step items (groups, grouped)
    = (groups ++ map related_entry (filter big_item items),
       grouped ++ concat (map snd (filter big_item items))).
Proof.
  induction items as [|[e l] items IH]; intros groups grouped ND; simpl.
  - now rewrite !List.app_nil_r.
  - simpl in ND. change (big_item (e, l)) with (1 <? List.length l)%nat in *.
    destruct (1 <? List.length l)%nat eqn:B; simpl in *.
    + rewrite dict_set_fresh.
      * rewrite IH.
        -- rewrite <- !app_assoc. simpl. reflexivity.
        -- unfold dict_keys in *. rewrite map_app, <- app_assoc. exact ND.
      * apply dict_mem_false. apply NoDup_remove_2 in ND.
        intros I. apply ND. apply in_or_app. now left.
    + now apply IH.
Qed.

Lemma directory_loop (items : dict string (list string)) :
  forall groups : dict string group,
    NoDup (dict_keys groups ++ dict_keys (map directory_entry items)) ->
    fold_left directory_step items groups = groups ++ map directory_entry items.
Proof.
  induction items as [|[d l] items IH]; intros groups ND; simpl.
  - now rewrite List.app_nil_r.
  - simpl in ND. rewrite dict_set_fresh.
    + rewrite IH.
      * now rewrite <- app_assoc.
      * unfold dict_keys in *. rewrite map_app, <- app_assoc. exact ND.
    + apply dict_mem_false. apply NoDup_remove_2 in ND.
      intros I. apply ND. apply in_or_app. now left.
Qed.

Lemma related_keys (items : dict string (list string)) :
  dict_keys (map related_entry items)
  = map (fun e => (e ++ "-related")%string) (dict_keys items).
Proof. unfold dict_keys. rewrite !map_map. reflexivity. Qed.

Lemma directory_keys (items : dict string (list string)) :
  dict_keys (map directory_entry items)
  = map (fun d => (d ++ "-changes")%string) (dict_keys items).
Proof. unfold dict_keys. rewrite !map_map. reflexivity. Qed.

Lemma related_groups_NoDup (files : list string) :
  NoDup (dict_keys (related_groups_of files)).
Proof.
  unfold related_groups_of. rewrite related_keys.
  apply NoDup_map_inj; [intros x y; apply suffixed_name_inj|].
  apply NoDup_keys_filter. rewrite entity_patterns_group_by.
  apply group_by_keys_NoDup.
Qed.

Lemma directory_groups_NoDup (files : list string) :
  NoDup (dict_keys (directory_groups_of files)).
Proof.
  unfold directory_groups_of. rewrite directory_keys.
  apply NoDup_map_inj; [intros x y; apply suffixed_name_inj|].
  apply group_files_by_directory_NoDup.
Qed.

Lemma all_groups_NoDup (files : list string) :
  NoDup (dict_keys (related_groups_of files ++ directory_groups_of files)).
Proof.
  unfold dict_keys. rewrite map_app. apply NoDup_app.
  - apply related_groups_NoDup.
  - apply directory_groups_NoDup.
  - intros n I1 I2. fold (dict_keys (related_groups_of files)) in I1.
    fold (dict_keys (directory_groups_of files)) in I2.
    unfold related_groups_of in I1. unfold directory_groups_of in I2.
    rewrite related_keys in I1. rewrite directory_keys in I2.
    apply in_map_iff in I1 as (e & <- & _). apply in_map_iff in I2 as (d & E & _).
    symmetry in E. now apply related_changes_clash in E.
Qed.

(** The source's three loops build the entity groups followed by the
    directory groups of the files that no entity group holds. *)
Lemma fallback_unfold (files : list string) :
  _fallback_intelligent_grouping files
  = let groups := related_groups_of files ++ directory_groups_of files in
    if is_nil groups then [("all-changes", all_changes_group files)] else groups.
Proof.
  unfold _fallback_intelligent_grouping.
  rewrite related_loop by (simpl; apply related_groups_NoDup). simpl.
  fold (related_groups_of files). fold (claimed_of files). fold (ungrouped_of files).
  destruct (is_nil (ungrouped_of files)) eqn:U.
  - unfold directory_groups_of. destruct (ungrouped_of files); [|discriminate].
    cbn. now rewrite List.app_nil_r.
  - rewrite directory_loop; [reflexivity|].
    pose proof (all_groups_NoDup files) as ND.
    unfold dict_keys in *. now rewrite map_app in ND.
Qed.

End FallbackLoops.

(* ================================================================== *)
(** * The groups of [_fallback_intelligent_grouping] *)
(* ================================================================== *)

Section FallbackShape.

Lemma filter_filter {A : Type} (p q : A -> bool) (l : list A) :
  filter p (filter q l) = filter (fun x => q x && p x) l.
Proof.
  induction l as [|x l IH]; simpl; [reflexivity|].
  destruct (q x); simpl; [destruct (p x)|]; now rewrite IH.
Qed.

Lemma filter_all {A : Type} (p : A -> bool) (l : list A) :
  (forall x, In x l -> p x = true) -> filter p l = l.
Proof.
  induction l as [|x l IH]; simpl; intros P; [reflexivity|].
  rewrite P by now left. f_equal. apply IH. intros; apply P. now right.
Qed.

Lemma eq_Permutation {A : Type} (l l' : list A) : l = l' -> Permutation l l'.
Proof. intros ->. apply Permutation_refl. Qed.

Lemma has_key_entity (e g : string) :
  key_ok e = true -> has_key entity_key_opt e g = (entity_key g =? e).
Proof.
  intros O. unfold has_key, entity_key_opt.
  destruct (key_ok (entity_key g)) eqn:Og; [reflexivity|].
  destruct (entity_key g =? e) eqn:E; [|reflexivity].
  apply String.eqb_eq in E. congruence.
Qed.

Lemma entity_patterns_lookup (files : list string) (e : string) :
  key_ok e = true ->
  dict_get e (entity_patterns_of files)
  = nonempty_opt (filter (fun g => entity_key g =? e) files).
Proof.
  intros O. rewrite entity_patterns_group_by, group_by_lookup. f_equal.
  apply filter_ext. intros g. now apply has_key_entity.
Qed.

Lemma entity_patterns_entry (files : list string) (e : string) (l : list string) :
  In (e, l) (entity_patterns_of files) ->
  l = filter (fun g => entity_key g =? e) files /\ l <> [] /\ key_ok e = true.
Proof.
  rewrite entity_patterns_group_by. intros I.
  apply group_by_entry in I as [E NE].
  assert (key_ok e = true) as O.
  { destruct l as [|x l]; [contradiction|].
    assert (In x (filter (has_key entity_key_opt e) files)) as Ix
      by (rewrite <- E; now left).
    apply filter_In in Ix as [_ Hx]. unfold has_key, entity_key_opt in Hx.
    destruct (key_ok (entity_key x)) eqn:Ox; [|discriminate].
    apply String.eqb_eq in Hx. congruence. }
  repeat split; [|assumption|assumption].
  rewrite E. apply filter_ext. intros g. now apply has_key_entity.
Qed.

Lemma claimed_shares (files : list string) (f : string) :
  In f files ->
  str_in f (claimed_of files) = shares_entity entity_key files f.
Proof.
  intros If. apply eq_iff_eq_true. rewrite str_in_In. unfold claimed_of.
  rewrite in_concat. split.
  - intros (l & Il & Ifl). apply in_map_iff in Il as ([e l'] & El & Iit).
    simpl in El. subst l'. apply filter_In in Iit as [Iit B].
    apply entity_patterns_entry in Iit as (El & NE & O).
    unfold big_item in B. simpl in B. pose proof Ifl as Ifl'.
    rewrite El in Ifl'. apply filter_In in Ifl' as [_ Ek].
    apply String.eqb_eq in Ek. unfold shares_entity. rewrite Ek, O. simpl.
    now rewrite <- El.
  - intros S. unfold shares_entity in S. apply andb_prop in S as [O B].
    exists (filter (fun g => entity_key g =? entity_key f) files). split.
    + apply in_map_iff.
      exists (entity_key f, filter (fun g => entity_key g =? entity_key f) files).
      split; [reflexivity|]. apply filter_In. split; [|exact B].
      apply dict_get_Some_In. rewrite entity_patterns_lookup by assumption.
      destruct (filter _ files); [discriminate|reflexivity].
    + apply filter_In. split; [assumption|apply String.eqb_refl].
Qed.

Lemma ungrouped_spec (files : list string) :
  ungrouped_of files
  = filter (fun f => negb (shares_entity entity_key files f)) files.
Proof.
  unfold ungrouped_of. apply filter_ext_in. intros f If.
  now rewrite claimed_shares.
Qed.

Lemma related_entry_spec (files : list string) (n : string) (g : group) :
  In (n, g) (related_groups_of files) ->
  exists e, n = (e ++ "-related")%string /\ g = related_group e (g_files g) /\
            key_ok e = true /\ 1 < List.length (g_files g) /\
            g_files g = filter (fun f => entity_key f =? e) files.
Proof.
  unfold related_groups_of. intros I.
  apply in_map_iff in I as ([e l] & E & I). injection E as <- <-.
  apply filter_In in I as [I B]. apply entity_patterns_entry in I as (El & _ & O).
  exists e. simpl. repeat split; auto. now apply Nat.ltb_lt.
Qed.

Lemma directory_entry_spec (files : list string) (n : string) (g : group) :
  In (n, g) (directory_groups_of files) ->
  exists d, n = (d ++ "-changes")%string /\ g = directory_group d (g_files g) /\
            g_files g <> [] /\
            g_files g = filter (fun f => root_dir_of f =? d) (ungrouped_of files).
Proof.
  unfold directory_groups_of. intros I.
  apply in_map_iff in I as ([d l] & E & I). injection E as <- <-.
  apply group_files_by_directory_entry in I as [El NE].
  exists d. simpl. repeat split; auto.
Qed.

Lemma group_name_related (files : list string) (e f : string) :
  key_ok e = true ->
  1 < List.length (filter (fun g => entity_key g =? e) files) ->
  (group_name_of files f =? (e ++ "-related")%string) = (entity_key f =? e).
Proof.
  intros O B. unfold group_name_of.
  destruct (shares_entity entity_key files f) eqn:S.
  - destruct (entity_key f =? e) eqn:E.
    + apply String.eqb_eq in E. rewrite E. apply String.eqb_refl.
    + apply String.eqb_neq. intros X. apply suffixed_name_inj in X.
      apply String.eqb_neq in E. contradiction.
  - destruct (entity_key f =? e) eqn:E.
    + apply String.eqb_eq in E. unfold shares_entity in S. rewrite E, O in S.
      apply Nat.ltb_lt in B. simpl in S. congruence.
    + apply String.eqb_neq. intros X. symmetry in X.
      now apply related_changes_clash in X.
Qed.

Lemma group_name_directory (files : list string) (d f : string) :
  (group_name_of files f =? (d ++ "-changes")%string)
  = negb (shares_entity entity_key files f) && (root_dir_of f =? d).
Proof.
  unfold group_name_of. destruct (shares_entity entity_key files f); simpl.
  - apply String.eqb_neq. apply related_changes_clash.
  - destruct (root_dir_of f =? d) eqn:E.
    + apply String.eqb_eq in E. rewrite E. apply String.eqb_refl.
    + apply String.eqb_neq. intros X. apply suffixed_name_inj in X.
      apply String.eqb_neq in E. contradiction.
Qed.

Lemma groups_entry (files : list string) (n : string) (g : group) :
  In (n, g) (related_groups_of files ++ directory_groups_of files) ->
  g_files g = filter (fun f => group_name_of files f =? n) files /\
  g_files g <> [].
Proof.
  intros I. apply in_app_or in I as [I | I].
  - apply related_entry_spec in I as (e & -> & _ & O & B & E). split.
    + rewrite E at 1. apply filter_ext. intros f. symmetry.
      apply group_name_related; [assumption|now rewrite <- E].
    + intros X. rewrite X in B. simpl in B. lia.
  - apply directory_entry_spec in I as (d & -> & _ & NE & E).
    split; [|assumption]. rewrite E, ungrouped_spec, filter_filter.
    apply filter_ext. intros f. symmetry. apply group_name_directory.
Qed.

Lemma groups_cover (files : list string) (f : string) :
  In f files ->
  exists g, In (group_name_of files f, g)
               (related_groups_of files ++ directory_groups_of files).
Proof.
  intros If. unfold group_name_of.
  destruct (shares_entity entity_key files f) eqn:S.
  - unfold shares_entity in S. apply andb_prop in S as [O B].
    exists (related_group (entity_key f)
              (filter (fun g => entity_key g =? entity_key f) files)).
    apply in_or_app. left. unfold related_groups_of. apply in_map_iff.
    exists (entity_key f, filter (fun g => entity_key g =? entity_key f) files).
    split; [reflexivity|]. apply filter_In. split; [|exact B].
    apply dict_get_Some_In. rewrite entity_patterns_lookup by assumption.
    destruct (filter _ files); [discriminate|reflexivity].
  - exists (directory_group (root_dir_of f)
              (filter (fun g => root_dir_of g =? root_dir_of f) (ungrouped_of files))).
    apply in_or_app. right. unfold directory_groups_of. apply in_map_iff.
    exists (root_dir_of f,
            filter (fun g => root_dir_of g =? root_dir_of f) (ungrouped_of files)).
    split; [reflexivity|].
    apply group_files_by_directory_covers.
    rewrite ungrouped_spec. apply filter_In. split; [assumption|now rewrite S].
Qed.

Lemma fallback_of_files (files : list string) :
  files <> [] ->
  _fallback_intelligent_grouping files
  = related_groups_of files ++ directory_groups_of files.
Proof.
  intros NE. rewrite fallback_unfold. cbv zeta.
  destruct files as [|f files]; [contradiction|].
  destruct (groups_cover (f :: files) f (or_introl eq_refl)) as [g I].
  destruct (related_groups_of (f :: files) ++ directory_groups_of (f :: files));
    [contradiction|reflexivity].
Qed.

Lemma fallback_of_nothing :
  _fallback_intelligent_grouping [] = [("all-changes", all_changes_group [])].
Proof. reflexivity. Qed.

Lemma fallback_keys_NoDup (files : list string) :
  NoDup (dict_keys (_fallback_intelligent_grouping files)).
Proof.
  destruct files as [|f files].
  - rewrite fallback_of_nothing. repeat constructor. simpl. tauto.
  - rewrite fallback_of_files by discriminate. apply all_groups_NoDup.
Qed.

Lemma fallback_lookup (files : list string) (n : string) :
  files <> [] ->
  option_map g_files (dict_get n (_fallback_intelligent_grouping files))
  = nonempty_opt (filter (fun f => group_name_of files f =? n) files).
Proof.
  intros NE. rewrite fallback_of_files by assumption.
  destruct (dict_get n _) as [g|] eqn:G; simpl.
  - apply dict_get_Some_In in G. apply groups_entry in G as [E N].
    rewrite <- E. now destruct (g_files g).
  - destruct (filter _ files) as [|f l] eqn:F; [reflexivity|exfalso].
    assert (In f (filter (fun f0 => group_name_of files f0 =? n) files)) as I
      by (rewrite F; now left).
    apply filter_In in I as [I E]. apply String.eqb_eq in E.
    destruct (groups_cover files f I) as [g Ig]. rewrite E in Ig.
    apply dict_get_In in Ig; [congruence|apply all_groups_NoDup].
Qed.

Lemma fallback_files_perm (files : list string) :
  Permutation
    (concat (map g_files (dict_values (_fallback_intelligent_grouping files))))
    files.
Proof.
  destruct files as [|f0 files0]; [rewrite fallback_of_nothing; constructor|].
  set (files := f0 :: files0). rewrite fallback_of_files by discriminate.
  set (groups := related_groups_of files ++ directory_groups_of files).
  assert (concat (map g_files (dict_values groups))
          = flat_map (fun n => filter (fun f => group_name_of files f =? n) files)
                     (dict_keys groups)) as ->.
  { assert (forall n g, In (n, g) groups ->
              g_files g = filter (fun f => group_name_of files f =? n) files) as E
      by (intros n g I; now apply groups_entry in I).
    clearbody groups. induction groups as [|[n g] groups IH]; simpl; [reflexivity|].
    rewrite IH by (intros; apply E; now right). f_equal. apply E. now left. }
  eapply Permutation_trans.
  - apply classes_perm; [|apply all_groups_NoDup].
    intros n1 n2 f E1 E2. apply String.eqb_eq in E1, E2. congruence.
  - apply eq_Permutation. apply filter_all. intros f If. apply existsb_exists. exists (group_name_of files f).
    split; [|apply String.eqb_refl].
    destruct (groups_cover files f If) as [g Ig].
    change (group_name_of files f) with (fst (group_name_of files f, g)).
    now apply in_map.
Qed.

End FallbackShape.

(* ================================================================== *)
(** * The grouping rule and its independence of the order of the files *)
(* ================================================================== *)

Section FallbackClaims.

Lemma key_ok_iff (k : string) : key_ok k = true <-> 1 < String.length k.
Proof.
  unfold key_ok. destruct k as [|c k]; simpl; [split; [discriminate|lia]|].
  apply Nat.ltb_lt.
Qed.

Lemma fallback_entry_kind (files : list string) (n : string) (g : group) :
  files <> [] ->
  In (n, g) (_fallback_intelligent_grouping files) ->
  (exists e, n = (e ++ "-related")%string /\ g = related_group e (g_files g) /\
             1 < String.length e /\
             1 < List.length (filter (fun f => entity_key f =? e) files)) \/
  (exists d, n = (d ++ "-changes")%string /\ g = directory_group d (g_files g) /\
             filter (fun f => root_dir_of f =? d) (ungrouped_of files) <> []).
Proof.
  intros NE I. rewrite fallback_of_files in I by assumption.
  apply in_app_or in I as [I | I].
  - left. apply related_entry_spec in I as (e & En & Eg & O & B & E).
    exists e. repeat split; auto; [now apply key_ok_iff|now rewrite <- E].
  - right. apply directory_entry_spec in I as (d & En & Eg & N & E).
    exists d. repeat split; auto. now rewrite <- E.
Qed.

(** C4 (amended).  [_fallback_intelligent_grouping] follows the grouping
    rule for the entity key of the source, [entity_key]: the basename
    without extension, with the prefixes [test_]/[spec_] and the suffixes
    [_test] ... [_handler] stripped whatever their case, then the
    capitalised suffixes [Controller] ... [Spec] stripped in that exact
    case, lower-cased.  Keys longer than one character that more than one
    file has give the [<entity>-related] groups; the other files are
    grouped by first path segment into [<segment>-changes]; with no file
    at all the result is the single group [all-changes]. *)
Theorem fallback_grouping_rule (files : list string) :
  grouping_rule entity_key files (_fallback_intelligent_grouping files).
Proof.
  unfold grouping_rule. cbv zeta. rewrite <- ungrouped_spec.
  split; [|split; [|split]].
  - intros k Lk B. assert (files <> []) as NE
      by (intros ->; simpl in B; lia).
    apply dict_get_In; [apply fallback_keys_NoDup|].
    rewrite fallback_of_files by assumption. apply in_or_app. left.
    unfold related_groups_of. apply in_map_iff.
    exists (k, filter (fun f => entity_key f =? k) files).
    split; [reflexivity|]. apply filter_In.
    split; [|now apply Nat.ltb_lt]. apply dict_get_Some_In.
    rewrite entity_patterns_lookup by now apply key_ok_iff.
    destruct (filter _ files); [simpl in B; lia|reflexivity].
  - intros d N. assert (files <> []) as NE
      by (intros ->; now apply N).
    apply dict_get_In; [apply fallback_keys_NoDup|].
    rewrite fallback_of_files by assumption. apply in_or_app. right.
    unfold directory_groups_of. apply in_map_iff.
    exists (d, filter (fun f => root_dir_of f =? d) (ungrouped_of files)).
    split; [reflexivity|]. apply dict_get_Some_In.
    rewrite group_files_by_directory_lookup.
    destruct (filter _ (ungrouped_of files)); [contradiction|reflexivity].
  - intros NE n g I.
    destruct (fallback_entry_kind files n g NE I)
      as [(e & En & _ & L & B) | (d & En & _ & N)]; [left|right]; eauto.
  - intros ->. reflexivity.
Qed.

Lemma same_group_refl (o : option group) : same_group o o.
Proof. destruct o; simpl; auto using Permutation_refl. Qed.

Lemma group_name_of_perm (files files' : list string) (f : string) :
  Permutation files files' -> group_name_of files f = group_name_of files' f.
Proof.
  intros P. unfold group_name_of, shares_entity.
  now rewrite (Permutation_length
                 (Permutation_filter (fun g => entity_key g =? entity_key f) _ _ P)).
Qed.

(** C5.  On a rearrangement of its input [_fallback_intelligent_grouping]
    returns the same groups: under every name both results have a group or
    neither has, and the two groups hold the same files (up to their
    order) with the same description, type and messages. *)
Theorem fallback_permutation_invariant (files files' : list string) :
  Permutation files files' ->
  forall n : string,
    same_group (dict_get n (_fallback_intelligent_grouping files))
               (dict_get n (_fallback_intelligent_grouping files')).
Proof.
  intros P n.
  assert (files = [] \/ files <> []) as [-> | NE]
    by (destruct files; [now left|right; discriminate]).
  - apply Permutation_nil in P. subst. apply same_group_refl.
  - assert (files' <> []) as NE'
      by (intros ->; apply Permutation_sym, Permutation_nil in P; contradiction).
    assert (Permutation (filter (fun f => group_name_of files f =? n) files)
                        (filter (fun f => group_name_of files' f =? n) files')) as PF.
    { rewrite (filter_ext (fun f => group_name_of files f =? n)
                          (fun f => group_name_of files' f =? n))
        by (intros f; now rewrite (group_name_of_perm _ _ f P)).
      now apply Permutation_filter. }
    pose proof (fallback_lookup files n NE) as L.
    pose proof (fallback_lookup files' n NE') as L'.
    set (fl := filter (fun f => group_name_of files f =? n) files) in *.
    set (fl' := filter (fun f => group_name_of files' f =? n) files') in *.
    destruct (dict_get n (_fallback_intelligent_grouping files)) as [g|] eqn:G;
      destruct (dict_get n (_fallback_intelligent_grouping files')) as [g'|] eqn:G';
      simpl in L, L'; simpl.
    + assert (Permutation (g_files g) (g_files g')) as Pg.
      { destruct fl, fl'; simpl in L, L'; try discriminate.
        injection L as ->. injection L' as ->. exact PF. }
      split; [exact Pg|].
      apply dict_get_Some_In in G, G'.
      destruct (fallback_entry_kind _ _ _ NE G)
        as [(e & En & Eg & _) | (d & En & Eg & _)];
        destruct (fallback_entry_kind _ _ _ NE' G')
        as [(e' & En' & Eg' & _) | (d' & En' & Eg' & _)]; subst n.
      * apply suffixed_name_inj in En'. subst e'. rewrite Eg, Eg'. simpl. auto.
      * now apply related_changes_clash in En'.
      * symmetry in En'. now apply related_changes_clash in En'.
      * apply suffixed_name_inj in En'. subst d'. rewrite Eg, Eg'. simpl. auto.
    + destruct fl, fl'; simpl in L, L'; try discriminate.
      apply Permutation_sym, Permutation_nil in PF. discriminate.
    + destruct fl, fl'; simpl in L, L'; try discriminate.
      apply Permutation_nil in PF. discriminate.
    + exact I.
Qed.

End FallbackClaims.

(** C5 at the input [a/x.py, b/y.py] and its reversal. *)
Lemma fallback_permutation_invariant_witness :
  same_group
    (dict_get "a-changes" (_fallback_intelligent_grouping ["a/x.py"; "b/y.py"]))
    (dict_get "a-changes" (_fallback_intelligent_grouping ["b/y.py"; "a/x.py"])).
Proof.
  apply (fallback_permutation_invariant ["a/x.py"; "b/y.py"] ["b/y.py"; "a/x.py"]).
  apply perm_swap.
Defined.

(** C4 as first worded, with a key that ignores the capitalised suffixes,
    fails: [UserModel.py] and [user.py] would have the keys [usermodel] and
    [user] and both belong to [root-changes], while the source puts them
    together in [user-related] and makes no [root-changes] group. *)
Lemma fallback_grouping_rule_without_capitalized_fails :
  ~ grouping_rule entity_key_without_capitalized ["UserModel.py"; "user.py"]
      (_fallback_intelligent_grouping ["UserModel.py"; "user.py"]).
Proof.
  intros (_ & H & _). specialize (H "root"). vm_compute in H.
  assert (None = Some (directory_group "root" ["UserModel.py"; "user.py"])) as X
    by (apply H; discriminate).
  discriminate X.
Qed.

(* ================================================================== *)
(** * One turn of the parsing loop *)
(* ================================================================== *)

Ltac bind_inv H :=
  match type of H with
  | bind ?m _ = Returned _ =>
      let E := fresh "E" in
      destruct m eqn:E; cbn [bind] in H; try discriminate H
  end.

Section PyKeys.
Context {V : Type}.

Lemma pykey_eqb_str (k : pykey) (s : string) :
  pykey_eqb k (KStr s) = true <-> k = KStr s.
Proof.
  destruct k as [| [|] | z | t]; simpl; split; try discriminate.
  - intros E. apply String.eqb_eq in E. now subst.
  - intros [= ->]. apply String.eqb_refl.
Qed.

Lemma dict_mem_str (s : string) (d : dict pykey V) :
  dict_mem (KStr s) d = true <-> In (KStr s) (dict_keys d).
Proof.
  unfold dict_mem. induction d as [|[k v] d IH]; simpl.
  - split; [discriminate|tauto].
  - change (key_eqb k (KStr s)) with (pykey_eqb k (KStr s)).
    destruct (pykey_eqb k (KStr s)) eqn:E.
    + apply pykey_eqb_str in E. split; auto.
    + rewrite IH. split; [auto|]. intros [-> | I]; [|assumption].
      assert (pykey_eqb (KStr s) (KStr s) = true) as X by now apply pykey_eqb_str.
      congruence.
Qed.

Lemma dict_mem_snoc (k n : pykey) (v : V) (d : dict pykey V) :
  dict_mem k (d ++ [(n, v)]) = dict_mem k d || pykey_eqb n k.
Proof.
  unfold dict_mem. induction d as [|[k0 v0] d IH]; simpl.
  - change (key_eqb n k) with (pykey_eqb n k). now destruct (pykey_eqb n k).
  - change (key_eqb k0 k) with (pykey_eqb k0 k).
    destruct (pykey_eqb k0 k); [reflexivity|exact IH].
Qed.

End PyKeys.

Section DictEntries.
Context {K V : Type} `{KeyEq K}.

Lemma dict_set_entries (k n : K) (v g : V) (d : dict K V) :
  In (n, g) (dict_set k v d) -> In (n, g) d \/ g = v.
Proof.
  induction d as [|[k0 v0] d IH]; simpl.
  - intros [[= _ <-] | []]. now right.
  - destruct (key_eqb k0 k); simpl.
    + intros [[= _ <-] | I]; [now right|left; now right].
    + intros [E | I]; [left; now left|].
      destruct (IH I) as [I' | E]; [left; now right|now right].
Qed.

End DictEntries.

Section Validation.

Lemma match_file_incl (all_files : list string) (f : json) (more : list string) :
  match_file all_files f = Returned more -> incl more all_files.
Proof.
  destruct f as [| | |s| |]; simpl; try discriminate.
  destruct (str_in s all_files) eqn:S.
  - intros [= <-]. intros x [<- | []]. now apply str_in_In.
  - destruct (List.find _ all_files) as [a|] eqn:F; intros [= <-].
    + apply find_some in F as [I _]. intros x [<- | []]. assumption.
    + intros x [].
Qed.

Lemma validate_files_incl (all_files : list string) (files : list json) :
  forall acc valid_files,
    validate_files all_files files acc = Returned valid_files ->
    incl acc all_files -> incl valid_files all_files.
Proof.
  induction files as [|f files IH]; simpl; intros acc valid E I.
  - now injection E as <-.
  - bind_inv E. eapply IH; [eassumption|].
    apply incl_app; [assumption|]. now apply match_file_incl with f.
Qed.

Lemma fromkeys_fold_In (x : string) (l : list string) :
  forall d : dict string unit,
    In x (dict_keys (fold_left (fun d k => dict_set k tt d) l d))
    <-> In x (dict_keys d) \/ In x l.
Proof.
  induction l as [|k l IH]; intros d; simpl; [tauto|].
  rewrite IH, dict_keys_set. destruct (dict_mem k d) eqn:M.
  - apply dict_mem_In in M. split; [intros [?|?]; auto|].
    intros [?|[<-|?]]; auto.
  - rewrite in_app_iff. simpl. tauto.
Qed.

Lemma dict_fromkeys_In (x : string) (l : list string) :
  In x (dict_fromkeys l) <-> In x l.
Proof. unfold dict_fromkeys. rewrite fromkeys_fold_In. simpl. tauto. Qed.

Lemma dict_fromkeys_NoDup (l : list string) : NoDup (dict_fromkeys l).
Proof.
  unfold dict_fromkeys.
  assert (forall d : dict string unit, NoDup (dict_keys d) ->
            NoDup (dict_keys (fold_left (fun d k => dict_set k tt d) l d))) as G.
  { induction l as [|k l IH]; intros d ND; simpl; [assumption|].
    apply IH. now apply dict_set_NoDup. }
  apply G. constructor.
Qed.

End Validation.

Section UniqueName.

Lemma unique_group_name_fresh (fuel : nat) (result : dict pykey group)
  (base_name : pykey) :
  forall (group_name : pykey) (counter : nat) (n : pykey),
    unique_group_name fuel result base_name group_name counter = Returned n ->
    dict_mem n result = false /\
    (n = group_name \/ exists c, n = numbered_name base_name c).
Proof.
  induction fuel as [|fuel IH]; intros name counter n; simpl.
  - destruct (dict_mem name result) eqn:M; [discriminate|].
    intros [= <-]. auto.
  - destruct (dict_mem name result) eqn:M.
    + intros E. apply IH in E as [F [-> | X]]; split; auto.
      right. now exists counter.
    + intros [= <-]. auto.
Qed.

End UniqueName.

Section ParseStep.

(** A turn of the loop leaves the result as it is, or adds one group at
    the end under a name that the result did not have. *)
Lemma parse_group_step (all_files : list string) (result : dict pykey group)
  (grouped : list string) (group_data : json)
  (result' : dict pykey group) (grouped' : list string) :
  parse_group all_files (result, grouped) group_data = Returned (result', grouped') ->
  (result' = result /\ grouped' = grouped) \/
  (exists fields base_name n g,
      read_group group_data = Returned fields /\
      to_key (f_group_name fields) = Returned base_name /\
      unique_group_name (S (List.length result)) result base_name base_name 1
      = Returned n /\
      result' = result ++ [(n, g)] /\ grouped' = grouped ++ g_files g /\
      dict_mem n result = false /\
      g_files g <> [] /\ incl (g_files g) all_files /\ NoDup (g_files g) /\
      g_description g = f_description fields /\
      g_type g = f_change_type fields /\
      g_commit_messages g = f_commit_messages fields).
Proof.
  unfold parse_group. intros E.
  bind_inv E. rename a into fields. bind_inv E. rename a into files.
  bind_inv E. rename a into valid.
  destruct (is_nil (dict_fromkeys valid)) eqn:N.
  - injection E as <- <-. now left.
  - right. bind_inv E. rename a into base_name. bind_inv E. rename a into n.
    bind_inv E. injection E as <- <-.
    pose proof (unique_group_name_fresh _ _ _ _ _ _ E4) as [F _].
    eexists fields, base_name, n, _.
    split; [reflexivity|]. split; [assumption|]. split; [exact E4|].
    split; [rewrite dict_set_fresh by assumption; reflexivity|].
    split; [reflexivity|]. split; [assumption|]. cbn [g_files].
    split; [intros X; now rewrite X in N|].
    split; [|split; [apply dict_fromkeys_NoDup|auto]].
    intros x I. apply (proj1 (dict_fromkeys_In x valid)) in I.
    apply (validate_files_incl _ _ _ _ E2); [intros ? []|assumption].
Qed.

End ParseStep.

(* ================================================================== *)
(** * What the parsing loop keeps true *)
(* ================================================================== *)

Section ReadGroup.

Lemma read_group_obj (members : dict string json) :
  read_group (JObj members)
  = Returned
      (mk_fields
         (member_or members "group" (JStr "unknown"))
         (member_or members "files" (JArr []))
         (member_or members "description" (JStr ""))
         (member_or members "type" (JStr "chore"))
         (let commit_messages := member_or members "commit_messages" (JArr []) in
          if truthy commit_messages then commit_messages
          else
            let single_message := member_or members "commit_message" (JStr "") in
            if truthy single_message then JArr [single_message]
            else commit_messages)).
Proof.
  unfold read_group, py_get, member_or. cbn [bind].
  destruct (truthy match dict_get "commit_messages" members with
                   | Some x => x
                   | None => JArr []
                   end); reflexivity.
Qed.

Lemma read_group_not_obj (group_data : json) :
  (forall members, group_data <> JObj members) ->
  read_group group_data = Raised AttributeError.
Proof.
  intros N. destruct group_data; try reflexivity. now destruct (N members).
Qed.

Lemma read_group_returned (group_data : json) (fields : group_fields) :
  read_group group_data = Returned fields ->
  exists members,
    group_data = JObj members /\
    f_group_name fields = member_or members "group" (JStr "unknown").
Proof.
  destruct group_data as [| | | | |members]; try discriminate.
  rewrite read_group_obj. intros [= <-]. now exists members.
Qed.

End ReadGroup.

Section NumberedNames.

Lemma last_char_append (a t : string) :
  last_char (a ++ t)
  = match last_char t with Some c => Some c | None => last_char a end.
Proof.
  induction a as [|c a IH]; simpl.
  - now destruct (last_char t).
  - rewrite IH. now destruct (last_char t).
Qed.

Lemma last_char_decimal (d : Decimal.uint) :
  match last_char (DecimalString.NilEmpty.string_of_uint d) with
  | Some c => isdigit c = true
  | None => True
  end.
Proof.
  induction d; simpl; try exact I;
    destruct (last_char (DecimalString.NilEmpty.string_of_uint d));
    try assumption; reflexivity.
Qed.

Lemma numbered_name_not_miscellaneous (base_name : pykey) (counter : nat) :
  numbered_name base_name counter <> KStr miscellaneous_name.
Proof.
  unfold numbered_name, str_of_nat. intros [= E].
  apply (f_equal last_char) in E. rewrite last_char_append in E. simpl in E.
  pose proof (last_char_decimal (Nat.to_uint counter)) as D.
  destruct (last_char _) as [c|]; [|discriminate].
  injection E as ->. discriminate.
Qed.

Lemma str_of_nat_inj (n m : nat) : str_of_nat n = str_of_nat m -> n = m.
Proof.
  unfold str_of_nat. intros E.
  apply (f_equal DecimalString.NilEmpty.uint_of_string) in E.
  rewrite !DecimalString.NilEmpty.usu in E. injection E as E.
  now apply DecimalNat.Unsigned.to_uint_inj.
Qed.

Lemma append_inj_r (a s t : string) : (a ++ s)%string = (a ++ t)%string -> s = t.
Proof. induction a; simpl; [auto|]. intros [= E]. auto. Qed.

Lemma numbered_name_inj (base_name : pykey) (n m : nat) :
  numbered_name base_name n = numbered_name base_name m -> n = m.
Proof.
  unfold numbered_name. intros [= E]. apply append_inj_r in E.
  injection E as E. now apply str_of_nat_inj.
Qed.

End NumberedNames.

Section ParseInvariant.
Variable all_files : list string.

Lemma parse_groups_sound (groups_list : list json) :
  forall result grouped result' grouped',
    parse_groups all_files groups_list (result, grouped)
    = Returned (result', grouped') ->
    groups_sound all_files result grouped -> groups_sound all_files result' grouped'.
Proof.
  induction groups_list as [|gd rest IH]; simpl; intros result grouped r' g' E S.
  - now injection E as <- <-.
  - bind_inv E. destruct a as [r1 g1]. apply (IH _ _ _ _ E). clear IH E.
    apply parse_group_step in E0
      as [[-> ->] | (fields & b & n & g & _ & _ & _ & -> & -> & _ & NE & I & _)];
      [assumption|].
    destruct S as [S1 S2]. split.
    + intros n0 g0 I0. apply in_app_or in I0 as [I0 | [E | []]]; [now apply (S1 n0)|].
      injection E as <- <-. now split.
    + intros f If. apply in_app_or in If as [If | If].
      * destruct (S2 f If) as (n0 & g0 & I0 & If0). exists n0, g0.
        split; [apply in_or_app; now left|assumption].
      * exists n, g. split; [apply in_or_app; right; now left|assumption].
Qed.

Lemma parse_groups_no_miscellaneous (groups_list : list json) :
  (forall members, In (JObj members) groups_list ->
     dict_get "group" members <> Some (JStr miscellaneous_name)) ->
  forall result grouped result' grouped',
    parse_groups all_files groups_list (result, grouped)
    = Returned (result', grouped') ->
    dict_mem (KStr miscellaneous_name) result = false ->
    dict_mem (KStr miscellaneous_name) result' = false.
Proof.
  induction groups_list as [|gd rest IH]; simpl; intros Hn result grouped r' g' E M.
  - now injection E as <- <-.
  - bind_inv E. destruct a as [r1 g1].
    apply (IH (fun m I => Hn m (or_intror I)) _ _ _ _ E). clear IH E.
    apply parse_group_step in E0
      as [[-> ->] | (fields & b & n & g & R & K & U & -> & _)]; [assumption|].
    rewrite dict_mem_snoc, M. simpl.
    destruct (pykey_eqb n (KStr miscellaneous_name)) eqn:X; [exfalso|reflexivity].
    apply pykey_eqb_str in X. subst n.
    apply unique_group_name_fresh in U as [_ [<- | [c Ec]]].
    + apply read_group_returned in R as (members & -> & Ef).
      apply (Hn members); [now left|]. rewrite Ef in K. unfold member_or in K.
      destruct (dict_get "group" members) as [v|]; [|discriminate].
      destruct v; try discriminate. now injection K as ->.
    + symmetry in Ec. now apply numbered_name_not_miscellaneous in Ec.
Qed.

End ParseInvariant.

(* ================================================================== *)
(** * The result of [parse_relation_groups] *)
(* ================================================================== *)

Section ParseResult.

Lemma parse_decoded_sound (decoded : option json) (all_files : list string)
  (result : dict pykey group) :
  parse_decoded decoded all_files = Returned result ->
  (forall n g, In (n, g) result -> g_files g <> [] /\ incl (g_files g) all_files) /\
  (~ names_miscellaneous decoded ->
   forall f, In f all_files -> exists n g, In (n, g) result /\ In f (g_files g)).
Proof.
  unfold parse_decoded. intros E.
  bind_inv E. rename a into v. bind_inv E. rename a into items.
  bind_inv E. destruct a as [r0 grouped]. injection E as <-.
  assert (groups_sound all_files r0 grouped) as [S1 S2].
  { apply (parse_groups_sound all_files items _ _ _ _ E2).
    split; [intros ? ? []|intros ? []]. }
  set (ungrouped := filter (fun f => negb (str_in f grouped)) all_files).
  assert (forall f, In f all_files -> str_in f grouped = false -> In f ungrouped)
    as Hu by (intros f If Sf; apply filter_In; now rewrite Sf).
  destruct (is_nil ungrouped) eqn:U.
  - split; [exact S1|]. intros _ f If.
    destruct (str_in f grouped) eqn:Sf; [apply S2; now apply str_in_In|].
    apply Hu in If; [|assumption]. now destruct ungrouped.
  - split.
    + intros n g I. apply dict_set_entries in I as [I | ->]; [now apply (S1 n)|].
      simpl. split; [intros X; now rewrite X in U|].
      intros f If. now apply filter_In in If.
    + intros Hm f If. rewrite dict_set_fresh.
      * destruct (str_in f grouped) eqn:Sf.
        -- apply str_in_In in Sf. destruct (S2 f Sf) as (n & g & I & Ig).
           exists n, g. split; [apply in_or_app; now left|assumption].
        -- exists (KStr miscellaneous_name), (miscellaneous_group ungrouped).
           split; [apply in_or_app; right; now left|]. simpl. now apply Hu.
      * apply (parse_groups_no_miscellaneous all_files items) with (3 := eq_refl) in E2;
          [assumption|].
        intros members I G. apply Hm. exists v, items, members.
        destruct decoded; [|discriminate]. injection E0 as ->. auto.
Qed.

Lemma fallback_exact_partition (files : list string) :
  files <> [] -> exact_partition files (_fallback_intelligent_grouping files).
Proof.
  intros NE. split; [apply fallback_keys_NoDup|].
  split; [|split; [|apply fallback_files_perm]];
    rewrite fallback_of_files by assumption.
  - intros n g I. now apply groups_entry in I.
  - intros n1 g1 n2 g2 f I1 I2 F1 F2.
    apply groups_entry in I1 as [E1 _], I2 as [E2 _].
    rewrite E1 in F1. rewrite E2 in F2.
    apply filter_In in F1 as [_ F1], F2 as [_ F2].
    apply String.eqb_eq in F1, F2. congruence.
Qed.

Lemma as_pydict_In (d : dict string group) (n : pykey) (g : group) :
  In (n, g) (as_pydict d) <-> exists s, n = KStr s /\ In (s, g) d.
Proof.
  unfold as_pydict. rewrite in_map_iff. split.
  - intros ([s g'] & [= <- <-] & I). now exists s.
  - intros (s & -> & I). now exists (s, g).
Qed.

Lemma parse_relation_groups_cases (json_loads : string -> option json)
  (ai_response : string) (all_files : list string) (result : dict pykey group) :
  parse_relation_groups json_loads ai_response all_files = Returned result ->
  parse_decoded (json_loads (clean_response ai_response)) all_files = Returned result
  \/ result = as_pydict (_fallback_intelligent_grouping all_files).
Proof.
  unfold parse_relation_groups.
  destruct (parse_decoded _ all_files) as [r|[]|]; try discriminate;
    intros [= <-]; auto.
Qed.

(** C1 (amended).  Over a non-empty list of files the result of
    [_fallback_intelligent_grouping] is an exact partition: distinct names,
    no empty group, no file in two groups, and the groups together are the
    input.  A grouping returned by [parse_relation_groups] over a non-empty
    list has no empty group and only input files in its groups, and, when
    the response names no group [miscellaneous-changes], every input file
    is in some group.  Over the empty list the fallback returns the single
    group [all-changes], which holds no file. *)
Theorem grouping_partition :
  (forall files : list string,
      files <> [] -> exact_partition files (_fallback_intelligent_grouping files)) /\
  (forall (json_loads : string -> option json) (ai_response : string)
          (all_files : list string) (result : dict pykey group),
      all_files <> [] ->
      parse_relation_groups json_loads ai_response all_files = Returned result ->
      (forall n g, In (n, g) result ->
                   g_files g <> [] /\ incl (g_files g) all_files) /\
      (~ names_miscellaneous (json_loads (clean_response ai_response)) ->
       forall f, In f all_files ->
                 exists n g, In (n, g) result /\ In f (g_files g))) /\
  (_fallback_intelligent_grouping [] = [("all-changes", all_changes_group [])] /\
   g_files (all_changes_group []) = []).
Proof.
  split; [exact fallback_exact_partition|].
  split; [|split; reflexivity].
  intros json_loads ai_response all_files result NE E.
  apply parse_relation_groups_cases in E as [E | ->].
  - now apply parse_decoded_sound.
  - rewrite fallback_of_files by assumption. split.
    + intros n g I. apply as_pydict_In in I as (s & -> & I).
      apply groups_entry in I as [E N]. split; [assumption|].
      rewrite E. intros f If. now apply filter_In in If.
    + intros _ f If. destruct (groups_cover all_files f If) as [g Ig].
      exists (KStr (group_name_of all_files f)), g. split.
      * apply as_pydict_In. eauto.
      * apply groups_entry in Ig as [E _]. rewrite E. apply filter_In.
        split; [assumption|apply String.eqb_refl].
Qed.

(** C1 as first worded fails.  The response
    [[{"group":"g1","files":["a.py"]},{"group":"g2","files":["a.py"]}]]
    over the single file [a.py] is accepted as it is, with [a.py] in both
    groups; and over no file at all the fallback returns the group
    [all-changes], which is empty. *)
Lemma grouping_partition_counterexample :
  parse_decoded
    (Some (JArr [named_group "g1" ["a.py"]; named_group "g2" ["a.py"]])) ["a.py"]
  = Returned
      [(KStr "g1", mk_group ["a.py"] (JStr "") (JStr "chore") Wrench (JArr []));
       (KStr "g2", mk_group ["a.py"] (JStr "") (JStr "chore") Wrench (JArr []))] /\
  ~ (forall (json_loads : string -> option json) (ai_response : string)
            (all_files : list string) (result : dict pykey group),
        parse_relation_groups json_loads ai_response all_files = Returned result ->
        exact_partition all_files result) /\
  ~ exact_partition [] (_fallback_intelligent_grouping []).
Proof.
  split; [reflexivity|split].
  - intros H.
    specialize (H (fun _ => Some (JArr [named_group "g1" ["a.py"];
                                        named_group "g2" ["a.py"]]))
                  "" ["a.py"] _ eq_refl).
    destruct H as (_ & _ & D & _).
    specialize (D (KStr "g1") _ (KStr "g2") _ "a.py"
                  (or_introl eq_refl) (or_intror (or_introl eq_refl))
                  (or_introl eq_refl) (or_introl eq_refl)).
    discriminate D.
  - intros (_ & N & _). apply (N "all-changes" (all_changes_group [])).
    + now left.
    + reflexivity.
Qed.

(** C2, at the input where the source departs from it.  When decoding
    fails, or a [TypeError] or [KeyError] is raised, the fallback grouping
    is returned.  But for the response [[1]], whose item is not a
    dictionary, [group_data.get] raises [AttributeError], which the
    [except] clause does not name: the exception reaches the caller, where
    the fallback would have returned [root-changes]. *)
Theorem parse_relation_groups_attribute_error :
  (forall (json_loads : string -> option json) (ai_response : string)
          (all_files : list string),
      (parse_decoded (json_loads (clean_response ai_response)) all_files
       = Raised JSONDecodeError \/
       parse_decoded (json_loads (clean_response ai_response)) all_files
       = Raised TypeError \/
       parse_decoded (json_loads (clean_response ai_response)) all_files
       = Raised KeyError) ->
      parse_relation_groups json_loads ai_response all_files
      = Returned (as_pydict (_fallback_intelligent_grouping all_files))) /\
  parse_relation_groups
    (fun s => if s =? "[1]" then Some (JArr [JInt 1]) else None) "[1]" ["a.py"]
  = Raised AttributeError /\
  as_pydict (_fallback_intelligent_grouping ["a.py"])
  = [(KStr "root-changes", directory_group "root" ["a.py"])].
Proof.
  split; [|split; reflexivity].
  intros json_loads ai_response all_files H. unfold parse_relation_groups.
  destruct H as [-> | [-> | ->]]; reflexivity.
Qed.

(** C10.  A group object may lack every key but [files]: the name is then
    ["unknown"], the type ["chore"], the description [""]; and when
    [commit_messages] is missing or empty, a non-empty [commit_message]
    becomes the only candidate.  Such a group is accepted. *)
Theorem parse_group_defaults :
  (forall members : dict string json,
      exists fields,
        read_group (JObj members) = Returned fields /\
        (dict_get "group" members = None -> f_group_name fields = JStr "unknown") /\
        (dict_get "type" members = None -> f_change_type fields = JStr "chore") /\
        (dict_get "description" members = None -> f_description fields = JStr "") /\
        (forall m,
            dict_get "commit_messages" members = None \/
            dict_get "commit_messages" members = Some (JArr []) ->
            dict_get "commit_message" members = Some m -> truthy m = true ->
            f_commit_messages fields = JArr [m])) /\
  (forall (json_loads : string -> option json) (ai_response f m : string),
      json_loads (clean_response ai_response)
      = Some (JArr [JObj [("files", JArr [JStr f]); ("commit_message", JStr m)]]) ->
      m <> "" ->
      parse_relation_groups json_loads ai_response [f]
      = Returned
          [(KStr "unknown",
            mk_group [f] (JStr "") (JStr "chore") Wrench (JArr [JStr m]))]).
Proof.
  split.
  - intros members. eexists. split; [apply read_group_obj|]. cbn -[dict_get].
    unfold member_or. repeat split.
    + now intros ->.
    + now intros ->.
    + now intros ->.
    + intros m [-> | ->] -> T; simpl; now rewrite T.
  - intros json_loads ai_response f m E Nm.
    unfold parse_relation_groups. rewrite E.
    apply String.eqb_neq in Nm.
    cbn. unfold str_in. cbn. rewrite String.eqb_refl. cbn. rewrite Nm. cbn.
    rewrite String.eqb_refl. reflexivity.
Qed.

End ParseResult.

(** C1 at the files [a/foo.py, a/bar.py, b/baz.py] for the fallback, and
    at the files [a.py, b.py] with a response that groups [a.py] alone. *)
Lemma grouping_partition_witness :
  exact_partition ["a/foo.py"; "a/bar.py"; "b/baz.py"]
    (_fallback_intelligent_grouping ["a/foo.py"; "a/bar.py"; "b/baz.py"]) /\
  exists result,
    parse_relation_groups (fun _ => Some (JArr [named_group "g" ["a.py"]])) ""
      ["a.py"; "b.py"]
    = Returned result /\
    (exists n g, In (n, g) result /\ In "b.py" (g_files g)).
Proof.
  split.
  - apply (proj1 grouping_partition). discriminate.
  - eexists. split; [reflexivity|].
    refine (proj2 (proj1 (proj2 grouping_partition)
                     (fun _ => Some (JArr [named_group "g" ["a.py"]])) ""
                     ["a.py"; "b.py"] _ _ eq_refl) _ "b.py" _).
    + discriminate.
    + intros (v & items & members & E & Ei & I & G).
      injection E as <-. injection Ei as <-.
      destruct I as [I | []]. injection I as <-. discriminate G.
    + right. now left.
Defined.

(** C2 where it holds: a response that does not decode. *)
Lemma parse_relation_groups_attribute_error_witness :
  parse_relation_groups (fun _ => None) "not json" ["a.py"]
  = Returned (as_pydict (_fallback_intelligent_grouping ["a.py"])).
Proof.
  apply (proj1 parse_relation_groups_attribute_error). left. reflexivity.
Defined.

(** C10 at a response with one group that has only [files] and
    [commit_message]. *)
Lemma parse_group_defaults_witness :
  parse_relation_groups
    (fun _ => Some (JArr [JObj [("files", JArr [JStr "a.py"]);
                                ("commit_message", JStr "Add a")]]))
    "" ["a.py"]
  = Returned
      [(KStr "unknown",
        mk_group ["a.py"] (JStr "") (JStr "chore") Wrench (JArr [JStr "Add a"]))].
Proof.
  apply (proj2 parse_group_defaults); [reflexivity|discriminate].
Defined.

(* ================================================================== *)
(** * Name collisions *)
(* ================================================================== *)

Section NameSearch.
Variable result : dict pykey group.
Variable base_name : pykey.

Lemma unique_group_name_free (fuel : nat) (group_name : pykey) (counter : nat) :
  dict_mem group_name result = false ->
  unique_group_name fuel result base_name group_name counter = Returned group_name.
Proof. intros M. destruct fuel; simpl; now rewrite M. Qed.

Lemma unique_group_name_search (m : nat) :
  forall (fuel : nat) (group_name : pykey) (counter : nat),
    m < fuel ->
    dict_mem group_name result = true ->
    (forall i, i < m ->
               dict_mem (numbered_name base_name (counter + i)) result = true) ->
    dict_mem (numbered_name base_name (counter + m)) result = false ->
    unique_group_name fuel result base_name group_name counter
    = Returned (numbered_name base_name (counter + m)).
Proof.
  induction m as [|m IH]; intros fuel name counter L M Before Free;
    (destruct fuel as [|fuel]; [lia|]); simpl; rewrite M;
    fold (numbered_name base_name counter).
  - rewrite Nat.add_0_r in *. now apply unique_group_name_free.
  - replace (counter + S m) with (S counter + m) in * by lia.
    apply IH; [lia| | |assumption].
    + specialize (Before 0 ltac:(lia)). now rewrite Nat.add_0_r in Before.
    + intros i Li. specialize (Before (S i) ltac:(lia)).
      now replace (counter + S i) with (S counter + i) in Before by lia.
Qed.

Lemma forallb_false {A : Type} (p : A -> bool) (l : list A) :
  forallb p l = false -> exists x, In x l /\ p x = false.
Proof.
  induction l as [|x l IH]; simpl; [discriminate|].
  destruct (p x) eqn:P; simpl.
  - intros E. destruct (IH E) as (y & I & Py). eauto.
  - intros _. eauto.
Qed.

Lemma least_false (p : nat -> bool) (n : nat) :
  p n = false -> exists m, m <= n /\ p m = false /\ forall i, i < m -> p i = true.
Proof.
  induction n as [n IH] using lt_wf_ind. intros P.
  destruct (forallb p (seq 0 n)) eqn:F.
  - exists n. repeat split; auto. intros i Li.
    rewrite forallb_forall in F. apply F. apply in_seq. lia.
  - apply forallb_false in F as (k & I & Pk). apply in_seq in I.
    destruct (IH k ltac:(lia) Pk) as (m & Lm & Pm & Bm).
    exists m. repeat split; auto. lia.
Qed.

Lemma some_numbered_name_free :
  exists i, i <= List.length result /\
            dict_mem (numbered_name base_name (1 + i)) result = false.
Proof.
  set (cands := map (fun i => numbered_name base_name (1 + i))
                    (seq 0 (S (List.length result)))).
  destruct (forallb (fun k => dict_mem k result) cands) eqn:F.
  - exfalso. rewrite forallb_forall in F.
    assert (NoDup cands) as ND.
    { apply NoDup_map_inj; [|apply seq_NoDup].
      intros i j E. apply numbered_name_inj in E. lia. }
    assert (incl cands (dict_keys result)) as I.
    { intros k Ik. pose proof (F k Ik) as M. unfold cands in Ik.
      apply in_map_iff in Ik as (i & <- & _). now apply dict_mem_str in M. }
    pose proof (NoDup_incl_length ND I) as L.
    unfold cands, dict_keys in L. rewrite !length_map, length_seq in L. lia.
  - apply forallb_false in F as (k & Ik & M). unfold cands in Ik.
    apply in_map_iff in Ik as (i & <- & Ii). apply in_seq in Ii.
    exists i. split; [lia|assumption].
Qed.

(** The [while] loop ends within [len(result) + 1] turns. *)
Lemma unique_group_name_total :
  exists n,
    unique_group_name (S (List.length result)) result base_name base_name 1
    = Returned n /\
    dict_mem n result = false /\
    (dict_mem base_name result = false -> n = base_name) /\
    (dict_mem base_name result = true ->
     exists c, 1 <= c /\ n = numbered_name base_name c /\
               forall c', 1 <= c' < c ->
                          dict_mem (numbered_name base_name c') result = true).
Proof.
  destruct (dict_mem base_name result) eqn:M.
  - destruct some_numbered_name_free as (i & Li & Fi).
    destruct (least_false
                (fun i => dict_mem (numbered_name base_name (1 + i)) result) i Fi)
      as (m & Lm & Fm & Bm).
    exists (numbered_name base_name (1 + m)). split; [|split; [|split]].
    + apply unique_group_name_search; auto. lia.
    + assumption.
    + discriminate.
    + intros _. exists (1 + m). repeat split; [lia|].
      intros c' Lc. specialize (Bm (c' - 1) ltac:(lia)).
      now replace (1 + (c' - 1)) with c' in Bm by lia.
  - exists base_name. split; [|split; [|split]]; auto; [|discriminate].
    now apply unique_group_name_free.
Qed.

End NameSearch.

Section DistinctKeys.

Lemma dict_mem_Forall {V : Type} (n : pykey) (d : dict pykey V) :
  dict_mem n d = false <-> Forall (fun k => pykey_eqb k n = false) (dict_keys d).
Proof.
  unfold dict_mem. induction d as [|[k v] d IH]; simpl.
  - split; [constructor|reflexivity].
  - change (key_eqb k n) with (pykey_eqb k n). destruct (pykey_eqb k n) eqn:E.
    + split; [discriminate|]. intros F. inversion F. congruence.
    + rewrite IH. split; [now constructor|]. intros F. now inversion F.
Qed.

Lemma FOP_snoc {A : Type} (R : A -> A -> Prop) (l : list A) (x : A) :
  ForallOrdPairs R l -> Forall (fun a => R a x) l -> ForallOrdPairs R (l ++ [x]).
Proof.
  induction 1 as [|a l Fa FOP IH]; simpl; intros F.
  - repeat constructor.
  - inversion F as [|? ? Ra Fl]; subst. constructor; [|auto].
    apply Forall_app. split; [assumption|]. now constructor.
Qed.

Lemma dict_set_distinct {V : Type} (k : pykey) (v : V) (d : dict pykey V) :
  keys_distinct d -> keys_distinct (dict_set k v d).
Proof.
  unfold keys_distinct. intros D. rewrite dict_keys_set.
  destruct (dict_mem k d) eqn:M; [assumption|].
  apply FOP_snoc; [assumption|]. now apply dict_mem_Forall.
Qed.

Lemma parse_groups_distinct (all_files : list string) (groups_list : list json) :
  forall result grouped result' grouped',
    parse_groups all_files groups_list (result, grouped)
    = Returned (result', grouped') ->
    keys_distinct result -> keys_distinct result'.
Proof.
  induction groups_list as [|gd rest IH]; simpl; intros result grouped r' g' E D.
  - now injection E as <- <-.
  - bind_inv E. destruct a as [r1 g1]. apply (IH _ _ _ _ E). clear IH E.
    apply parse_group_step in E0
      as [[-> ->] | (fields & b & n & g & _ & _ & _ & -> & _ & M & _)];
      [assumption|].
    unfold keys_distinct, dict_keys. rewrite map_app. simpl.
    apply FOP_snoc; [assumption|]. now apply dict_mem_Forall.
Qed.

Lemma as_pydict_distinct (d : dict string group) :
  NoDup (dict_keys d) -> keys_distinct (as_pydict d).
Proof.
  unfold keys_distinct, as_pydict, dict_keys. rewrite map_map. simpl.
  induction d as [|[n g] d IH]; simpl; intros ND; [constructor|].
  inversion ND as [|? ? NI ND']; subst. constructor; [|auto].
  apply Forall_forall. intros k Ik. apply in_map_iff in Ik as ([n' g'] & <- & I).
  simpl. apply String.eqb_neq. intros ->. apply NI.
  change n' with (fst (n', g')). now apply in_map.
Qed.

Lemma parse_relation_groups_distinct (json_loads : string -> option json)
  (ai_response : string) (all_files : list string) (result : dict pykey group) :
  parse_relation_groups json_loads ai_response all_files = Returned result ->
  keys_distinct result.
Proof.
  intros E. apply parse_relation_groups_cases in E as [E | ->].
  - unfold parse_decoded in E. bind_inv E. bind_inv E. bind_inv E.
    destruct a1 as [r0 grouped]. injection E as <-.
    assert (keys_distinct r0) as D
      by (apply (parse_groups_distinct _ _ _ _ _ _ E2); constructor).
    destruct (is_nil _); [assumption|now apply dict_set_distinct].
  - apply as_pydict_distinct, fallback_keys_NoDup.
Qed.

End DistinctKeys.

Section SameName.
Variable all_files : list string.
Variable x : string.

Lemma names_for_snoc (j : nat) :
  names_for x (S j) = names_for x j ++ [next_name x j].
Proof.
  destruct j as [|j]; [reflexivity|].
  unfold names_for. rewrite seq_S, map_app. reflexivity.
Qed.

Lemma names_for_length (j : nat) : List.length (names_for x j) = j.
Proof. destruct j; simpl; [reflexivity|]. now rewrite length_map, length_seq. Qed.

Lemma numbered_name_not_base (c : nat) : numbered_name (KStr x) c <> KStr x.
Proof.
  unfold numbered_name. simpl. intros [= E].
  apply (f_equal String.length) in E. rewrite length_append in E. simpl in E. lia.
Qed.

Lemma numbered_in_names (j c : nat) :
  In (numbered_name (KStr x) c) (names_for x (S j)) <-> 1 <= c <= j.
Proof.
  simpl. split.
  - intros [E | I]; [symmetry in E; now apply numbered_name_not_base in E|].
    apply in_map_iff in I as (i & E & I). apply numbered_name_inj in E.
    apply in_seq in I. lia.
  - intros L. right. apply in_map. apply in_seq. lia.
Qed.

Lemma next_name_found (j : nat) (result : dict pykey group) :
  dict_keys result = names_for x j ->
  unique_group_name (S (List.length result)) result (KStr x) (KStr x) 1
  = Returned (next_name x j).
Proof.
  intros K. destruct (unique_group_name_total result (KStr x))
    as (n & U & F & Hfree & Hbusy).
  rewrite U. f_equal. destruct j as [|j].
  - destruct result; [|discriminate]. now apply Hfree.
  - assert (dict_mem (KStr x) result = true) as M
      by (apply dict_mem_str; rewrite K; now left).
    destruct (Hbusy M) as (c & Lc & -> & Before). simpl. f_equal.
    assert (~ (1 <= c <= j)) as N1.
    { intros L. apply numbered_in_names in L. rewrite <- K in L.
      apply dict_mem_str in L. unfold numbered_name in L, F. congruence. }
    destruct (Nat.eq_dec c (S j)) as [-> | N2]; [reflexivity|exfalso].
    specialize (Before (S j) ltac:(lia)). apply dict_mem_str in Before.
    rewrite K in Before. apply (numbered_in_names j (S j)) in Before. lia.
Qed.

Lemma parse_group_named (f : string) (j : nat) (result : dict pykey group)
  (grouped : list string) :
  In f all_files -> dict_keys result = names_for x j ->
  parse_group all_files (result, grouped) (named_group x [f])
  = Returned
      (result ++ [(next_name x j,
                   mk_group [f] (JStr "") (JStr "chore") Wrench (JArr []))],
       grouped ++ [f]).
Proof.
  intros If K. unfold parse_group, named_group. rewrite read_group_obj.
  apply str_in_In in If.
  cbn -[unique_group_name str_in]. rewrite If.
  cbn -[unique_group_name]. rewrite (next_name_found j result K).
  cbn. rewrite dict_set_fresh; [reflexivity|].
  pose proof (unique_group_name_fresh _ _ _ _ _ _ (next_name_found j result K)) as [F _].
  exact F.
Qed.

Lemma parse_groups_named (fs : list string) :
  forall (j : nat) (result : dict pykey group) (grouped : list string),
    incl fs all_files -> dict_keys result = names_for x j ->
    exists result',
      parse_groups all_files (map (fun f => named_group x [f]) fs) (result, grouped)
      = Returned (result', grouped ++ fs) /\
      dict_keys result' = names_for x (j + List.length fs).
Proof.
  induction fs as [|f fs IH]; intros j result grouped I K;
    cbn [map parse_groups List.length].
  - exists result. now rewrite List.app_nil_r, Nat.add_0_r.
  - rewrite (parse_group_named f j result grouped); [|apply I; now left|assumption].
    cbn [bind].
    destruct (IH (S j) (result ++ [(next_name x j,
                     mk_group [f] (JStr "") (JStr "chore") Wrench (JArr []))])
                 (grouped ++ [f])) as (r' & E & K').
    + intros y Iy. apply I. now right.
    + unfold dict_keys in *. rewrite map_app, K. simpl.
      symmetry. apply names_for_snoc.
    + exists r'. rewrite <- app_assoc in E. simpl in E.
      split; [exact E|]. rewrite K'. f_equal. lia.
Qed.

End SameName.

Section NameCollisions.

Lemma firstn_keys_set {V : Type} (k : pykey) (v : V) (d : dict pykey V) :
  firstn (List.length (dict_keys d)) (dict_keys (dict_set k v d)) = dict_keys d.
Proof.
  rewrite dict_keys_set. destruct (dict_mem k d).
  - apply firstn_all.
  - rewrite firstn_app, Nat.sub_diag, firstn_all. simpl. apply List.app_nil_r.
Qed.

(** C7.  The [while] loop that makes a group name unique always ends: it
    returns the wanted name when the result does not have it yet, and
    otherwise the first of [name-1], [name-2], ... that the result does not
    have.  A turn of the parsing loop never replaces a group: it leaves the
    result alone or adds one group at its end under such a name.  No two
    names of a returned grouping are equal.  Groups that all ask for the
    name [x] are named [x], [x-1], [x-2], ... in the order of the
    response; with two groups, [x] and [x-1]. *)
Theorem name_collision_resolution :
  (forall (result : dict pykey group) (base_name : pykey),
      exists n,
        unique_group_name (S (List.length result)) result base_name base_name 1
        = Returned n /\
        dict_mem n result = false /\
        (dict_mem base_name result = false -> n = base_name) /\
        (dict_mem base_name result = true ->
         exists c, 1 <= c /\ n = numbered_name base_name c /\
                   forall c', 1 <= c' < c ->
                              dict_mem (numbered_name base_name c') result = true)) /\
  (forall all_files result grouped group_data result' grouped',
      parse_group all_files (result, grouped) group_data
      = Returned (result', grouped') ->
      result' = result \/
      exists n g, result' = result ++ [(n, g)] /\ dict_mem n result = false) /\
  (forall json_loads ai_response all_files result,
      parse_relation_groups json_loads ai_response all_files = Returned result ->
      keys_distinct result) /\
  (forall json_loads ai_response all_files x fs,
      json_loads (clean_response ai_response)
      = Some (JArr (map (fun f => named_group x [f]) fs)) ->
      incl fs all_files ->
      exists result,
        parse_relation_groups json_loads ai_response all_files = Returned result /\
        firstn (List.length fs) (dict_keys result) = names_for x (List.length fs)) /\
  parse_decoded
    (Some (JArr [named_group "x" ["a.py"]; named_group "x" ["b.py"]]))
    ["a.py"; "b.py"]
  = Returned
      [(KStr "x", mk_group ["a.py"] (JStr "") (JStr "chore") Wrench (JArr []));
       (KStr "x-1", mk_group ["b.py"] (JStr "") (JStr "chore") Wrench (JArr []))].
Proof.
  split; [exact unique_group_name_total|].
  split; [|split; [exact parse_relation_groups_distinct|split; [|reflexivity]]].
  - intros all_files result grouped gd r' g' E.
    apply parse_group_step in E
      as [[-> _] | (fields & b & n & g & _ & _ & _ & -> & _ & M & _)];
      [now left|right; eauto].
  - intros json_loads ai_response all_files x fs E I.
    unfold parse_relation_groups, parse_decoded. rewrite E. cbn [bind py_iter].
    destruct (parse_groups_named all_files x fs 0 [] [] I eq_refl) as (r & Er & K).
    match goal with
    | |- context [parse_groups ?a ?b ?c] =>
        replace (parse_groups a b c) with (@Returned (dict pykey group * list string) (r, [] ++ fs))
    end.
    cbn [bind]. simpl in K.
    destruct (is_nil _).
    + exists r. split; [reflexivity|].
      rewrite K, <- (names_for_length x (List.length fs)) at 1. apply firstn_all.
    + eexists. split; [reflexivity|].
      rewrite <- (names_for_length x (List.length fs)) at 1. rewrite <- K.
      apply firstn_keys_set.
Qed.

End NameCollisions.

(** C7 at a response with three groups named [x]. *)
Lemma name_collision_resolution_witness :
  exists result,
    parse_relation_groups
      (fun _ => Some (JArr (map (fun f => named_group "x" [f])
                                ["a.py"; "b.py"; "c.py"])))
      "" ["a.py"; "b.py"; "c.py"]
    = Returned result /\
    firstn 3 (dict_keys result) = [KStr "x"; KStr "x-1"; KStr "x-2"].
Proof.
  apply (proj1 (proj2 (proj2 (proj2 name_collision_resolution)))
           (fun _ => Some (JArr (map (fun f => named_group "x" [f])
                                     ["a.py"; "b.py"; "c.py"])))
           "" ["a.py"; "b.py"; "c.py"] "x" ["a.py"; "b.py"; "c.py"]).
  - reflexivity.
  - intros f I. exact I.
Defined.

(* ================================================================== *)
(** * The diffs in the prompt *)
(* ================================================================== *)

Section PromptDiffs.

Lemma take_length (n : nat) (s : string) :
  String.length (take n s) = Nat.min n (String.length s).
Proof.
  revert s. induction n as [|n IH]; intros [|c s]; simpl; auto.
Qed.

Lemma take_prefix (n : nat) (s : string) : prefix (take n s) s = true.
Proof.
  revert s. induction n as [|n IH]; intros [|c s]; simpl; auto.
  rewrite IH. destruct (ascii_dec c c); [reflexivity|contradiction].
Qed.

Lemma truncate_diff_short (diff : string) :
  String.length diff <= 3000 -> truncate_diff diff = diff.
Proof.
  intros L. unfold truncate_diff.
  destruct (3000 <? String.length diff)%nat eqn:E; [|reflexivity].
  apply Nat.ltb_lt in E. lia.
Qed.

Lemma truncate_diff_long (diff : string) :
  3000 < String.length diff ->
  truncate_diff diff = (take 3000 diff ++ truncation_mark)%string /\
  String.length (truncate_diff diff) = 3016.
Proof.
  intros L. unfold truncate_diff.
  destruct (3000 <? String.length diff)%nat eqn:E;
    [|apply Nat.ltb_ge in E; lia].
  split; [reflexivity|].
  rewrite length_append, take_length.
  change (String.length truncation_mark) with 16. lia.
Qed.

Lemma diff_block_in_parts (preamble : nat -> list string)
  (output_requirements : nat -> nat -> list string)
  (files : list string) (diffs : dict string string) (item : string * string) :
  In item diffs ->
  exists before after,
    prompt_parts preamble output_requirements files diffs
    = before ++ diff_block item ++ after.
Proof.
  intros I. apply in_split in I as (d1 & d2 & ->). unfold prompt_parts.
  rewrite flat_map_app. cbn [flat_map].
  exists (preamble (List.length files)
          ++ map (fun file_path => ("  - " ++ file_path)%string) files
          ++ [""; replicate 60 "=";
              "FILE DIFFS (analyze content for relationships):";
              replicate 60 "="; ""]
          ++ flat_map diff_block d1),
         (flat_map diff_block d2
          ++ output_requirements (List.length files)
               (suggested_max_groups (List.length files))).
  repeat rewrite <- app_assoc. reflexivity.
Qed.

(** C8 (amended).  A diff of at most 3000 characters enters the prompt
    whole; of a longer one the first 3000 characters enter, followed by the
    16 characters of the mark ["\n... [truncated]"], so that an entry has at
    most 3016 characters.  The prompt is the lines of [prompt_parts] joined
    by line feeds, and for every file of the mapping these lines hold its
    block: the heading, the fence, the entry, the fence, an empty line. *)
Theorem prompt_diff_truncation :
  (forall diff, String.length diff <= 3000 -> truncate_diff diff = diff) /\
  (forall diff,
      3000 < String.length diff ->
      truncate_diff diff = (take 3000 diff ++ truncation_mark)%string /\
      prefix (take 3000 diff) diff = true /\
      String.length (take 3000 diff) = 3000 /\
      String.length (truncate_diff diff) = 3016) /\
  (forall diff, String.length (truncate_diff diff) <= 3016) /\
  (forall preamble output_requirements files diffs file_path diff,
      In (file_path, diff) diffs ->
      generate_relation_grouping_prompt preamble output_requirements files diffs
      = join (String LF "") (prompt_parts preamble output_requirements files diffs) /\
      exists before after,
        prompt_parts preamble output_requirements files diffs
        = before
          ++ [("### FILE: " ++ file_path)%string; "```diff"; truncate_diff diff;
              "```"; ""]
          ++ after).
Proof.
  split; [exact truncate_diff_short|]. split; [|split].
  - intros diff L. destruct (truncate_diff_long diff L) as [E Len].
    repeat split; auto; [apply take_prefix|]. rewrite take_length. lia.
  - intros diff. destruct (Nat.le_gt_cases (String.length diff) 3000) as [L | L].
    + rewrite truncate_diff_short by assumption. lia.
    + destruct (truncate_diff_long diff L) as [_ ->]. lia.
  - intros preamble output_requirements files diffs file_path diff I.
    split; [reflexivity|].
    exact (diff_block_in_parts preamble output_requirements files diffs
             (file_path, diff) I).
Qed.

End PromptDiffs.

(** C8 at a diff of three characters and at one of 3001. *)
Lemma prompt_diff_truncation_witness :
  truncate_diff "abc" = "abc" /\
  String.length (truncate_diff (replicate 3001 "a")) = 3016.
Proof.
  split.
  - apply (proj1 prompt_diff_truncation). simpl. lia.
  - apply (proj1 (proj2 prompt_diff_truncation)).
    apply Nat.ltb_lt. vm_compute. reflexivity.
Defined.

(** C8 as first worded fails: of a diff of 3001 characters the entry in
    the prompt has 3016 characters, more than 3000 (and more than the diff
    itself). *)
Lemma prompt_diff_truncation_counterexample :
  String.length (truncate_diff (replicate 3001 "a")) = 3016 /\
  ~ (forall diff, String.length (truncate_diff diff) <= 3000).
Proof.
  assert (String.length (truncate_diff (replicate 3001 "a")) = 3016) as E
    by (vm_compute; reflexivity).
  split; [exact E|]. intros H. specialize (H (replicate 3001 "a")).
  rewrite E in H. lia.
Qed.

(* ================================================================== *)
(** * More about strings: suffixes, substrings, removal *)
(* ================================================================== *)

Section StringFacts.

Lemma endswith_empty (f : string) : endswith f "" = true.
Proof. induction f as [|c f IH]; simpl; [reflexivity|exact IH]. Qed.

Lemma endswith_app (f p : string) :
  endswith f p = true -> exists a, f = (a ++ p)%string.
Proof.
  induction f as [|c f IH]; cbn [endswith].
  - rewrite orb_false_r. intros E. apply String.eqb_eq in E. now exists "".
  - intros E. apply orb_prop in E as [E | E].
    + apply String.eqb_eq in E. now exists "".
    + destruct (IH E) as [a ->]. now exists (String c a).
Qed.

Lemma endswith_intro (a p : string) : endswith (a ++ p) p = true.
Proof.
  induction a as [|c a IH]; cbn [endswith append].
  - destruct p; cbn [endswith]; now rewrite String.eqb_refl.
  - rewrite IH. apply orb_true_r.
Qed.

Lemma prefix_cons (a b : ascii) (s t : string) :
  prefix (String a s) (String b t) = true <-> a = b /\ prefix s t = true.
Proof.
  simpl. destruct (ascii_dec a b) as [E | N]; split.
  - intros P. now split.
  - now intros [_ P].
  - discriminate.
  - intros [E _]. contradiction.
Qed.

Lemma prefix_has_char (c : ascii) (p s : string) :
  prefix p s = true -> has_char c p = true -> has_char c s = true.
Proof.
  revert s. induction p as [|a p IH]; intros [|b s]; try discriminate.
  intros P H. apply prefix_cons in P as [<- P]. simpl in *.
  destruct (a =? c)%char; [reflexivity|]. now apply IH.
Qed.

Lemma contains_has_char (c : ascii) (s needle : string) :
  contains s needle = true -> has_char c needle = true -> has_char c s = true.
Proof.
  induction s as [|a s IH]; cbn [contains].
  - rewrite orb_false_r. intros P H. destruct needle; [discriminate H|discriminate P].
  - intros C H. apply orb_prop in C as [P | C].
    + apply (prefix_has_char c) in P; assumption.
    + cbn [has_char]. rewrite (IH C H). apply orb_true_r.
Qed.

Lemma prefix_take (p s : string) :
  prefix p s = true -> take (String.length p) s = p.
Proof.
  revert s. induction p as [|a p IH]; intros [|b s]; try discriminate; auto.
  intros P. apply prefix_cons in P as [<- P]. simpl. now rewrite IH.
Qed.

Lemma has_char_take (c : ascii) (n : nat) (s : string) :
  has_char c (take n s) = true -> has_char c s = true.
Proof.
  revert s. induction n as [|n IH]; intros [|a s]; simpl; try discriminate.
  destruct (a =? c)%char; [reflexivity|]. apply IH.
Qed.

(** Removing the occurrences of [old] keeps every character that [old]
    does not have. *)
Lemma remove_from_keeps (c : ascii) (old : string) :
  old <> "" -> has_char c old = false ->
  forall (s : string) (k : nat),
    has_char c (take k s) = false -> has_char c s = true ->
    has_char c (remove_from k old s) = true.
Proof.
  intros NE Hold. induction s as [|a s IH]; intros k Hk Hs; [discriminate|].
  destruct k as [|k]; cbn [remove_from take has_char] in *.
  - destruct (prefix old (String a s)) eqn:P.
    + destruct old as [|o old']; [contradiction|].
      apply prefix_cons in P as [<- P]. cbn [has_char String.length] in *.
      apply orb_false_elim in Hold as [Ho Hold']. rewrite Ho in Hs.
      replace (S (String.length old') - 1) with (String.length old') by lia.
      apply IH; [|exact Hs]. now rewrite (prefix_take _ _ P).
    + cbn [has_char]. destruct (a =? c)%char; [reflexivity|].
      apply IH; [now destruct s|exact Hs].
  - apply orb_false_elim in Hk as [Ha Hk]. rewrite Ha in Hs. now apply IH.
Qed.

Lemma str_remove_keeps (c : ascii) (s old : string) :
  has_char c old = false -> has_char c s = true ->
  has_char c (str_remove s old) = true.
Proof.
  intros Hold Hs. unfold str_remove. destruct (old =? "") eqn:E; [assumption|].
  apply String.eqb_neq in E. apply remove_from_keeps; auto.
Qed.

Lemma remove_from_absent (old s : string) :
  contains s old = false -> remove_from 0 old s = s.
Proof.
  induction s as [|a s IH]; [reflexivity|].
  cbn [contains remove_from]. intros C. apply orb_false_elim in C as [P C].
  rewrite P. now rewrite IH.
Qed.

Lemma str_remove_absent (s old : string) :
  contains s old = false -> str_remove s old = s.
Proof.
  intros C. unfold str_remove. destruct (old =? ""); [reflexivity|].
  now apply remove_from_absent.
Qed.

Lemma remove_star_cons (c : ascii) (t : string) :
  remove_from 0 "*" (String c t)
  = if (c =? "*")%char then remove_from 0 "*" t
    else String c (remove_from 0 "*" t).
Proof.
  cbn [remove_from]. change (String.length "*" - 1) with 0.
  destruct (prefix "*" (String c t)) eqn:P.
  - apply prefix_cons in P as [<- _]. reflexivity.
  - destruct (c =? "*")%char eqn:E; [|reflexivity].
    apply Ascii.eqb_eq in E. subst c.
    rewrite (proj2 (prefix_cons "*" "*" "" t)) in P; [discriminate|].
    split; [reflexivity|now destruct t].
Qed.

Lemma str_remove_star (s : string) : str_remove s "*" = remove_from 0 "*" s.
Proof. reflexivity. Qed.

Lemma remove_star_app (a b : string) :
  str_remove (a ++ b) "*" = (str_remove a "*" ++ str_remove b "*")%string.
Proof.
  rewrite !str_remove_star. induction a as [|c a IH]; [reflexivity|].
  cbn [append]. rewrite !remove_star_cons, IH. now destruct (c =? "*")%char.
Qed.

Lemma remove_star_only (n : nat) : str_remove (replicate n "*") "*" = "".
Proof.
  rewrite str_remove_star. induction n as [|n IH]; [reflexivity|].
  cbn [replicate]. rewrite remove_star_cons. exact IH.
Qed.

Lemma remove_star_free (s : string) :
  has_char "*" s = false -> str_remove s "*" = s.
Proof.
  rewrite str_remove_star. induction s as [|c s IH]; [reflexivity|].
  cbn [has_char]. intros H. apply orb_false_elim in H as [Hc Hs].
  rewrite remove_star_cons, Hc. now rewrite IH.
Qed.

Lemma lstrip_has_char (c : ascii) (s : string) :
  has_char c (lstrip s) = true -> has_char c s = true.
Proof.
  induction s as [|a s IH]; simpl; [auto|].
  destruct (isspace a); simpl; [|auto]. intros H. rewrite (IH H). apply orb_true_r.
Qed.

Lemma rstrip_has_char (c : ascii) (s : string) :
  has_char c (rstrip s) = true -> has_char c s = true.
Proof.
  induction s as [|a s IH]; simpl; [auto|].
  destruct (rstrip s) as [|b r] eqn:R.
  - destruct (isspace a); simpl; [discriminate|]. rewrite orb_false_r.
    intros ->. reflexivity.
  - simpl in *. destruct (a =? c)%char; [reflexivity|]. exact IH.
Qed.

Lemma strip_has_char (c : ascii) (s : string) :
  has_char c (strip s) = true -> has_char c s = true.
Proof. intros H. now apply lstrip_has_char, rstrip_has_char. Qed.

Lemma split_no_sep (c : ascii) (s : string) :
  Forall (fun p => has_char c p = false) (split c s).
Proof.
  induction s as [|a s IH]; simpl; [repeat constructor|].
  destruct (a =? c)%char eqn:E.
  - constructor; [reflexivity|exact IH].
  - destruct (split c s) as [|p rest]; inversion IH; subst;
      constructor; simpl; rewrite ?E; auto.
Qed.

End StringFacts.

(* ================================================================== *)
(** * Exclusion patterns *)
(* ================================================================== *)

Section Exclusions.

Lemma has_char_app (c : ascii) (a b : string) :
  has_char c (a ++ b) = has_char c a || has_char c b.
Proof.
  induction a as [|x a IH]; simpl; [reflexivity|]. now rewrite IH, orb_assoc.
Qed.

Lemma filter_excluded_In (all_excluded files : list string) (f : string) :
  In f (filter_excluded all_excluded files)
  <-> In f files /\ forall excl, In excl all_excluded -> is_excluded f excl = false.
Proof.
  unfold filter_excluded. rewrite filter_In, negb_true_iff. split.
  - intros [I E]. split; [assumption|]. intros excl Ie.
    destruct (is_excluded f excl) eqn:X; [|reflexivity].
    assert (existsb (is_excluded f) all_excluded = true) as Y
      by (apply existsb_exists; eauto).
    congruence.
  - intros [I E]. split; [assumption|].
    destruct (existsb (is_excluded f) all_excluded) eqn:X; [|reflexivity].
    apply existsb_exists in X as (excl & Ie & X). rewrite (E excl Ie) in X.
    discriminate.
Qed.

Lemma star_pattern_on_plain_file (f excl : string) :
  has_char "*" excl = true -> has_char "*" f = false ->
  is_excluded f excl = endswith f (str_remove excl "*").
Proof.
  intros He Hf. unfold is_excluded.
  destruct (contains f (str_remove excl ":(exclude)")) eqn:C;
    [|apply orb_false_r].
  apply (contains_has_char "*") in C; [congruence|].
  now apply str_remove_keeps.
Qed.

Lemma endswith_last_char (f p : string) (c : ascii) :
  endswith f p = true -> last_char p = Some c -> last_char f = Some c.
Proof.
  intros E L. apply endswith_app in E as [a ->].
  now rewrite last_char_append, L.
Qed.

(** X3.  The patterns that [get_default_excludes] reads from the
    configuration are never empty, carry no blank at either end and hold no
    comma. *)
Theorem get_default_excludes_entries (exclude_config : option string) (e : string) :
  In e (get_default_excludes exclude_config) ->
  e <> "" /\ strip e = e /\ has_char "," e = false.
Proof.
  unfold get_default_excludes. destruct exclude_config as [cfg|]; [|intros []].
  destruct (negb (cfg =? "")); [|intros []].
  intros I. apply in_map_iff in I as (f & <- & I).
  apply filter_In in I as [I N]. apply negb_true_iff, String.eqb_neq in N.
  split; [assumption|]. split; [apply strip_idempotent|].
  destruct (has_char "," (strip f)) eqn:H; [|reflexivity].
  apply strip_has_char in H.
  pose proof (split_no_sep "," cfg) as F. rewrite Forall_forall in F.
  rewrite (F f I) in H. discriminate.
Qed.

(** X4.  [get_diff_for_files] returns trimmed text; when no file is left
    after the exclusions it returns the empty text whatever [git] would
    answer, and so it does when [git] fails. *)
Theorem get_diff_for_files_result (files_to_exclude : list string)
  (run_git : list string -> option string) (files exclude_files : list string) :
  let diff := get_diff_for_files files_to_exclude run_git files exclude_files in
  strip diff = diff /\
  (filter_excluded (files_to_exclude ++ exclude_files) files = [] -> diff = "") /\
  ((forall argv, run_git argv = None) -> diff = "").
Proof.
  cbv zeta. unfold get_diff_for_files.
  destruct (filter_excluded _ files) as [|f l] eqn:F; cbn [is_nil].
  - auto.
  - destruct (run_git _) as [out|] eqn:R.
    + split; [apply strip_idempotent|]. split; [discriminate|].
      intros N. rewrite N in R. discriminate.
    + auto.
Qed.

(** X5.  A file is dropped from the diff when one of the patterns is
    [*suffix] and the file ends with [suffix], or when the pattern (free of
    [:(exclude)]) occurs anywhere in the path of the file. *)
Theorem excluded_files_are_dropped (all_excluded files : list string)
  (f excl : string) :
  In excl all_excluded ->
  (exists suffix, excl = ("*" ++ suffix)%string /\
                  has_char "*" suffix = false /\ endswith f suffix = true) \/
  (contains excl ":(exclude)" = false /\ contains f excl = true) ->
  ~ In f (filter_excluded all_excluded files).
Proof.
  intros Ie H I. apply filter_excluded_In in I as [_ E].
  specialize (E excl Ie). unfold is_excluded in E.
  apply orb_false_elim in E as [E1 E2].
  destruct H as [(suffix & -> & Hs & Hf) | [Hc Hf]].
  - rewrite (remove_star_app "*" suffix), (remove_star_free suffix Hs) in E1.
    change (str_remove "*" "*") with "" in E1. simpl in E1. congruence.
  - rewrite (str_remove_absent _ _ Hc) in E2. congruence.
Qed.

(** X6.  A pattern made of stars only (the empty pattern among them)
    excludes every file, so that [get_diff_for_files] returns the empty
    text. *)
Theorem star_pattern_excludes_everything (files_to_exclude : list string)
  (run_git : list string -> option string) (files exclude_files : list string)
  (n : nat) :
  In (replicate n "*") (files_to_exclude ++ exclude_files) ->
  get_diff_for_files files_to_exclude run_git files exclude_files = "".
Proof.
  intros I. unfold get_diff_for_files.
  assert (filter_excluded (files_to_exclude ++ exclude_files) files = []) as ->;
    [|reflexivity].
  destruct (filter_excluded _ files) as [|f l] eqn:F; [reflexivity|exfalso].
  assert (In f (filter_excluded (files_to_exclude ++ exclude_files) files)) as If
    by (rewrite F; now left).
  apply filter_excluded_In in If as [_ E]. specialize (E _ I).
  unfold is_excluded in E. rewrite remove_star_only, endswith_empty in E.
  discriminate.
Qed.

(** X7.  A directory pattern [d/*] excludes no file whose path has no
    star and does not end with a slash: the files under [d] stay in the
    diff. *)
Theorem directory_pattern_keeps_files (d f : string) (files : list string) :
  has_char "*" f = false -> last_char f <> Some "/"%char ->
  is_excluded f (d ++ "/*") = false /\
  (In f files -> In f (filter_excluded [(d ++ "/*")%string] files)).
Proof.
  intros Hf Hl.
  assert (is_excluded f (d ++ "/*") = false) as X.
  { rewrite star_pattern_on_plain_file; [|now rewrite has_char_app, orb_true_r|assumption].
    rewrite remove_star_app. change (str_remove "/*" "*") with "/".
    destruct (endswith f (str_remove d "*" ++ "/")) eqn:E; [|reflexivity].
    apply (endswith_last_char _ _ "/") in E; [contradiction|].
    now rewrite last_char_append. }
  split; [exact X|]. intros I. apply filter_excluded_In. split; [assumption|].
  now intros excl [<- | []].
Qed.

(** X8.  When [get_staged_diff] returns a result, its list of files is
    not empty, no file name holds a line feed, and the diff is trimmed. *)
Theorem get_staged_diff_result (files_to_exclude : list string)
  (run_git : list string -> option string) (exclude_files : list string)
  (r : staged) :
  get_staged_diff files_to_exclude run_git exclude_files = Some r ->
  staged_files r <> [] /\
  Forall (fun f => has_char LF f = false) (staged_files r) /\
  strip (staged_diff r) = staged_diff r.
Proof.
  unfold get_staged_diff.
  destruct (run_git (diff_cached ++ ["--name-only"] ++ _)) as [names|];
    [|discriminate].
  destruct (negb (strip names =? "")); cbn [is_nil]; [|discriminate].
  destruct (split LF (strip names)) as [|p ps] eqn:S; cbn [is_nil]; [discriminate|].
  destruct (run_git (diff_cached ++ _)) as [out|]; [|discriminate].
  intros [= <-]. cbn [staged_files staged_diff].
  split; [discriminate|]. split; [|apply strip_idempotent].
  rewrite <- S. apply split_no_sep.
Qed.

End Exclusions.

Lemma get_default_excludes_entries_witness :
  "dist/*" <> "" /\ strip "dist/*" = "dist/*" /\ has_char "," "dist/*" = false.
Proof.
  apply (get_default_excludes_entries (Some "*.lock, dist/*")).
  right. now left.
Defined.

Lemma excluded_files_are_dropped_witness :
  ~ In "yarn.lock" (filter_excluded ["*.lock"] ["a.py"; "yarn.lock"]).
Proof.
  apply (excluded_files_are_dropped ["*.lock"] ["a.py"; "yarn.lock"]
           "yarn.lock" "*.lock").
  - now left.
  - left. exists ".lock". repeat split.
Defined.

Lemma star_pattern_excludes_everything_witness :
  get_diff_for_files [] (fun _ => Some "diff --git a/a.py b/a.py") ["a.py"] ["*"]
  = "".
Proof.
  apply (star_pattern_excludes_everything [] _ ["a.py"] ["*"] 1). now left.
Defined.

Lemma directory_pattern_keeps_files_witness :
  is_excluded "dist/app.js" "dist/*" = false /\
  (In "dist/app.js" ["dist/app.js"] ->
   In "dist/app.js" (filter_excluded ["dist/*"] ["dist/app.js"])).
Proof.
  apply (directory_pattern_keeps_files "dist" "dist/app.js" ["dist/app.js"]).
  - reflexivity.
  - discriminate.
Defined.

Lemma get_staged_diff_result_witness :
  ["a.py"] <> [] /\
  Forall (fun f => has_char LF f = false) ["a.py"] /\
  strip "a.py" = "a.py".
Proof.
  apply (get_staged_diff_result [] (fun _ => Some "a.py") []
           (mk_staged ["a.py"] "a.py")).
  reflexivity.
Defined.

(* ================================================================== *)
(** * The prompt's guidance and the order of directory groups *)
(* ================================================================== *)

Section PromptGuidance.

(** X9.  The number of groups suggested to the collaborator lies between
    2 and 5, is 2 for fewer than nine files, 5 from fifteen files on, and
    never decreases with the number of files. *)
Theorem suggested_max_groups_bounds (num_files : nat) :
  2 <= suggested_max_groups num_files <= 5 /\
  (num_files < 9 <-> suggested_max_groups num_files = 2) /\
  (15 <= num_files <-> suggested_max_groups num_files = 5) /\
  (forall more, num_files <= more ->
                suggested_max_groups num_files <= suggested_max_groups more).
Proof.
  unfold suggested_max_groups.
  pose proof (Nat.div_mod_eq num_files 3) as D.
  pose proof (Nat.mod_upper_bound num_files 3 ltac:(lia)) as U.
  repeat split; try lia.
  intros more L.
  pose proof (Nat.Div0.div_le_mono num_files more 3 L). lia.
Qed.

(** X10.  Cutting a diff adds at most the 16 characters of the mark; the
    entry is longer than the diff exactly for diffs of 3001 to 3015
    characters. *)
Theorem truncate_diff_length (diff : string) :
  String.length (truncate_diff diff) <= String.length diff + 16 /\
  (String.length diff < String.length (truncate_diff diff)
   <-> 3000 < String.length diff < 3016).
Proof.
  destruct (Nat.le_gt_cases (String.length diff) 3000) as [L | L].
  - rewrite truncate_diff_short by assumption. lia.
  - destruct (truncate_diff_long diff L) as [_ ->]. lia.
Qed.

End PromptGuidance.

Section DirectoryOrder.

Lemma dict_mem_same_keys {V W : Type} (k : string) (d : dict string V)
  (d' : dict string W) :
  dict_keys d = dict_keys d' -> dict_mem k d = dict_mem k d'.
Proof.
  intros E. apply eq_iff_eq_true. rewrite !dict_mem_In. now rewrite E.
Qed.

Lemma dict_keys_append {A : Type} (k : string) (x : A) (d : dict string (list A)) :
  dict_keys (dict_append k x d)
  = if dict_mem k d then dict_keys d else dict_keys d ++ [k].
Proof.
  unfold dict_append. destruct (dict_mem k d) eqn:M.
  - unfold dict_mem in M. destruct (dict_get k d) eqn:G; [|discriminate].
    rewrite dict_keys_set. unfold dict_mem. now rewrite G.
  - rewrite dict_get_set_same, !dict_keys_set, M.
    unfold dict_mem at 1. now rewrite dict_get_set_same.
Qed.

Lemma group_by_keys {A : Type} (key : A -> string) (xs : list A) :
  forall (d : dict string (list A)) (d' : dict string unit),
    dict_keys d = dict_keys d' ->
    dict_keys (group_by (fun x => Some (key x)) xs d)
    = dict_keys (fold_left (fun d k => dict_set k tt d) (map key xs) d').
Proof.
  unfold group_by. induction xs as [|x xs IH]; intros d d' E; simpl; [assumption|].
  apply IH. rewrite dict_keys_append, dict_keys_set, (dict_mem_same_keys _ d d' E).
  now rewrite E.
Qed.

(** X1.  The groups of [group_files_by_directory] come in the order in
    which their first path segments first appear among the files. *)
Theorem group_files_by_directory_order (files : list string) :
  dict_keys (group_files_by_directory files)
  = dict_fromkeys (map root_dir_of files).
Proof.
  exact (group_by_keys root_dir_of files [] [] eq_refl).
Qed.

Lemma several_directories (files : list string) :
  1 < List.length (group_files_by_directory files) <->
  exists f g, In f files /\ In g files /\ root_dir_of f <> root_dir_of g.
Proof.
  split.
  - intros L. destruct (group_files_by_directory files)
      as [|[d1 l1] [|[d2 l2] rest]] eqn:G; simpl in L; try lia.
    pose proof (group_files_by_directory_NoDup files) as ND. rewrite G in ND.
    assert (In (d1, l1) (group_files_by_directory files)) as I1
      by (rewrite G; now left).
    assert (In (d2, l2) (group_files_by_directory files)) as I2
      by (rewrite G; right; now left).
    apply group_files_by_directory_entry in I1 as [E1 N1], I2 as [E2 N2].
    destruct l1 as [|f l1]; [contradiction|]. destruct l2 as [|g l2]; [contradiction|].
    assert (In f (filter (fun x => root_dir_of x =? d1) files)) as F1
      by (rewrite <- E1; now left).
    assert (In g (filter (fun x => root_dir_of x =? d2) files)) as F2
      by (rewrite <- E2; now left).
    apply filter_In in F1 as [F1 R1], F2 as [F2 R2].
    apply String.eqb_eq in R1, R2. exists f, g. repeat split; auto.
    intros X. assert (d1 = d2) as -> by congruence.
    simpl in ND. inversion ND as [|? ? NI _]; subst. apply NI. now left.
  - intros (f & g & If & Ig & N).
    apply group_files_by_directory_covers in If, Ig.
    apply (in_map fst) in If, Ig. simpl in If, Ig.
    pose proof (group_files_by_directory_NoDup files) as ND.
    unfold dict_keys in ND.
    destruct (map fst (group_files_by_directory files)) as [|a [|b rest]] eqn:K.
    + destruct If.
    + destruct If as [E1 | []], Ig as [E2 | []]. congruence.
    + rewrite <- (length_map fst), K. simpl. lia.
Qed.

(** X2.  Files that all have the same first path segment make one group,
    with the files in their order; there are several groups exactly when
    two files differ in their first path segment. *)
Theorem group_files_by_directory_count (files : list string) :
  (forall d, files <> [] -> (forall f, In f files -> root_dir_of f = d) ->
             group_files_by_directory files = [(d, files)]) /\
  (1 < List.length (group_files_by_directory files) <->
   exists f g, In f files /\ In g files /\ root_dir_of f <> root_dir_of g).
Proof.
  split; [|apply several_directories].
  intros d NE Same.
  assert (forall (x : string) (acc : list string),
             dict_append d x [(d, acc)] = [(d, acc ++ [x])]) as Step.
  { intros x acc. unfold dict_append, dict_mem. cbn.
    rewrite String.eqb_refl. cbn. now rewrite String.eqb_refl. }
  assert (forall (fs acc : list string),
             (forall f, In f fs -> root_dir_of f = d) ->
             fold_left (fun grouped file_path =>
                          dict_append (root_dir_of file_path) file_path grouped)
                       fs [(d, acc)]
             = [(d, acc ++ fs)]) as G.
  { induction fs as [|f fs IH]; intros acc S; cbn [fold_left].
    - now rewrite List.app_nil_r.
    - rewrite (S f (or_introl eq_refl)), Step.
      rewrite IH by (intros; apply S; now right). now rewrite <- app_assoc. }
  destruct files as [|f files]; [contradiction|].
  unfold group_files_by_directory. cbn [fold_left].
  rewrite (Same f (or_introl eq_refl)).
  assert (dict_append d f [] = [(d, [f])]) as ->
    by (unfold dict_append, dict_mem; cbn; now rewrite String.eqb_refl).
  apply (G files [f]). intros; apply Same. now right.
Qed.

End DirectoryOrder.

(* ================================================================== *)
(** * Which exceptions leave [parse_relation_groups] *)
(* ================================================================== *)

Section Outcomes.

Lemma bind_benign {A B : Type} (m : outcome A) (k : A -> outcome B) :
  benign m -> (forall a, m = Returned a -> benign (k a)) -> benign (bind m k).
Proof.
  destruct m as [a|e|]; simpl; [auto|destruct e; tauto|tauto].
Qed.

Lemma py_iter_benign (v : json) : benign (py_iter v).
Proof. destruct v; exact I. Qed.

Lemma to_key_benign (v : json) : benign (to_key v).
Proof. destruct v; exact I. Qed.

Lemma match_file_benign (all_files : list string) (f : json) :
  benign (match_file all_files f).
Proof.
  destruct f; simpl; try exact I.
  destruct (str_in s all_files); [exact I|]. now destruct (List.find _ all_files).
Qed.

Lemma validate_files_benign (all_files : list string) (files : list json) :
  forall acc, benign (validate_files all_files files acc).
Proof.
  induction files as [|f files IH]; intros acc; simpl; [exact I|].
  apply bind_benign; [apply match_file_benign|]. intros; apply IH.
Qed.

Lemma parse_group_object (all_files : list string)
  (acc : dict pykey group * list string) (members : dict string json) :
  benign (parse_group all_files acc (JObj members)).
Proof.
  destruct acc as [result grouped]. unfold parse_group.
  rewrite read_group_obj. cbn [bind].
  apply bind_benign; [apply py_iter_benign|]. intros files _.
  apply bind_benign; [apply validate_files_benign|]. intros valid _.
  destruct (is_nil (dict_fromkeys valid)); [exact I|].
  apply bind_benign; [apply to_key_benign|]. intros base_name _.
  destruct (unique_group_name_total result base_name) as (n & -> & _).
  cbn [bind]. apply bind_benign; [apply to_key_benign|]. intros; exact I.
Qed.

Lemma parse_group_other (all_files : list string)
  (acc : dict pykey group * list string) (group_data : json) :
  (forall members, group_data <> JObj members) ->
  parse_group all_files acc group_data = Raised AttributeError.
Proof.
  intros N. destruct acc as [result grouped]. unfold parse_group.
  now rewrite (read_group_not_obj group_data N).
Qed.

Lemma parse_group_ends (all_files : list string)
  (acc : dict pykey group * list string) (group_data : json) :
  benign (parse_group all_files acc group_data) \/
  parse_group all_files acc group_data = Raised AttributeError.
Proof.
  destruct group_data as [| | | | |members];
    try (right; apply parse_group_other; discriminate).
  left. apply parse_group_object.
Qed.

Lemma parse_groups_ends (all_files : list string) (groups_list : list json) :
  forall acc,
    benign (parse_groups all_files groups_list acc) \/
    parse_groups all_files groups_list acc = Raised AttributeError.
Proof.
  induction groups_list as [|gd rest IH]; intros acc; simpl; [now left|].
  destruct (parse_group_ends all_files acc gd) as [B | ->]; [|now right].
  destruct (parse_group all_files acc gd) as [acc'|[]|]; simpl in *;
    try contradiction; auto.
Qed.

Lemma parse_groups_objects (all_files : list string) (groups_list : list json) :
  Forall (fun gd => exists members, gd = JObj members) groups_list ->
  forall acc, benign (parse_groups all_files groups_list acc).
Proof.
  induction 1 as [|gd rest [members ->] _ IH]; intros acc; simpl; [exact I|].
  apply bind_benign; [apply parse_group_object|]. intros; apply IH.
Qed.

Lemma parse_decoded_ends (decoded : option json) (all_files : list string) :
  (exists result, parse_decoded decoded all_files = Returned result) \/
  parse_decoded decoded all_files = Raised JSONDecodeError \/
  parse_decoded decoded all_files = Raised TypeError \/
  parse_decoded decoded all_files = Raised AttributeError.
Proof.
  unfold parse_decoded. destruct decoded as [v|]; cbn [bind]; [|auto].
  destruct (py_iter v) as [items|e|] eqn:E; cbn [bind].
  - destruct (parse_groups_ends all_files items ([], [])) as [B | ->]; [|auto].
    destruct (parse_groups all_files items ([], [])) as [[r g]|[]|];
      simpl in *; try contradiction; eauto.
  - pose proof (py_iter_benign v) as B. rewrite E in B.
    destruct e; simpl in B; try contradiction; auto.
  - pose proof (py_iter_benign v) as B. rewrite E in B. contradiction.
Qed.

Lemma parse_relation_groups_with_decoder_agrees
  (json_loads : string -> option json) (ai_response : string)
  (all_files : list string) :
  parse_relation_groups_with_decoder (caught_only json_loads) ai_response all_files
  = Ended (parse_relation_groups json_loads ai_response all_files).
Proof.
  unfold parse_relation_groups_with_decoder, parse_relation_groups, caught_only.
  now destruct (json_loads (clean_response ai_response)).
Qed.

(** X12.  How [parse_relation_groups] ends.  An exception of [json.loads]
    that the [except] clause does not name ([RecursionError],
    [ValueError], ...) leaves the function; one that it names gives the
    fallback grouping.  Once [json.loads] has returned a value, the
    function returns a grouping or [AttributeError] leaves it: nothing
    else is raised by the code that follows, and the loop that makes
    names unique always ends.  It returns when the value is an array (or
    anything iterable) whose items are all objects. *)
Theorem parse_relation_groups_ends (json_loads : string -> decoding)
  (ai_response : string) (all_files : list string) :
  match json_loads (clean_response ai_response) with
  | Decoded v =>
      ((exists result,
           parse_relation_groups_with_decoder json_loads ai_response all_files
           = Ended (Returned result)) \/
       parse_relation_groups_with_decoder json_loads ai_response all_files
       = Ended (Raised AttributeError)) /\
      (forall items,
          py_iter v = Returned items ->
          Forall (fun gd => exists members, gd = JObj members) items ->
          exists result,
            parse_relation_groups_with_decoder json_loads ai_response all_files
            = Ended (Returned result))
  | DecodeCaught =>
      parse_relation_groups_with_decoder json_loads ai_response all_files
      = Ended (Returned (as_pydict (_fallback_intelligent_grouping all_files)))
  | DecodeUncaught name =>
      parse_relation_groups_with_decoder json_loads ai_response all_files
      = DecoderRaised name
  end.
Proof.
  unfold parse_relation_groups_with_decoder.
  destruct (json_loads (clean_response ai_response)) as [v| |name];
    [|reflexivity|reflexivity].
  split.
  - destruct (parse_decoded_ends (Some v) all_files)
      as [[r ->] | [-> | [-> | ->]]]; eauto.
  - intros items I F. unfold parse_decoded. cbn [bind]. rewrite I. cbn [bind].
    pose proof (parse_groups_objects all_files items F ([], [])) as B.
    destruct (parse_groups all_files items ([], [])) as [[r g]|[]|];
      simpl in *; try contradiction; eauto.
Qed.

End Outcomes.

(** X12 at a decoder that gives up on deeply nested text. *)
Lemma parse_relation_groups_ends_witness :
  parse_relation_groups_with_decoder (fun _ => DecodeUncaught "RecursionError")
    "[[[[" ["a.py"]
  = DecoderRaised "RecursionError".
Proof.
  exact (parse_relation_groups_ends (fun _ => DecodeUncaught "RecursionError")
           "[[[[" ["a.py"]).
Defined.

(* ================================================================== *)
(** * What [parse_relation_groups] returns *)
(* ================================================================== *)

Section ParseResults.

Lemma validate_files_known (all_files fs : list string) :
  incl fs all_files ->
  forall acc, validate_files all_files (map JStr fs) acc = Returned (acc ++ fs).
Proof.
  induction fs as [|f fs IH]; intros I acc; cbn [map validate_files].
  - now rewrite List.app_nil_r.
  - unfold match_file.
    rewrite (proj2 (str_in_In f all_files)) by (apply I; now left).
    cbn [bind]. rewrite IH by (intros x Ix; apply I; now right).
    now rewrite <- app_assoc.
Qed.

Lemma fromkeys_fold_keys (l : list string) :
  forall d : dict string unit,
    NoDup (dict_keys d ++ l) ->
    dict_keys (fold_left (fun d k => dict_set k tt d) l d) = dict_keys d ++ l.
Proof.
  induction l as [|k l IH]; intros d ND; simpl; [now rewrite List.app_nil_r|].
  assert (dict_mem k d = false) as M.
  { apply dict_mem_false. intros I. apply NoDup_remove_2 in ND. apply ND.
    apply in_or_app. now left. }
  rewrite IH; rewrite dict_keys_set, M.
  - now rewrite <- app_assoc.
  - rewrite <- app_assoc. exact ND.
Qed.

Lemma dict_fromkeys_fixed (l : list string) : NoDup l -> dict_fromkeys l = l.
Proof. intros ND. unfold dict_fromkeys. now rewrite fromkeys_fold_keys. Qed.

Lemma str_in_fromkeys (f : string) (l : list string) :
  str_in f (dict_fromkeys l) = str_in f l.
Proof.
  apply Bool.eq_true_iff_eq. rewrite !str_in_In. apply dict_fromkeys_In.
Qed.

Lemma str_in_app (f : string) (l l' : list string) :
  str_in f (l ++ l') = str_in f l || str_in f l'.
Proof. unfold str_in. apply existsb_app. Qed.

Lemma dict_fromkeys_nonempty (l : list string) : l <> [] -> dict_fromkeys l <> [].
Proof.
  destruct l as [|x l]; [contradiction|]. intros _ E.
  assert (In x (dict_fromkeys (x :: l))) as I by (apply dict_fromkeys_In; now left).
  now rewrite E in I.
Qed.

(** A group object that names files of the input under a name that is
    still free is taken as it is. *)
Lemma parse_group_accepts (all_files : list string) (x : string)
  (fs : list string) (result : dict pykey group) (grouped : list string) :
  fs <> [] -> incl fs all_files -> dict_mem (KStr x) result = false ->
  parse_group all_files (result, grouped) (named_group x fs)
  = Returned
      (result ++ [(KStr x,
                   mk_group (dict_fromkeys fs) (JStr "") (JStr "chore") Wrench
                     (JArr []))],
       grouped ++ dict_fromkeys fs).
Proof.
  intros NE I M. unfold parse_group, named_group. rewrite read_group_obj.
  cbn -[unique_group_name validate_files dict_fromkeys].
  rewrite (validate_files_known all_files fs I []).
  cbn -[unique_group_name dict_fromkeys].
  pose proof (dict_fromkeys_nonempty fs NE) as NE'.
  destruct (dict_fromkeys fs) as [|f0 l0] eqn:D; [contradiction|].
  cbn [is_nil unique_group_name]. rewrite M. cbn.
  now rewrite dict_set_fresh by assumption.
Qed.

Lemma parse_groups_plain (all_files : list string)
  (groups : list (string * list string)) :
  forall result grouped,
    NoDup (map fst groups) ->
    (forall item, In item groups ->
       snd item <> [] /\ incl (snd item) all_files /\ NoDup (snd item) /\
       dict_mem (KStr (fst item)) result = false) ->
    parse_groups all_files (map plain_group_object groups) (result, grouped)
    = Returned (result ++ map plain_entry groups,
                grouped ++ concat (map snd groups)).
Proof.
  induction groups as [|[x fs] groups IH]; intros result grouped ND Hg;
    cbn [map parse_groups concat].
  - now rewrite !List.app_nil_r.
  - destruct (Hg (x, fs) (or_introl eq_refl)) as (NE & I & NDf & M).
    cbn [fst snd] in *. unfold plain_group_object at 1. cbn [fst snd].
    rewrite (parse_group_accepts all_files x fs result grouped NE I M).
    rewrite (dict_fromkeys_fixed fs NDf). cbn [bind].
    inversion ND as [|? ? Nx ND']; subst.
    rewrite IH; [now rewrite <- !app_assoc|assumption|].
    intros item Ii. destruct (Hg item (or_intror Ii)) as (NE1 & I1 & ND1 & M1).
    repeat (split; [assumption|]).
    rewrite dict_mem_snoc, M1. cbn [orb].
    destruct (pykey_eqb (KStr x) (KStr (fst item))) eqn:E; [exfalso|reflexivity].
    apply pykey_eqb_str in E. injection E as ->.
    apply Nx. now apply in_map.
Qed.

Lemma NoDup_app_disjoint {A : Type} (l l' : list A) (x : A) :
  NoDup (l ++ l') -> In x l -> In x l' -> False.
Proof.
  induction l as [|a l IH]; simpl; [tauto|].
  intros ND [-> | I] I'.
  - apply NoDup_cons_iff in ND as [N _]. apply N. apply in_or_app. now right.
  - apply NoDup_cons_iff in ND as [_ ND]. now apply IH.
Qed.

Lemma NoDup_app_l {A : Type} (l l' : list A) : NoDup (l ++ l') -> NoDup l.
Proof.
  induction l as [|a l IH]; simpl; intros ND; [constructor|].
  apply NoDup_cons_iff in ND as [N ND]. constructor; [|now apply IH].
  intros I. apply N. apply in_or_app. now left.
Qed.

Lemma NoDup_app_r {A : Type} (l l' : list A) : NoDup (l ++ l') -> NoDup l'.
Proof.
  induction l as [|a l IH]; simpl; intros ND; [assumption|].
  apply NoDup_cons_iff in ND as [_ ND]. now apply IH.
Qed.

Lemma concat_NoDup_item {A B : Type} (gs : list (A * list B)) (item : A * list B) :
  NoDup (concat (map snd gs)) -> In item gs -> NoDup (snd item).
Proof.
  induction gs as [|a gs IH]; simpl; [tauto|].
  intros ND [<- | I]; [now apply NoDup_app_l in ND|].
  apply IH; [now apply NoDup_app_r in ND|assumption].
Qed.

Lemma concat_NoDup_disjoint {A B : Type} (gs : list (A * list B)) :
  NoDup (concat (map snd gs)) ->
  forall it1 it2 f,
    In it1 gs -> In it2 gs -> In f (snd it1) -> In f (snd it2) -> it1 = it2.
Proof.
  induction gs as [|a gs IH]; simpl; [tauto|].
  intros ND it1 it2 f I1 I2 F1 F2.
  assert (forall it, In it gs -> In f (snd it) -> In f (concat (map snd gs))) as C.
  { intros it I F. apply in_concat. exists (snd it). split; [now apply in_map|assumption]. }
  destruct I1 as [<- | I1], I2 as [<- | I2]; [reflexivity| | |].
  - exfalso. apply (NoDup_app_disjoint _ _ f ND F1). now apply (C it2).
  - exfalso. apply (NoDup_app_disjoint _ _ f ND F2). now apply (C it1).
  - apply (IH (NoDup_app_r _ _ ND) it1 it2 f); assumption.
Qed.

Lemma plain_entries_files (groups : list (string * list string)) :
  map g_files (dict_values (map plain_entry groups)) = map snd groups.
Proof.
  unfold dict_values. rewrite !map_map. reflexivity.
Qed.

End ParseResults.

(* ================================================================== *)
(** * The groups of a parsed response *)
(* ================================================================== *)

(** Rewrites a call of the loop with an equation for it. *)
Ltac rewrite_call f E :=
  match type of E with
  | _ = ?rhs =>
      match goal with
      | |- context [f ?a ?b ?c] =>
          replace (f a b c) with rhs by (symmetry; exact E)
      end
  end.

Section ParsedGroups.

Lemma filter_nothing {A : Type} (p : A -> bool) (l : list A) :
  (forall x, In x l -> p x = false) -> filter p l = [].
Proof.
  induction l as [|x l IH]; simpl; intros P; [reflexivity|].
  rewrite P by now left. apply IH. intros; apply P. now right.
Qed.

Lemma dict_get_absent {V : Type} (k : pykey) (d : dict pykey V) :
  dict_mem k d = false -> dict_get k d = None.
Proof. unfold dict_mem. now destruct (dict_get k d). Qed.

Lemma dict_get_snoc_str {V : Type} (s : string) (v : V) (d : dict pykey V) :
  dict_mem (KStr s) d = false ->
  dict_get (KStr s) (d ++ [(KStr s, v)]) = Some v.
Proof.
  unfold dict_mem. induction d as [|[k0 v0] d IH]; cbn [dict_get app].
  - intros _. cbn. now rewrite String.eqb_refl.
  - destruct (key_eqb k0 (KStr s)); [discriminate|exact IH].
Qed.

Lemma dict_set_nonempty {K V : Type} `{KeyEq K} (k : K) (v : V) (d : dict K V) :
  dict_set k v d <> [].
Proof. destruct d as [|[k0 v0] d]; simpl; [|destruct (key_eqb k0 k)]; discriminate. Qed.

(** The files of the groups are marked as grouped. *)
Lemma parse_groups_claimed (all_files : list string) (groups_list : list json) :
  forall result grouped result' grouped',
    parse_groups all_files groups_list (result, grouped)
    = Returned (result', grouped') ->
    (forall n g f, In (n, g) result -> In f (g_files g) -> In f grouped) ->
    forall n g f, In (n, g) result' -> In f (g_files g) -> In f grouped'.
Proof.
  induction groups_list as [|gd rest IH]; simpl; intros result grouped r' g' E C.
  - now injection E as <- <-.
  - bind_inv E. destruct a as [r1 g1]. apply (IH _ _ _ _ E). clear IH E.
    apply parse_group_step in E0
      as [[-> ->] | (fields & b & n & g & _ & _ & _ & -> & -> & _)];
      [assumption|].
    intros n0 g0 f I F. apply in_or_app.
    apply in_app_or in I as [I | [[= <- <-] | []]]; [left|now right].
    now apply (C n0 g0).
Qed.

(** No group lists a file twice. *)
Lemma parse_groups_listed_once (all_files : list string) (groups_list : list json) :
  forall result grouped result' grouped',
    parse_groups all_files groups_list (result, grouped)
    = Returned (result', grouped') ->
    (forall n g, In (n, g) result -> NoDup (g_files g)) ->
    forall n g, In (n, g) result' -> NoDup (g_files g).
Proof.
  induction groups_list as [|gd rest IH]; simpl; intros result grouped r' g' E C.
  - now injection E as <- <-.
  - bind_inv E. destruct a as [r1 g1]. apply (IH _ _ _ _ E). clear IH E.
    apply parse_group_step in E0
      as [[-> ->] | (fields & b & n & g & _ & _ & _ & -> & -> & _ & _ & _ & ND & _)];
      [assumption|].
    intros n0 g0 I.
    apply in_app_or in I as [I | [[= <- <-] | []]]; [now apply (C n0)|assumption].
Qed.

(** X13.  Over a non-empty list of files [parse_relation_groups] never
    returns an empty dictionary, whatever the response is. *)
Theorem parse_relation_groups_nonempty (json_loads : string -> option json)
  (ai_response : string) (all_files : list string) (result : dict pykey group) :
  all_files <> [] ->
  parse_relation_groups json_loads ai_response all_files = Returned result ->
  result <> [].
Proof.
  intros NE E. apply parse_relation_groups_cases in E as [E | ->].
  - unfold parse_decoded in E.
    bind_inv E. rename a into v. bind_inv E. rename a into items.
    bind_inv E. destruct a as [r0 grouped]. injection E as <-.
    assert (groups_sound all_files r0 grouped) as [_ S2].
    { apply (parse_groups_sound all_files items _ _ _ _ E2).
      split; [intros ? ? []|intros ? []]. }
    destruct (is_nil _) eqn:U; [|apply dict_set_nonempty].
    intros ->. destruct all_files as [|f rest]; [contradiction|].
    cbn [filter] in U. destruct (str_in f grouped) eqn:Sf.
    + apply str_in_In in Sf. now destruct (S2 f Sf) as (n & g & [] & _).
    + discriminate.
  - intros X. apply map_eq_nil in X.
    rewrite fallback_of_files in X by assumption.
    destruct all_files as [|f rest]; [contradiction|].
    destruct (groups_cover (f :: rest) f (or_introl eq_refl)) as [g I].
    now rewrite X in I.
Qed.

(** X14.  When the input names every file once, every group of the result
    names each of its files once, for a parsed response as for the
    fallback. *)
Theorem parse_relation_groups_lists_files_once
  (json_loads : string -> option json) (ai_response : string)
  (all_files : list string) (result : dict pykey group) (n : pykey) (g : group) :
  NoDup all_files ->
  parse_relation_groups json_loads ai_response all_files = Returned result ->
  In (n, g) result -> NoDup (g_files g).
Proof.
  intros ND E I. apply parse_relation_groups_cases in E as [E | ->].
  - unfold parse_decoded in E.
    bind_inv E. rename a into v. bind_inv E. rename a into items.
    bind_inv E. destruct a as [r0 grouped]. injection E as <-.
    assert (forall n g, In (n, g) r0 -> NoDup (g_files g)) as L.
    { apply (parse_groups_listed_once all_files items _ _ _ _ E2). intros ? ? []. }
    destruct (is_nil _); [now apply (L n)|].
    apply dict_set_entries in I as [I | ->]; [now apply (L n)|].
    cbn [miscellaneous_group g_files]. now apply NoDup_filter.
  - apply as_pydict_In in I as (s & -> & I).
    destruct all_files as [|f rest].
    + rewrite fallback_of_nothing in I. destruct I as [[= _ <-] | []]. constructor.
    + rewrite fallback_of_files in I by discriminate.
      apply groups_entry in I as [-> _]. now apply NoDup_filter.
Qed.

(** X15.  When the response has no group object named
    [miscellaneous-changes], the result has a group of that name exactly
    when some input file is in no parsed group; it is then the last group
    and holds those files, in the order of the input, with the fixed
    description, type [chore] and no messages. *)
Theorem miscellaneous_group_holds_the_rest (decoded : option json)
  (all_files : list string) (result : dict pykey group) :
  parse_decoded decoded all_files = Returned result ->
  ~ names_miscellaneous decoded ->
  match dict_get (KStr miscellaneous_name) result with
  | Some g =>
      exists parsed,
        result = parsed ++ [(KStr miscellaneous_name, g)] /\
        g_files g <> [] /\
        g = miscellaneous_group
              (filter (fun f =>
                         negb (existsb (fun e => str_in f (g_files (snd e))) parsed))
                      all_files)
  | None =>
      forall f, In f all_files -> exists n g, In (n, g) result /\ In f (g_files g)
  end.
Proof.
  unfold parse_decoded. intros E Hm.
  bind_inv E. rename a into v. bind_inv E. rename a into items.
  bind_inv E. destruct a as [r0 grouped]. injection E as <-.
  assert (groups_sound all_files r0 grouped) as [S1 S2].
  { apply (parse_groups_sound all_files items _ _ _ _ E2).
    split; [intros ? ? []|intros ? []]. }
  assert (forall n g f, In (n, g) r0 -> In f (g_files g) -> In f grouped) as C.
  { apply (parse_groups_claimed all_files items _ _ _ _ E2). intros ? ? ? []. }
  assert (dict_mem (KStr miscellaneous_name) r0 = false) as M.
  { apply (parse_groups_no_miscellaneous all_files items) with (3 := eq_refl) in E2;
      [assumption|].
    intros members I G. apply Hm. exists v, items, members.
    destruct decoded; [|discriminate]. injection E0 as ->. auto. }
  assert (forall f, str_in f grouped
                    = existsb (fun e => str_in f (g_files (snd e))) r0) as X.
  { intros f. apply Bool.eq_true_iff_eq. rewrite str_in_In, existsb_exists. split.
    - intros I. destruct (S2 f I) as (n & g & I' & F). exists (n, g).
      split; [assumption|now apply str_in_In].
    - intros ([n g] & I & F). apply str_in_In in F. now apply (C n g). }
  destruct (is_nil _) eqn:U.
  - rewrite (dict_get_absent _ _ M). intros f If.
    destruct (str_in f grouped) eqn:Sf; [apply S2; now apply str_in_In|].
    assert (In f (filter (fun f => negb (str_in f grouped)) all_files)) as I
      by (apply filter_In; now rewrite Sf).
    now destruct (filter _ all_files).
  - rewrite dict_set_fresh by assumption. rewrite (dict_get_snoc_str _ _ _ M).
    exists r0. split; [reflexivity|]. split.
    + cbn [miscellaneous_group g_files]. intros Z. now rewrite Z in U.
    + unfold miscellaneous_group. f_equal. apply filter_ext. intros f. now rewrite X.
Qed.

(** X16.  A response whose only group is named [miscellaneous-changes]
    loses that group: when some input file is missing from it, the group
    built for the missing files is stored under the same name, and the
    files that the response listed are in no group of the result. *)
Theorem miscellaneous_name_is_overwritten (json_loads : string -> option json)
  (ai_response : string) (all_files fs : list string) :
  json_loads (clean_response ai_response)
  = Some (JArr [named_group miscellaneous_name fs]) ->
  fs <> [] -> incl fs all_files ->
  (exists f, In f all_files /\ ~ In f fs) ->
  parse_relation_groups json_loads ai_response all_files
  = Returned
      [(KStr miscellaneous_name,
        miscellaneous_group (filter (fun f => negb (str_in f fs)) all_files))] /\
  forall f, In f fs ->
    ~ In f (filter (fun f => negb (str_in f fs)) all_files).
Proof.
  intros L NE I (f & If & Nf). split.
  - unfold parse_relation_groups, parse_decoded. rewrite L.
    cbn [bind py_iter parse_groups].
    pose proof (parse_group_accepts all_files miscellaneous_name fs [] [] NE I
                  eq_refl) as PG.
    rewrite_call parse_group PG. cbn [bind app].
    rewrite (filter_ext (fun f => negb (str_in f (dict_fromkeys fs)))
               (fun f => negb (str_in f fs)))
      by (intros; now rewrite str_in_fromkeys).
    assert (In f (filter (fun f => negb (str_in f fs)) all_files)) as X.
    { apply filter_In. split; [assumption|].
      destruct (str_in f fs) eqn:S; [|reflexivity].
      apply str_in_In in S. contradiction. }
    destruct (filter _ all_files) as [|f0 l0]; [contradiction|]. reflexivity.
  - intros x Ix F. apply filter_In in F as [_ F].
    apply (proj2 (str_in_In x fs)) in Ix. now rewrite Ix in F.
Qed.

(** X17.  A response that decodes to group objects with distinct names
    whose file lists are non-empty and split the (duplicate-free) input is
    returned as it is: one group per object, in the order of the response,
    with the files as listed, type [chore], no messages and no
    [miscellaneous-changes] group; the result is an exact partition. *)
Theorem well_formed_response_is_kept (json_loads : string -> option json)
  (ai_response : string) (all_files : list string)
  (groups : list (string * list string)) :
  json_loads (clean_response ai_response)
  = Some (JArr (map plain_group_object groups)) ->
  NoDup (map fst groups) ->
  (forall item, In item groups -> snd item <> []) ->
  NoDup all_files ->
  Permutation (concat (map snd groups)) all_files ->
  parse_relation_groups json_loads ai_response all_files
  = Returned (map plain_entry groups) /\
  exact_partition all_files (map plain_entry groups).
Proof.
  intros L NDn NE NDf P.
  assert (NoDup (concat (map snd groups))) as NDc
    by apply (Permutation_NoDup (Permutation_sym P) NDf).
  split.
  - unfold parse_relation_groups, parse_decoded. rewrite L. cbn [bind py_iter].
    assert (parse_groups all_files (map plain_group_object groups) ([], [])
            = Returned ([] ++ map plain_entry groups,
                        [] ++ concat (map snd groups))) as PG.
    { apply (parse_groups_plain all_files groups [] [] NDn).
      intros item Ii. split; [now apply NE|]. split; [|split; [|reflexivity]].
      * intros f If. apply (Permutation_in _ P). apply in_concat.
        exists (snd item). split; [now apply in_map|assumption].
      * now apply (concat_NoDup_item groups item). }
    rewrite_call parse_groups PG.
    cbn [bind app]. rewrite filter_nothing; [reflexivity|].
    intros f If. apply (Permutation_in _ (Permutation_sym P)) in If.
    apply (proj2 (str_in_In f _)) in If. now rewrite If.
  - split; [|split; [|split]].
    + unfold dict_keys. rewrite map_map. cbn [plain_entry fst].
      rewrite <- (map_map fst KStr). apply NoDup_map_inj; [|assumption].
      now intros x y [= ->].
    + intros n g I. apply in_map_iff in I as (item & [= <- <-] & I). now apply NE.
    + intros n1 g1 n2 g2 f I1 I2 F1 F2.
      apply in_map_iff in I1 as (it1 & [= <- <-] & I1).
      apply in_map_iff in I2 as (it2 & [= <- <-] & I2).
      cbn [g_files] in F1, F2.
      now rewrite (concat_NoDup_disjoint groups NDc it1 it2 f I1 I2 F1 F2).
    + rewrite plain_entries_files. exact P.
Qed.

End ParsedGroups.

Lemma parse_relation_groups_nonempty_witness :
  as_pydict (_fallback_intelligent_grouping ["a.py"]) <> [].
Proof.
  apply (parse_relation_groups_nonempty (fun _ => None) "" ["a.py"]);
    [discriminate|reflexivity].
Defined.

Lemma parse_relation_groups_lists_files_once_witness :
  NoDup (g_files (directory_group "root" ["a.py"])).
Proof.
  apply (parse_relation_groups_lists_files_once (fun _ => None) "" ["a.py"]
           (as_pydict (_fallback_intelligent_grouping ["a.py"]))
           (KStr "root-changes")).
  - repeat constructor. simpl. tauto.
  - reflexivity.
  - now left.
Defined.

Lemma miscellaneous_group_holds_the_rest_witness :
  exists parsed,
    [(KStr "g", mk_group ["a.py"] (JStr "") (JStr "chore") Wrench (JArr []));
     (KStr miscellaneous_name, miscellaneous_group ["b.py"])]
    = parsed ++ [(KStr miscellaneous_name, miscellaneous_group ["b.py"])] /\
    g_files (miscellaneous_group ["b.py"]) <> [] /\
    miscellaneous_group ["b.py"]
    = miscellaneous_group
        (filter (fun f =>
                   negb (existsb (fun e => str_in f (g_files (snd e))) parsed))
                ["a.py"; "b.py"]).
Proof.
  apply (miscellaneous_group_holds_the_rest
           (Some (JArr [named_group "g" ["a.py"]])) ["a.py"; "b.py"]
           [(KStr "g", mk_group ["a.py"] (JStr "") (JStr "chore") Wrench (JArr []));
            (KStr miscellaneous_name, miscellaneous_group ["b.py"])]).
  - reflexivity.
  - intros (v & items & members & [= <-] & [= <-] & [[= <-] | []] & G).
    discriminate G.
Defined.

Lemma miscellaneous_name_is_overwritten_witness :
  parse_relation_groups
    (fun _ => Some (JArr [named_group miscellaneous_name ["a.py"]])) ""
    ["a.py"; "b.py"]
  = Returned [(KStr miscellaneous_name, miscellaneous_group ["b.py"])].
Proof.
  apply (proj1 (miscellaneous_name_is_overwritten
                  (fun _ => Some (JArr [named_group miscellaneous_name ["a.py"]]))
                  "" ["a.py"; "b.py"] ["a.py"] eq_refl
                  ltac:(discriminate)
                  ltac:(intros x [<- | []]; now left)
                  ltac:(exists "b.py"; split;
                        [right; now left | intros [X | []]; discriminate X]))).
Defined.

(** X17 at the design document's scenario A. *)
Lemma well_formed_response_is_kept_witness :
  parse_relation_groups
    (fun _ => Some (JArr [named_group "a" ["a/foo.py"; "a/bar.py"];
                          named_group "b" ["b/baz.py"]]))
    "" ["a/foo.py"; "a/bar.py"; "b/baz.py"]
  = Returned
      [(KStr "a", mk_group ["a/foo.py"; "a/bar.py"] (JStr "") (JStr "chore")
                    Wrench (JArr []));
       (KStr "b", mk_group ["b/baz.py"] (JStr "") (JStr "chore") Wrench (JArr []))].
Proof.
  apply (proj1 (well_formed_response_is_kept
                  (fun _ => Some (JArr [named_group "a" ["a/foo.py"; "a/bar.py"];
                                        named_group "b" ["b/baz.py"]]))
                  "" ["a/foo.py"; "a/bar.py"; "b/baz.py"]
                  [("a", ["a/foo.py"; "a/bar.py"]); ("b", ["b/baz.py"])]
                  eq_refl
                  ltac:(repeat constructor; simpl; intuition discriminate)
                  ltac:(intros item [<- | [<- | []]]; discriminate)
                  ltac:(repeat constructor; simpl; intuition discriminate)
                  ltac:(apply Permutation_refl))).
Defined.

(* ================================================================== *)
(** * More on [sanitize_commit_messages] and on [analyze_changes] *)
(* ================================================================== *)

Section SanitizeMore.

Lemma split_app (c : ascii) (a b : string) :
  split c (a ++ String c b) = split c a ++ split c b.
Proof.
  induction a as [|x a IH]; cbn [append split].
  - now rewrite Ascii.eqb_refl.
  - destruct (x =? c)%char; [now rewrite IH|].
    rewrite IH. destruct (split c a) as [|p r] eqn:E; [|reflexivity].
    pose proof (split_nonempty c a). now rewrite E in *.
Qed.

Lemma split_whole (c : ascii) (s : string) :
  has_char c s = false -> split c s = [s].
Proof.
  induction s as [|a s IH]; cbn [has_char split]; [reflexivity|].
  intros H. apply orb_false_iff in H as [-> H]. now rewrite (IH H).
Qed.

Lemma append_assoc (a b c : string) :
  ((a ++ b) ++ c)%string = (a ++ b ++ c)%string.
Proof. induction a as [|x a IH]; cbn [append]; [reflexivity|now rewrite IH]. Qed.

Lemma prefix_append (p r : string) : prefix p (p ++ r) = true.
Proof.
  induction p as [|a p IH]; [now destruct r|].
  apply prefix_cons. now split.
Qed.

Lemma rstrip_after_text (p s : string) :
  match last_char p with Some c => isspace c = false | None => False end ->
  exists r, rstrip (p ++ s) = (p ++ r)%string.
Proof.
  induction p as [|a p IH]; cbn [last_char]; [contradiction|].
  destruct (last_char p) as [c|] eqn:L.
  - intros H. destruct (IH H) as [r Er]. exists r. cbn [append rstrip].
    rewrite Er. destruct p; [discriminate L|reflexivity].
  - intros H. destruct p; [|cbn [last_char] in L; destruct (last_char p); discriminate].
    cbn [append]. destruct (rstrip_keeps_head a s H) as [r Er]. now exists r.
Qed.

Lemma strip_error_text (s : string) :
  startswith (strip (error_prefix ++ s)) error_prefix = true.
Proof.
  unfold strip. change (lstrip (error_prefix ++ s)) with (error_prefix ++ s)%string.
  destruct (rstrip_after_text error_prefix s) as [r ->]; [reflexivity|].
  apply prefix_append.
Qed.

Lemma keep_candidate_spec (c : string) :
  keep_candidate c = true <-> c <> "" /\ startswith c error_prefix = false.
Proof.
  unfold keep_candidate. rewrite andb_true_iff, !negb_true_iff, String.eqb_neq.
  tauto.
Qed.

(** X21.  Every message that [sanitize_commit_messages] returns is
    non-empty, has no blank at either end and does not begin with
    ["Error generating commit message:"]. *)
Theorem sanitize_commit_messages_entries (m : messages) (c : string) :
  In c (sanitize_commit_messages m) ->
  c <> "" /\ strip c = c /\ startswith c error_prefix = false.
Proof.
  rewrite sanitize_as_filter. unfold candidate_filter. intros I.
  apply filter_In in I as [I K]. apply keep_candidate_spec in K as [N E].
  apply in_map_iff in I as (x & <- & _).
  split; [assumption|]. split; [apply strip_idempotent|assumption].
Qed.

(** X22.  The result for two texts joined by ["|"] is the result for the
    first followed by the result for the second, and the result for two
    lists put end to end is the two results put end to end. *)
Theorem sanitize_commit_messages_joined :
  (forall a b : string,
      sanitize_commit_messages (MsgStr (a ++ "|" ++ b))
      = sanitize_commit_messages (MsgStr a) ++ sanitize_commit_messages (MsgStr b)) /\
  (forall l1 l2 : list string,
      sanitize_commit_messages (MsgList (l1 ++ l2))
      = sanitize_commit_messages (MsgList l1)
        ++ sanitize_commit_messages (MsgList l2)).
Proof.
  split; intros; rewrite !sanitize_as_filter; cbn [candidates_of append].
  - now rewrite split_app, candidate_filter_app.
  - apply candidate_filter_app.
Qed.

(** X23.  An error text without ["|"] is dropped as a whole; when the text
    of the error holds a ["|"], what follows the first one is kept as if
    it were a message of its own. *)
Theorem error_text_is_cut_at_the_bar (s t : string) :
  has_char "|" s = false ->
  sanitize_commit_messages (MsgStr (error_prefix ++ s)) = [] /\
  sanitize_commit_messages (MsgStr (error_prefix ++ s ++ "|" ++ t))
  = sanitize_commit_messages (MsgStr t).
Proof.
  intros H.
  assert (sanitize_commit_messages (MsgStr (error_prefix ++ s)) = []) as E.
  { rewrite sanitize_as_filter. cbn [candidates_of].
    rewrite split_whole.
    - unfold candidate_filter, keep_candidate. cbn [map filter].
      now rewrite strip_error_text, andb_false_r.
    - rewrite has_char_app, H. reflexivity. }
  split; [exact E|].
  replace (error_prefix ++ s ++ "|" ++ t)%string
    with ((error_prefix ++ s) ++ String "|" t)%string
    by (now rewrite append_assoc).
  rewrite !sanitize_as_filter in *. cbn [candidates_of] in *.
  now rewrite split_app, candidate_filter_app, E.
Qed.

End SanitizeMore.

Lemma sanitize_commit_messages_entries_witness :
  "fix: y" <> "" /\ strip "fix: y" = "fix: y" /\
  startswith "fix: y" error_prefix = false.
Proof.
  apply (sanitize_commit_messages_entries
           (MsgStr "feat: x|Error generating commit message: timeout| fix: y ")).
  right. now left.
Defined.

Lemma error_text_is_cut_at_the_bar_witness :
  sanitize_commit_messages (MsgStr (error_prefix ++ " timeout")) = [] /\
  sanitize_commit_messages
    (MsgStr (error_prefix ++ " timeout" ++ "|" ++ "see a|b"))
  = sanitize_commit_messages (MsgStr "see a|b").
Proof.
  apply (error_text_is_cut_at_the_bar " timeout" "see a|b"). reflexivity.
Defined.

Section AnalyzeChanges.

Variable files_to_exclude : list string.
Variable run_git : list string -> option string.
Variable staged_diff_stdout : string.
Variable generateCommitMessage : string -> generated.


End AnalyzeChanges.

(* ================================================================== *)
(** * The commit strategy and the groups made from path arguments *)
(* ================================================================== *)

Section StrategyFacts.

Variable prompt_commit_strategy : dict string (list string) -> bool -> string.
Variable isdir : string -> bool.
Variable repo_root : string.

(** X24.  The strategy is [directory] with the [--directory] flag,
    whatever is configured; without the flag it is the configured mode
    (in any letter case) when that is [directory], [global] or [related],
    and the user is not asked; otherwise the user is asked, always with
    [--files], and without it only when two staged files differ in their
    first path segment, the strategy being [global] when none do.  With
    the flag the function that runs is never the one for a single global
    commit. *)
Theorem commit_strategy_precedence :
  (forall commit_mode is_files_mode staged_files,
      resolve_commit_strategy prompt_commit_strategy true commit_mode
        is_files_mode staged_files
      = "directory") /\
  (forall commit_mode is_files_mode staged_files,
      In (lower commit_mode) ["directory"; "global"; "related"] ->
      resolve_commit_strategy prompt_commit_strategy false commit_mode
        is_files_mode staged_files
      = lower commit_mode) /\
  (forall commit_mode staged_files,
      ~ In (lower commit_mode) ["directory"; "global"; "related"] ->
      resolve_commit_strategy prompt_commit_strategy false commit_mode true
        staged_files
      = prompt_commit_strategy (group_files_by_directory staged_files) true) /\
  (forall commit_mode staged_files,
      ~ In (lower commit_mode) ["directory"; "global"; "related"] ->
      (exists f g, In f staged_files /\ In g staged_files /\
                   root_dir_of f <> root_dir_of g) ->
      resolve_commit_strategy prompt_commit_strategy false commit_mode false
        staged_files
      = prompt_commit_strategy (group_files_by_directory staged_files) false) /\
  (forall commit_mode staged_files,
      ~ In (lower commit_mode) ["directory"; "global"; "related"] ->
      (forall f g, In f staged_files -> In g staged_files ->
                   root_dir_of f = root_dir_of g) ->
      resolve_commit_strategy prompt_commit_strategy false commit_mode false
        staged_files
      = "global") /\
  (forall commit_mode is_files_mode staged_files original_paths,
      choose_processor isdir repo_root
        (resolve_commit_strategy prompt_commit_strategy true commit_mode
           is_files_mode staged_files)
        is_files_mode original_paths
      = if is_files_mode then
          if has_directories isdir repo_root original_paths
          then ProcessPerDirectoryCommitsFromPaths
          else ProcessPerFileCommits
        else ProcessPerDirectoryCommits).
Proof.
  assert (forall commit_mode,
             ~ In (lower commit_mode) ["directory"; "global"; "related"] ->
             (lower commit_mode =? "directory") = false /\
             (lower commit_mode =? "global") = false /\
             (lower commit_mode =? "related") = false) as Other.
  { intros m N. repeat split; apply String.eqb_neq; intros E; apply N;
      rewrite E; simpl; tauto. }
  split; [reflexivity|]. split; [|split; [|split; [|split; [|reflexivity]]]].
  - intros m fm files I. unfold resolve_commit_strategy.
    destruct I as [<- | [<- | [<- | []]]]; reflexivity.
  - intros m files N. unfold resolve_commit_strategy.
    destruct (Other m N) as (-> & -> & ->). reflexivity.
  - intros m files N D. unfold resolve_commit_strategy.
    destruct (Other m N) as (-> & -> & ->).
    apply several_directories in D. apply Nat.ltb_lt in D. now rewrite D.
  - intros m files N S. unfold resolve_commit_strategy.
    destruct (Other m N) as (-> & -> & ->).
    destruct (1 <? List.length (group_files_by_directory files))%nat eqn:L;
      [exfalso|reflexivity].
    apply Nat.ltb_lt in L. apply several_directories in L as (f & g & If & Ig & D).
    apply D. now apply S.
Qed.

End StrategyFacts.

Section DictStrings.
Context {K V : Type} `{KeyEqLaws K}.

Lemma dict_set_In (k n : K) (v g : V) (d : dict K V) :
  In (n, g) (dict_set k v d) -> In (n, g) d \/ (n = k /\ g = v).
Proof.
  induction d as [|[k0 v0] d IH]; simpl.
  - intros [[= <- <-] | []]. now right.
  - destruct (key_eqb k0 k) eqn:E; simpl.
    + apply key_eqb_eq in E. subst k0.
      intros [[= <- <-] | I]; [now right|left; now right].
    + intros [X | I]; [left; now left|].
      destruct (IH I) as [I' | X]; [left; now right|now right].
Qed.

Lemma dict_set_keys_In (k n : K) (v : V) (d : dict K V) :
  In n (dict_keys (dict_set k v d)) <-> In n (dict_keys d) \/ n = k.
Proof.
  rewrite dict_keys_set. destruct (dict_mem k d) eqn:M.
  - apply dict_mem_In in M. split; [auto|]. now intros [I | ->].
  - rewrite in_app_iff. simpl. intuition congruence.
Qed.

End DictStrings.

Section PathGroups.

Variable isdir : string -> bool.
Variable repo_root : string.

Lemma prefix_trans (a b c : string) :
  prefix a b = true -> prefix b c = true -> prefix a c = true.
Proof.
  revert b c. induction a as [|x a IH]; intros [|y b] [|z c]; try discriminate;
    try reflexivity.
  intros P Q. apply prefix_cons in P as [-> P], Q as [-> Q].
  apply prefix_cons. split; [reflexivity|]. now apply (IH b c).
Qed.

Lemma prefix_app_r (a b : string) : prefix a (a ++ b) = true.
Proof.
  induction a as [|x a IH]; [now destruct b|].
  apply prefix_cons. now split.
Qed.

Lemma under_path_nested (k1 k2 f : string) :
  startswith k2 (k1 ++ String os_sep "") = true ->
  under_path k2 f = true -> under_path k1 f = true.
Proof.
  unfold under_path, startswith. intros N U.
  apply orb_true_iff. left. apply orb_prop in U as [U | U].
  - apply (prefix_trans _ k2 _ N).
    apply (prefix_trans _ (k2 ++ String os_sep "") _); [apply prefix_app_r|exact U].
  - apply String.eqb_eq in U. now subst.
Qed.

Lemma path_to_files_loop (staged_files all_paths : list string) :
  forall (original_paths : list string) (d : dict string (list string)),
    incl original_paths all_paths ->
    NoDup (dict_keys d) ->
    Forall (path_group staged_files all_paths) d ->
    let result :=
      fold_left
        (fun path_to_files path =>
           let normalized_path := normpath path in
           let full_path := full_path_of repo_root path in
           if isdir full_path then
             let dir_files := filter (under_path normalized_path) staged_files in
             if is_nil dir_files then path_to_files
             else dict_set normalized_path dir_files path_to_files
           else if str_in normalized_path staged_files then
             dict_set normalized_path [normalized_path] path_to_files
           else path_to_files)
        original_paths d in
    NoDup (dict_keys result) /\ Forall (path_group staged_files all_paths) result.
Proof.
  induction original_paths as [|path rest IH]; intros d I ND F; cbn [fold_left];
    [now split|].
  assert (incl rest all_paths) as I' by (intros x Ix; apply I; now right).
  assert (In path all_paths) as Ip by (apply I; now left).
  cbv zeta. destruct (isdir (full_path_of repo_root path)).
  - destruct (filter (under_path (normpath path)) staged_files) as [|f l] eqn:E;
      cbn [is_nil]; [now apply IH|].
    apply IH; [assumption|now apply dict_set_NoDup|].
    apply Forall_forall. intros [n g] In_.
    apply dict_set_In in In_ as [In_ | [-> ->]];
      [now apply (proj1 (Forall_forall _ _) F)|].
    split; [discriminate|]. split; [now exists path|]. left. now rewrite <- E.
  - destruct (str_in (normpath path) staged_files) eqn:S; [|now apply IH].
    apply IH; [assumption|now apply dict_set_NoDup|].
    apply Forall_forall. intros [n g] In_.
    apply dict_set_In in In_ as [In_ | [-> ->]];
      [now apply (proj1 (Forall_forall _ _) F)|].
    split; [discriminate|]. split; [now exists path|]. right.
    split; [reflexivity|]. now apply str_in_In.
Qed.

Lemma path_to_files_entry (staged_files original_paths : list string)
  (normalized_path : string) (files : list string) :
  In (normalized_path, files)
     (path_to_files_of isdir repo_root staged_files original_paths) ->
  path_group staged_files original_paths (normalized_path, files) /\
  forall f, In f files ->
            In f staged_files /\ under_path normalized_path f = true.
Proof.
  destruct (path_to_files_loop staged_files original_paths original_paths []
              (incl_refl _) (NoDup_nil _) (Forall_nil _)) as [_ F].
  intros I. apply (proj1 (Forall_forall _ _) F) in I. split; [exact I|].
  destruct I as (_ & _ & Kind). cbn [fst snd] in Kind.
  intros f If. destruct Kind as [-> | [-> Ik]].
  - now apply filter_In in If.
  - destruct If as [<- | []]. split; [assumption|].
    unfold under_path. now rewrite String.eqb_refl, orb_true_r.
Qed.

(** X25.  The groups that [process_per_directory_commits_from_paths] makes
    from the path arguments have distinct names, each the normal form of
    an argument; no group is empty; a group holds staged files only, each
    of them the path itself or a file below it. *)
Theorem path_to_files_groups (staged_files original_paths : list string) :
  NoDup (dict_keys (path_to_files_of isdir repo_root staged_files original_paths)) /\
  forall normalized_path files,
    In (normalized_path, files)
       (path_to_files_of isdir repo_root staged_files original_paths) ->
    files <> [] /\
    (exists path, In path original_paths /\ normalized_path = normpath path) /\
    forall f, In f files ->
              In f staged_files /\ under_path normalized_path f = true.
Proof.
  destruct (path_to_files_loop staged_files original_paths original_paths []
              (incl_refl _) (NoDup_nil _) (Forall_nil _)) as [ND _].
  split; [exact ND|]. intros k fs I.
  apply path_to_files_entry in I as ((NE & P & _) & U). auto.
Qed.

(** X27.  The groups made from path arguments can overlap: when the name
    of one group begins with the name of another followed by ["/"], every
    file of the first is also in the second, unless the second is a single
    staged file. *)
Theorem nested_path_groups_overlap (staged_files original_paths : list string)
  (k1 k2 : string) (fs1 fs2 : list string) :
  In (k1, fs1) (path_to_files_of isdir repo_root staged_files original_paths) ->
  In (k2, fs2) (path_to_files_of isdir repo_root staged_files original_paths) ->
  startswith k2 (k1 ++ String os_sep "") = true ->
  incl fs2 fs1 \/ (fs1 = [k1] /\ In k1 staged_files).
Proof.
  intros I1 I2 N.
  apply path_to_files_entry in I2 as [_ U2].
  apply path_to_files_entry in I1 as [(_ & _ & [E1 | E1]) _];
    cbn [fst snd] in *; [left|now right].
  intros f If. destruct (U2 f If) as [S U]. rewrite E1. apply filter_In.
  split; [assumption|]. now apply (under_path_nested k1 k2).
Qed.

End PathGroups.

(** X25 at the design document's scenario D. *)
Lemma path_to_files_groups_witness :
  ["src/api/x.py"; "src/api/y.py"] <> [] /\
  (exists path, In path ["src/api"; "README.md"] /\ "src/api" = normpath path) /\
  forall f, In f ["src/api/x.py"; "src/api/y.py"] ->
            In f ["src/api/x.py"; "src/api/y.py"; "README.md"] /\
            under_path "src/api" f = true.
Proof.
  apply (proj2 (path_to_files_groups (fun p => p =? "/repo/src/api") "/repo"
                  ["src/api/x.py"; "src/api/y.py"; "README.md"]
                  ["src/api"; "README.md"])).
  now left.
Defined.

Lemma nested_path_groups_overlap_witness :
  incl ["src/api/x.py"] ["src/api/x.py"; "src/main.py"] \/
  (["src/api/x.py"; "src/main.py"] = ["src"] /\
   In "src" ["src/api/x.py"; "src/main.py"]).
Proof.
  apply (nested_path_groups_overlap (fun _ => true) "/repo"
           ["src/api/x.py"; "src/main.py"] ["src"; "src/api"]
           "src" "src/api").
  - now left.
  - right. now left.
  - reflexivity.
Defined.

Section FileDiffs.

Variable files_to_exclude : list string.
Variable run_git : list string -> option string.
Variable exclude_files : list string.

Lemma gather_file_diffs_loop (files : list string) :
  forall d : dict string string,
    NoDup (dict_keys d) ->
    (forall f v, In (f, v) d ->
       v = own_diff files_to_exclude run_git exclude_files f /\ v <> "") ->
    let result :=
      fold_left
        (fun file_diffs file =>
           let diff := own_diff files_to_exclude run_git exclude_files file in
           if negb (diff =? "") then dict_set file diff file_diffs else file_diffs)
        files d in
    NoDup (dict_keys result) /\
    (forall f v, In (f, v) result ->
       v = own_diff files_to_exclude run_git exclude_files f /\ v <> "") /\
    (forall f, In f (dict_keys result) <->
               In f (dict_keys d) \/
               (In f files /\
                own_diff files_to_exclude run_git exclude_files f <> "")).
Proof.
  induction files as [|file rest IH]; intros d ND V; cbn [fold_left].
  - split; [assumption|]. split; [assumption|]. intros f. simpl. tauto.
  - cbv zeta.
    destruct (own_diff files_to_exclude run_git exclude_files file =? "") eqn:E;
      cbn [negb].
    + apply String.eqb_eq in E.
      destruct (IH d ND V) as (ND' & V' & K'). split; [assumption|].
      split; [assumption|]. intros f. rewrite K'. simpl.
      split; [tauto|]. intros [I | [[<- | I] N]]; auto. contradiction.
    + apply String.eqb_neq in E.
      destruct (IH (dict_set file
                      (own_diff files_to_exclude run_git exclude_files file) d))
        as (ND' & V' & K').
      * now apply dict_set_NoDup.
      * intros f v I. apply dict_set_In in I as [I | [-> ->]]; [now apply V|].
        now split.
      * split; [assumption|]. split; [assumption|]. intros f. rewrite K'.
        rewrite dict_set_keys_In. simpl. split.
        -- intros [[I | ->] | [I N]]; auto.
        -- intros [I | [[<- | I] N]]; auto.
Qed.

(** X28.  [file_diffs], from which [process_per_related_commits] takes the
    files to group, has one entry for each staged file whose own diff is
    not empty, with that diff, and no other; a file that an exclusion
    pattern matches has none, so it is in no group. *)
Theorem gather_file_diffs_entries (files : list string) :
  NoDup (dict_keys
           (gather_file_diffs files_to_exclude run_git files exclude_files)) /\
  (forall f,
      In f (dict_keys
              (gather_file_diffs files_to_exclude run_git files exclude_files))
      <-> In f files /\
          own_diff files_to_exclude run_git exclude_files f <> "") /\
  (forall f v,
      In (f, v) (gather_file_diffs files_to_exclude run_git files exclude_files) ->
      v = own_diff files_to_exclude run_git exclude_files f) /\
  (forall f,
      existsb (is_excluded f) (files_to_exclude ++ exclude_files) = true ->
      ~ In f (dict_keys
                (gather_file_diffs files_to_exclude run_git files exclude_files))).
Proof.
  destruct (gather_file_diffs_loop files [] (NoDup_nil _))
    as (ND & V & K); [intros ? ? []|].
  fold (gather_file_diffs files_to_exclude run_git files exclude_files) in ND, V, K.
  assert (forall f,
             In f (dict_keys
                     (gather_file_diffs files_to_exclude run_git files
                        exclude_files))
             <-> In f files /\
                 own_diff files_to_exclude run_git exclude_files f <> "") as K'
    by (intros f; rewrite K; simpl; tauto).
  split; [exact ND|]. split; [exact K'|]. split; [intros f v I; now apply V|].
  intros f X I. apply K' in I as [_ N]. apply N.
  unfold own_diff, get_diff_for_files, filter_excluded. cbn [filter].
  now rewrite X.
Qed.

End FileDiffs.

Section MissingMessages.

Lemma messages_missing_spec (g : group) (b : bool) :
  messages_missing g = Returned b -> b = negb (truthy (g_commit_messages g)).
Proof.
  unfold messages_missing.
  destruct (g_commit_messages g) as [| [|] | z | s | items | members];
    cbn; try congruence.
  - destruct (z =? 0)%Z; cbn; congruence.
  - destruct s; cbn; congruence.
  - destruct items; cbn; congruence.
  - destruct members; cbn; congruence.
Qed.

Lemma all_groups_empty_true (values : list group) :
  all_groups_empty values = Returned true <->
  forall g, In g values -> truthy (g_commit_messages g) = false.
Proof.
  induction values as [|g values IH]; cbn [all_groups_empty].
  - split; [intros _ ? []|reflexivity].
  - split.
    + intros E. bind_inv E. apply messages_missing_spec in E0. subst a.
      destruct (truthy (g_commit_messages g)) eqn:T; cbn [negb] in E;
        [discriminate|].
      intros g' [<- | I]; [assumption|]. now apply IH.
    + intros A. unfold messages_missing.
      rewrite (A g (or_introl eq_refl)). cbn [negb bind].
      apply IH. intros; apply A. now right.
Qed.

(** X20.  The test of [process_per_related_commits] for "no group came
    with messages" holds exactly when the messages of every group are
    missing or empty; it holds for every grouping that the fallback made,
    and so whenever the response could not be parsed. *)
Theorem all_groups_empty_detects_fallback :
  (forall related_groups : dict pykey group,
      all_groups_empty (dict_values related_groups) = Returned true <->
      forall n g, In (n, g) related_groups ->
                  truthy (g_commit_messages g) = false) /\
  (forall files,
      all_groups_empty
        (dict_values (as_pydict (_fallback_intelligent_grouping files)))
      = Returned true) /\
  (forall json_loads ai_response all_files,
      json_loads (clean_response ai_response) = None ->
      exists related_groups,
        parse_relation_groups json_loads ai_response all_files
        = Returned related_groups /\
        all_groups_empty (dict_values related_groups) = Returned true).
Proof.
  assert (forall related_groups : dict pykey group,
             all_groups_empty (dict_values related_groups) = Returned true <->
             forall n g, In (n, g) related_groups ->
                         truthy (g_commit_messages g) = false) as A.
  { intros d. rewrite all_groups_empty_true. unfold dict_values. split.
    - intros X n g I. apply X. now apply (in_map snd) in I.
    - intros X g I. apply in_map_iff in I as ([n g'] & <- & I). now apply (X n). }
  assert (forall files,
             all_groups_empty
               (dict_values (as_pydict (_fallback_intelligent_grouping files)))
             = Returned true) as B.
  { intros files. apply A. intros n g I. apply as_pydict_In in I as (s & -> & I).
    destruct files as [|f rest].
    - rewrite fallback_of_nothing in I. now destruct I as [[= _ <-] | []].
    - apply fallback_entry_kind in I
        as [(e & _ & -> & _) | (d & _ & -> & _)]; [reflexivity| |discriminate];
        reflexivity. }
  split; [exact A|]. split; [exact B|].
  intros json_loads ai_response all_files E. eexists. split; [|apply B].
  unfold parse_relation_groups. now rewrite E.
Qed.

End MissingMessages.

(* ================================================================== *)
(** * The array taken from the response *)
(* ================================================================== *)

Section ResponseArray.

Lemma take_drop (n : nat) (s : string) : s = (take n s ++ drop n s)%string.
Proof.
  revert s. induction n as [|n IH]; intros [|a s]; cbn [take drop append]; auto.
  now rewrite <- IH.
Qed.

Lemma find_split (c : ascii) (s : string) (i : nat) :
  find c s = Some i ->
  s = (take i s ++ String c (drop (S i) s))%string /\
  has_char c (take i s) = false.
Proof.
  revert i. induction s as [|a s IH]; intros i; cbn [find]; [discriminate|].
  destruct (a =? c)%char eqn:E.
  - intros [= <-]. apply Ascii.eqb_eq in E. subst a. now split.
  - destruct (find c s) as [j|]; [|discriminate]. intros [= <-].
    destruct (IH j eq_refl) as [Hs H]. cbn [take drop append has_char].
    rewrite E, H. split; [|reflexivity]. f_equal. exact Hs.
Qed.

Lemma rfind_none (c : ascii) (s : string) :
  rfind c s = None <-> has_char c s = false.
Proof.
  induction s as [|a s IH]; cbn [rfind has_char]; [tauto|].
  destruct (rfind c s) as [j|].
  - split; [discriminate|]. intros H. apply orb_false_iff in H as [_ H].
    now apply IH in H.
  - destruct (a =? c)%char; cbn [orb]; [split; discriminate|]. tauto.
Qed.

Lemma rfind_split (c : ascii) (s : string) (j : nat) :
  rfind c s = Some j ->
  take (S j) s = (take j s ++ String c "")%string /\
  has_char c (drop (S j) s) = false.
Proof.
  revert j. induction s as [|a s IH]; intros j; cbn [rfind]; [discriminate|].
  destruct (rfind c s) as [k|] eqn:R.
  - intros [= <-]. destruct (IH k eq_refl) as [T H].
    cbn [take drop append] in *. now rewrite T.
  - destruct (a =? c)%char eqn:E; [|discriminate]. intros [= <-].
    apply Ascii.eqb_eq in E. subst a. cbn [take drop append].
    split; [now destruct s|]. now apply rfind_none.
Qed.

Lemma last_char_snoc (s : string) (c : ascii) :
  last_char (s ++ String c "") = Some c.
Proof.
  induction s as [|a s IH]; cbn [append last_char]; [reflexivity|now rewrite IH].
Qed.

Lemma prefix_nil (s : string) : prefix "" s = true.
Proof. now destruct s. Qed.

Lemma re_search_array_found (s json_match : string) :
  re_search_array s = Some json_match ->
  exists before after,
    s = (before ++ json_match ++ after)%string /\
    has_char "[" before = false /\ has_char "]" after = false /\
    startswith json_match "[" = true /\ last_char json_match = Some "]"%char.
Proof.
  unfold re_search_array.
  destruct (find "[" s) as [i|] eqn:F; [|discriminate].
  destruct (rfind "]" (drop (S i) s)) as [j|] eqn:R; [|discriminate].
  intros [= <-]. apply find_split in F as [Hs H].
  apply rfind_split in R as [T H'].
  exists (take i s), (drop (S j) (drop (S i) s)).
  split; [|split; [assumption|split; [assumption|split]]].
  - change (s = (take i s
                 ++ String "[" (take (S j) (drop (S i) s)
                                ++ drop (S j) (drop (S i) s)))%string).
    rewrite <- (take_drop (S j) (drop (S i) s)). exact Hs.
  - unfold startswith. apply (proj2 (prefix_cons _ _ _ _)).
    split; [reflexivity|apply prefix_nil].
  - change (last_char (String "[" (take (S j) (drop (S i) s))) = Some "]"%char).
    rewrite T. cbn [last_char]. now rewrite last_char_snoc.
Qed.

(** X11.  The text that [parse_relation_groups] decodes: when the trimmed
    response, without its code fence, has a ["["] with a ["]"] after it,
    the text runs from the first ["["] to the last ["]"], so it begins
    with ["["] and ends with ["]"]; what precedes the first ["["] and what
    follows the last ["]"] is dropped. *)
Theorem clean_response_array :
  (forall s json_match,
      re_search_array s = Some json_match ->
      exists before after,
        s = (before ++ json_match ++ after)%string /\
        has_char "[" before = false /\ has_char "]" after = false /\
        startswith json_match "[" = true /\
        last_char json_match = Some "]"%char) /\
  (forall ai_response,
      (startswith (clean_response ai_response) "[" = true /\
       last_char (clean_response ai_response) = Some "]"%char) \/
      re_search_array (clean_response ai_response) = None).
Proof.
  split; [exact re_search_array_found|].
  intros ai_response. unfold clean_response.
  destruct (re_search_array _) as [m|] eqn:E; [left|now right].
  now apply re_search_array_found in E as (_ & _ & _ & _ & _ & Hs & L).
Qed.

End ResponseArray.

Lemma clean_response_array_witness :
  exists before after,
    "Here: [1] [2]."%string = (before ++ "[1] [2]" ++ after)%string /\
    has_char "[" before = false /\ has_char "]" after = false /\
    startswith "[1] [2]" "[" = true /\
    last_char "[1] [2]" = Some "]"%char.
Proof.
  apply (proj1 clean_response_array "Here: [1] [2]." "[1] [2]"). reflexivity.
Defined.

(* ================================================================== *)
(** * More on the fallback grouping *)
(* ================================================================== *)

Section FallbackMore.

Lemma concat_length_ge {A : Type} (ls : list (list A)) :
  (forall l, In l ls -> l <> []) -> List.length ls <= List.length (concat ls).
Proof.
  induction ls as [|l ls IH]; intros NE; cbn [concat List.length]; [lia|].
  rewrite length_app. specialize (IH (fun x I => NE x (or_intror I))).
  pose proof (NE l (or_introl eq_refl)). destruct l; [contradiction|].
  cbn [List.length]. lia.
Qed.

(** X18.  When no file shares an entity key of more than one character
    with another file, the fallback grouping is the grouping by first
    path segment, each group named [<segment>-changes], in the order of
    [group_files_by_directory]. *)
Theorem fallback_without_shared_entity (files : list string) :
  files <> [] ->
  (forall f, In f files -> shares_entity entity_key files f = false) ->
  _fallback_intelligent_grouping files
  = map directory_entry (group_files_by_directory files).
Proof.
  intros NE H. rewrite fallback_of_files by assumption.
  assert (filter big_item (entity_patterns_of files) = []) as R.
  { apply filter_nothing. intros [e l] I.
    destruct (big_item (e, l)) eqn:B; [exfalso|reflexivity].
    apply entity_patterns_entry in I as (El & Nl & O).
    destruct l as [|x l]; [contradiction|].
    assert (In x (filter (fun g => entity_key g =? e) files)) as Ix
      by (rewrite <- El; now left).
    apply filter_In in Ix as [Ix Ex]. apply String.eqb_eq in Ex.
    specialize (H x Ix). unfold shares_entity in H.
    rewrite Ex, O, <- El in H. unfold big_item in B. cbn [snd] in B.
    rewrite B in H. discriminate. }
  unfold related_groups_of, directory_groups_of. rewrite R. cbn [map app].
  rewrite ungrouped_spec, filter_all; [reflexivity|].
  intros f If. now rewrite H.
Qed.

(** X19.  Over a non-empty list the fallback never makes more groups than
    there are files, and a group named [<entity>-related] has at least two
    files. *)
Theorem fallback_group_sizes (files : list string) :
  files <> [] ->
  List.length (_fallback_intelligent_grouping files) <= List.length files /\
  forall e g,
    In ((e ++ "-related")%string, g) (_fallback_intelligent_grouping files) ->
    2 <= List.length (g_files g).
Proof.
  intros NE. split.
  - rewrite <- (Permutation_length (fallback_files_perm files)).
    unfold dict_values. rewrite <- (length_map snd), <- (length_map g_files).
    apply concat_length_ge. intros l I.
    apply in_map_iff in I as (g & <- & I). apply in_map_iff in I as ([n g'] & <- & I).
    rewrite fallback_of_files in I by assumption. now apply groups_entry in I.
  - intros e g I. rewrite fallback_of_files in I by assumption.
    apply in_app_or in I as [I | I].
    + apply related_entry_spec in I as (e' & _ & _ & _ & L & _). lia.
    + apply directory_entry_spec in I as (d & E & _). exfalso.
      now apply related_changes_clash in E.
Qed.

End FallbackMore.

(** X18 at the design document's scenario B. *)
Lemma fallback_without_shared_entity_witness :
  _fallback_intelligent_grouping ["a/foo.py"; "a/bar.py"; "b/baz.py"]
  = [("a-changes", directory_group "a" ["a/foo.py"; "a/bar.py"]);
     ("b-changes", directory_group "b" ["b/baz.py"])].
Proof.
  apply (fallback_without_shared_entity ["a/foo.py"; "a/bar.py"; "b/baz.py"]).
  - discriminate.
  - intros f [<- | [<- | [<- | []]]]; reflexivity.
Defined.

Lemma fallback_group_sizes_witness :
  List.length (_fallback_intelligent_grouping ["user_model.py"; "user_service.py"])
  <= 2 /\
  forall e g,
    In ((e ++ "-related")%string, g)
       (_fallback_intelligent_grouping ["user_model.py"; "user_service.py"]) ->
    2 <= List.length (g_files g).
Proof.
  apply (fallback_group_sizes ["user_model.py"; "user_service.py"]). discriminate.
Defined.

(* ================================================================== *)
(** * The commits that the loop over the paths makes *)
(* ================================================================== *)

Section CommitLoopFacts.

Variable files_to_exclude : list string.
Variable run_git : list (list string) -> list string -> option string.
Variable generateCommitMessage : nat -> string -> generated.
Variable exclude_files : list string.
Variable raw_argv : list string.

Lemma prompt_custom_message_uses (answers rest : list (option string))
  (selected : option string) :
  prompt_custom_message answers = Some (selected, rest) ->
  exists a, answers = a :: rest.
Proof.
  destruct answers as [|a answers]; [discriminate|]. intros [= _ <-]. now exists a.
Qed.

Lemma prompt_commit_message_uses (answers rest : list (option string))
  (selected : option string) :
  prompt_commit_message answers = Some (selected, rest) ->
  exists used, answers = used ++ rest /\ used <> [].
Proof.
  destruct answers as [|action answers]; [discriminate|]. cbn [prompt_commit_message].
  assert (forall x : option string,
             Some (x, answers) = Some (selected, rest) ->
             exists used, action :: answers = used ++ rest /\ used <> []) as One
    by (intros x [= _ <-]; now exists [action]).
  destruct action as [a|]; [|apply One].
  destruct (a =? "cancel"); [apply One|].
  destruct (a =? "custom"); [|destruct (a =? "regenerate"); apply One].
  intros P. apply prompt_custom_message_uses in P as [b ->].
  now exists [Some a; b].
Qed.

Lemma regenerate_commits (files : list string) (w : world) :
  commits (snd (regenerate files_to_exclude run_git generateCommitMessage
                  exclude_files files w))
  = commits w.
Proof.
  unfold regenerate. destruct (_ =? ""); [reflexivity|].
  now destruct (generateCommitMessage _ _).
Qed.

Lemma path_outcome_later (files : list string) (w w1 : world)
  (answers used rest : list (option string)) (r : run bool) :
  answers = used ++ rest -> commits w1 = commits w ->
  path_outcome raw_argv files w1 rest r -> path_outcome raw_argv files w answers r.
Proof.
  intros -> C. destruct r as [committed w' rest'|w'|e w'|]; cbn [path_outcome];
    rewrite ?C; auto.
  intros [[used' ->] X]. split; [|assumption].
  exists (used ++ used'). now rewrite <- app_assoc.
Qed.

Lemma select_commit_outcome (fuel : nat) :
  forall (files commit_message : list string) (w : world)
         (answers : list (option string)),
    List.length answers < fuel ->
    path_outcome raw_argv files w answers
      (select_commit files_to_exclude run_git generateCommitMessage exclude_files
         raw_argv fuel files commit_message w answers).
Proof.
  induction fuel as [|fuel IH]; intros files cm w answers L; [lia|].
  cbn [select_commit].
  destruct (prompt_commit_message answers) as [[selected rest]|] eqn:P;
    [|reflexivity].
  apply prompt_commit_message_uses in P as (used & -> & NE).
  assert (List.length rest < fuel) as L'.
  { rewrite length_app in L. destruct used; [contradiction|]. simpl in L. lia. }
  assert (exists u, used ++ rest = u ++ rest) as Sfx by now exists used.
  destruct selected as [s|]; [|now split].
  destruct (s =? "regenerate") eqn:R.
  - pose proof (regenerate_commits files w) as C.
    destruct (regenerate _ _ _ _ files w) as [[cm'|e] w1]; cbn [snd] in C;
      [|exact C].
    destruct (is_nil cm'); [now split|].
    apply (path_outcome_later files w w1 _ used rest _ eq_refl C).
    now apply IH.
  - apply String.eqb_neq in R. destruct (s =? "") eqn:E; cbn [negb];
      [now split|].
    apply String.eqb_neq in E. split; [assumption|]. now exists s.
Qed.

Lemma process_path_outcome (files : list string) (w : world)
  (answers : list (option string)) :
  path_outcome raw_argv files w answers
    (process_path files_to_exclude run_git generateCommitMessage exclude_files
       raw_argv files w answers).
Proof.
  unfold process_path. assert (exists u, answers = u ++ answers) as Sfx by now exists [].
  destruct (_ =? ""); [now split|].
  destruct (generateCommitMessage _ _) as [m|e]; [|reflexivity].
  destruct (is_nil _); [now split|].
  apply (path_outcome_later files w (mk_world (commits w) (S (generations w)))
           answers [] answers _ eq_refl eq_refl).
  apply select_commit_outcome. lia.
Qed.

Lemma commits_in_order_cons (item : string * list string)
  (items : dict string (list string)) (new : list (list string)) :
  commits_in_order raw_argv items new ->
  commits_in_order raw_argv (item :: items) new.
Proof.
  destruct new as [|c new]; [auto|]. cbn [commits_in_order].
  intros (before & path & files & after & s & -> & H).
  now exists (item :: before), path, files, after, s.
Qed.

Lemma commits_in_order_filter (p : string * list string -> bool)
  (items : dict string (list string)) :
  forall new,
    commits_in_order raw_argv (filter p items) new ->
    commits_in_order raw_argv items new.
Proof.
  induction items as [|a items IH]; intros new; cbn [filter]; [auto|].
  destruct (p a); [|intros H; now apply commits_in_order_cons, IH].
  destruct new as [|c new]; [auto|]. intros H. pose proof H as H0.
  cbn [commits_in_order] in H.
  destruct H as (before & path & files & after & s & E & Ec & N1 & N2 & O).
  destruct before as [|b before]; cbn [app] in E.
  - injection E as -> <-. cbn [commits_in_order].
    exists [], path, files, items, s. repeat (split; [easy|]). now apply IH.
  - injection E as <- E. apply commits_in_order_cons, IH.
    cbn [commits_in_order]. now exists before, path, files, after, s.
Qed.

Lemma process_paths_outcome (items : dict string (list string)) :
  forall (commits_made : bool) (w : world) (answers : list (option string)),
    paths_outcome raw_argv items commits_made w answers
      (process_paths files_to_exclude run_git generateCommitMessage exclude_files
         raw_argv items commits_made w answers).
Proof.
  induction items as [|[path files] items IH]; intros made w answers;
    cbn [process_paths].
  - exists []. rewrite List.app_nil_r, orb_false_r.
    repeat (split; [easy|]). now exists [].
  - pose proof (process_path_outcome files w answers) as P.
    destruct (process_path _ _ _ _ _ files w answers) as [committed w1 rest|w1|e w1|];
      cbn [path_outcome] in P; [| | |contradiction].
    + destruct P as [[used ->] P]. specialize (IH (made || committed) w1 rest).
      destruct committed.
      * destruct P as (s & N1 & N2 & C).
        assert (forall new,
                   commits_in_order raw_argv items new ->
                   commits_in_order raw_argv ((path, files) :: items)
                     (commit_command raw_argv s files :: new)) as O
          by (intros new O; cbn [commits_in_order];
              now exists [], path, files, items, s).
        destruct (process_paths _ _ _ _ _ items _ w1 rest) as [m w2 r2|w2|e2 w2|];
          cbn [paths_outcome] in *; [| | |assumption].
        -- destruct IH as (new & C2 & O2 & -> & [u2 ->]).
           exists (commit_command raw_argv s files :: new).
           split; [rewrite C2, C, <- app_assoc; reflexivity|].
           split; [now apply O|].
           split; [cbn [is_nil negb]; now destruct made|].
           exists (used ++ u2). now rewrite app_assoc.
        -- destruct IH as (new & C2 & O2).
           exists (commit_command raw_argv s files :: new).
           split; [rewrite C2, C, <- app_assoc; reflexivity|now apply O].
        -- destruct IH as (new & C2 & O2).
           exists (commit_command raw_argv s files :: new).
           split; [rewrite C2, C, <- app_assoc; reflexivity|now apply O].
      * destruct (process_paths _ _ _ _ _ items _ w1 rest) as [m w2 r2|w2|e2 w2|];
          cbn [paths_outcome] in *; [| | |assumption].
        -- destruct IH as (new & C2 & O2 & -> & [u2 ->]). exists new.
           split; [now rewrite C2, P|].
           split; [now apply commits_in_order_cons|].
           split; [now rewrite orb_false_r|].
           exists (used ++ u2). now rewrite app_assoc.
        -- destruct IH as (new & C2 & O2). exists new.
           split; [now rewrite C2, P|now apply commits_in_order_cons].
        -- destruct IH as (new & C2 & O2). exists new.
           split; [now rewrite C2, P|now apply commits_in_order_cons].
    + exists []. now rewrite List.app_nil_r.
    + exists []. now rewrite List.app_nil_r.
Qed.

Lemma paths_with_changes_loop (run : list string -> option string)
  (items : dict string (list string)) :
  forall acc : dict string (list string),
    NoDup (dict_keys acc ++ dict_keys items) ->
    fold_left
      (fun paths_with_changes item =>
         let diff :=
           get_diff_for_files files_to_exclude run (snd item) exclude_files in
         if negb (diff =? "") then dict_set (fst item) (snd item) paths_with_changes
         else paths_with_changes)
      items acc
    = acc ++ filter
               (fun item =>
                  negb (get_diff_for_files files_to_exclude run (snd item)
                          exclude_files =? ""))
               items.
Proof.
  induction items as [|[k v] items IH]; intros acc ND; cbn [fold_left filter].
  - now rewrite List.app_nil_r.
  - cbn [dict_keys map fst snd] in *. cbv zeta.
    destruct (negb (_ =? "")).
    + rewrite dict_set_fresh.
      * rewrite IH; [now rewrite <- app_assoc|].
        unfold dict_keys in *. rewrite map_app, <- app_assoc. exact ND.
      * apply dict_mem_false. intros I. apply NoDup_remove_2 in ND. apply ND.
        apply in_or_app. now left.
    + apply IH. now apply NoDup_remove_1 in ND.
Qed.

(** X29.  Whatever the user answers, a run of
    [process_per_directory_commits_from_paths] only adds commit commands,
    each for the files of one group made from the path arguments, with a
    message that is neither empty nor ["regenerate"], at most one for a
    group and in the order of the groups; it returns [True] exactly when
    it issued a command; the commands issued before a [KnownError] or
    before the answers ran out stay issued; the bound on the turns of
    [while True] is never reached. *)
Theorem commits_from_paths_in_order (isdir : string -> bool) (repo_root : string)
  (staged_files original_paths : list string) (w : world)
  (answers : list (option string)) :
  match process_per_directory_commits_from_paths files_to_exclude run_git
          generateCommitMessage exclude_files raw_argv isdir repo_root
          staged_files original_paths w answers with
  | Done commits_made w' rest =>
      exists new,
        commits w' = commits w ++ new /\
        commits_in_order raw_argv
          (path_to_files_of isdir repo_root staged_files original_paths) new /\
        commits_made = negb (is_nil new) /\
        exists used, answers = used ++ rest
  | Waiting w' | Aborted _ w' =>
      exists new,
        commits w' = commits w ++ new /\
        commits_in_order raw_argv
          (path_to_files_of isdir repo_root staged_files original_paths) new
  | Unfinished => False
  end.
Proof.
  unfold process_per_directory_commits_from_paths.
  assert (exists new,
             commits w = commits w ++ new /\
             commits_in_order raw_argv
               (path_to_files_of isdir repo_root staged_files original_paths) new /\
             false = negb (is_nil new) /\
             exists used : list (option string), answers = used ++ answers) as Nothing.
  { exists []. rewrite List.app_nil_r. repeat (split; [easy|]). now exists []. }
  destruct (is_nil (path_to_files_of _ _ _ _)); [exact Nothing|].
  destruct (is_nil (paths_with_changes_of _ _ _ _)); [exact Nothing|].
  unfold paths_with_changes_of. rewrite (paths_with_changes_loop _ _ []).
  - cbn [app].
    pose proof (process_paths_outcome
                  (filter
                     (fun item =>
                        negb (get_diff_for_files files_to_exclude
                                (run_git (commits w)) (snd item) exclude_files
                              =? ""))
                     (path_to_files_of isdir repo_root staged_files original_paths))
                  false w answers) as P.
    destruct (process_paths _ _ _ _ _ _ false w answers) as [m w2 r2|w2|e2 w2|];
      cbn [paths_outcome] in P; [| | |assumption].
    + destruct P as (new & C & O & -> & U). exists new.
      split; [assumption|]. split; [now apply commits_in_order_filter in O|].
      now split.
    + destruct P as (new & C & O). exists new.
      split; [assumption|now apply commits_in_order_filter in O].
    + destruct P as (new & C & O). exists new.
      split; [assumption|now apply commits_in_order_filter in O].
  - cbn [dict_keys map app].
    destruct (path_to_files_loop isdir repo_root staged_files original_paths
                original_paths [] (incl_refl _) (NoDup_nil _) (Forall_nil _))
      as [ND _].
    exact ND.
Qed.

(** X30.  When the generator always answers and nothing of its answers is
    kept by [sanitize_commit_messages], every path is passed over: the
    run ends without a prompt, whatever answers were ready are left
    unused, no commit command is issued and the result is [False]. *)
Theorem no_message_means_no_prompt (isdir : string -> bool) (repo_root : string)
  (staged_files original_paths : list string) (w : world)
  (answers : list (option string)) :
  (forall n diff,
      exists m, generateCommitMessage n diff = Generated m /\
                sanitize_commit_messages m = []) ->
  exists w',
    process_per_directory_commits_from_paths files_to_exclude run_git
      generateCommitMessage exclude_files raw_argv isdir repo_root
      staged_files original_paths w answers
    = Done false w' answers /\
    commits w' = commits w.
Proof.
  intros G.
  assert (forall files w0,
             exists w1,
               process_path files_to_exclude run_git generateCommitMessage
                 exclude_files raw_argv files w0 answers
               = Done false w1 answers /\
               commits w1 = commits w0) as One.
  { intros files w0. unfold process_path.
    destruct (_ =? ""); [now exists w0|].
    destruct (G (generations w0)
                (get_diff_for_files files_to_exclude (run_git (commits w0)) files
                   exclude_files)) as (m & -> & ->).
    cbn [is_nil]. now eexists. }
  assert (forall items w0,
             exists w1,
               process_paths files_to_exclude run_git generateCommitMessage
                 exclude_files raw_argv items false w0 answers
               = Done false w1 answers /\
               commits w1 = commits w0) as All.
  { induction items as [|[path files] items IH]; intros w0; cbn [process_paths].
    - now exists w0.
    - destruct (One files w0) as (w1 & -> & C). cbn [orb].
      destruct (IH w1) as (w2 & -> & C2). exists w2. split; [reflexivity|].
      now rewrite C2. }
  unfold process_per_directory_commits_from_paths.
  destruct (is_nil (path_to_files_of _ _ _ _)); [now exists w|].
  destruct (is_nil (paths_with_changes_of _ _ _ _)); [now exists w|].
  apply All.
Qed.

End CommitLoopFacts.

(** X30 at the design document's scenario C: the only path has a diff, and
    the generator gives an error text. *)
Lemma no_message_means_no_prompt_witness :
  exists w',
    process_per_directory_commits_from_paths []
      (fun _ _ => Some "diff --git a/README.md b/README.md")
      (fun _ _ => Generated (MsgStr "Error generating commit message: timeout"))
      [] [] (fun _ => false) "/repo" ["README.md"] ["README.md"]
      (mk_world [] 0) [Some "cancel"]
    = Done false w' [Some "cancel"] /\
    commits w' = commits (mk_world [] 0).
Proof.
  apply (no_message_means_no_prompt []
           (fun _ _ => Some "diff --git a/README.md b/README.md")
           (fun _ _ => Generated (MsgStr "Error generating commit message: timeout"))
           [] [] (fun _ => false) "/repo" ["README.md"] ["README.md"]
           (mk_world [] 0) [Some "cancel"]).
  intros n diff. eexists. split; reflexivity.
Defined.
